(** * chunk.Reader: a position-tracking reader over bufio.Reader

    Shallow embedding of [chunk/reader.go] (package [chunk] of dgraph).

    The file has three layers, leaves first:
    - the Go runtime pieces the package is written against: the machine
      integer [int], [unicode/utf8], the [io.Reader] interface, [*os.File]
      and [bufio.Reader];
    - [filepath.Ext] and the construction routine [newReader];
    - the read primitives of [chunk.Reader] with their counters.

    Then come the properties of the read primitives and of construction. *)

From Stdlib Require Import String Ascii ZArith List Bool Lia.
From Stdlib Require Import Strings.Byte.
Import ListNotations.

Set Implicit Arguments.

(** ** Go's [int]

    dgraph builds for 64-bit targets, where [int] has 64 bits and addition
    wraps around in two's complement. *)

Module GoInt.

Definition bits : Z := 64.
Definition maxInt : Z := 2 ^ 63 - 1.
Definition minInt : Z := - 2 ^ 63.

Definition wrap (z : Z) : Z := ((z + 2 ^ 63) mod 2 ^ 64 - 2 ^ 63)%Z.

Definition add (a b : Z) : Z := wrap (a + b).

Definition inRange (z : Z) : Prop := (minInt <= z <= maxInt)%Z.

(** [len(s)] as an [int]. *)
Definition len {A : Type} (l : list A) : Z := Z.of_nat (length l).

End GoInt.

(** ** Errors

    The sentinel error values of [io] and [bufio] that the package can
    return, and an opaque one for whatever else a source reports. *)

Inductive error : Type :=
| EOF                    (* io.EOF *)
| ErrNoProgress          (* io.ErrNoProgress *)
| ErrBufferFull          (* bufio.ErrBufferFull *)
| ErrNegativeCount       (* bufio.ErrNegativeCount *)
| ErrInvalidUnreadRune   (* bufio.ErrInvalidUnreadRune *)
| ErrOther (msg : string).

(** ** Slices of byte lists *)

Definition newline : byte := x0a.

(** [s[i:j]] *)
Definition slice {A : Type} (s : list A) (i j : nat) : list A :=
  firstn (j - i) (skipn i s).

(** [copy(dst, src)]: the destination after the copy. *)
Definition copy {A : Type} (dst src : list A) : list A :=
  firstn (length dst) src ++ skipn (length src) dst.

(** The buffer after a callee has written [data] into [buf[at:]]. *)
Definition write_at {A : Type} (buf : list A) (at_ : nat) (data : list A) : list A :=
  firstn at_ buf ++ copy (skipn at_ buf) data.

(** [bytes.IndexByte] *)
Fixpoint IndexByte (s : list byte) (c : byte) : option nat :=
  match s with
  | [] => None
  | x :: s' =>
      if Byte.eqb x c then Some 0
      else match IndexByte s' c with
           | Some i => Some (S i)
           | None => None
           end
  end.

(** [strings.Count(s, "\n")] and the counting loop of [ReadSlice]. *)
Fixpoint countByte (c : byte) (s : list byte) : nat :=
  match s with
  | [] => 0
  | x :: s' => (if Byte.eqb x c then 1 else 0) + countByte c s'
  end.

(** ** unicode/utf8 *)

Module utf8.

Definition RuneError : Z := 0xFFFD.
Definition RuneSelf : Z := 0x80.
Definition UTFMax : nat := 4.

Definition locb : Z := 0x80.
Definition hicb : Z := 0xBF.
Definition maskx : Z := 0x3F.
Definition mask2 : Z := 0x1F.
Definition mask3 : Z := 0x0F.
Definition mask4 : Z := 0x07.

Definition xx : Z := 0xF1.
Definition as_ : Z := 0xF0.
Definition s1 : Z := 0x02.
Definition s2 : Z := 0x13.
Definition s3 : Z := 0x03.
Definition s4 : Z := 0x23.
Definition s5 : Z := 0x34.
Definition s6 : Z := 0x04.
Definition s7 : Z := 0x44.

Definition byteZ (b : byte) : Z := Z.of_N (Byte.to_N b).

(** The table [first], by the ranges of its rows. *)
Definition first (b : byte) : Z :=
  let n := byteZ b in
  if (n <? 0x80)%Z then as_
  else if (n <? 0xC2)%Z then xx
  else if (n <? 0xE0)%Z then s1
  else if (n =? 0xE0)%Z then s2
  else if (n <? 0xED)%Z then s3
  else if (n =? 0xED)%Z then s4
  else if (n <? 0xF0)%Z then s3
  else if (n =? 0xF0)%Z then s5
  else if (n <? 0xF4)%Z then s6
  else if (n =? 0xF4)%Z then s7
  else xx.

(** [acceptRanges[i]] as a pair (lo, hi); unset entries are zero. *)
Definition acceptRanges (i : Z) : Z * Z :=
  if (i =? 0)%Z then (locb, hicb)
  else if (i =? 1)%Z then (0xA0%Z, hicb)
  else if (i =? 2)%Z then (locb, 0x9F%Z)
  else if (i =? 3)%Z then (0x90%Z, hicb)
  else if (i =? 4)%Z then (locb, 0x8F%Z)
  else (0%Z, 0%Z).

Definition outside (lo hi : Z) (b : byte) : bool :=
  ((byteZ b <? lo) || (hi <? byteZ b))%Z.

Definition FullRune (p : list byte) : bool :=
  match p with
  | [] => false
  | p0 :: rest =>
      let n := length p in
      let x := first p0 in
      if (Z.land x 7 <=? Z.of_nat n)%Z then true
      else
        let '(lo, hi) := acceptRanges (Z.shiftr x 4) in
        match rest with
        | p1 :: rest' =>
            if outside lo hi p1 then true
            else match rest' with
                 | p2 :: _ => outside locb hicb p2
                 | [] => false
                 end
        | [] => false
        end
  end.

(** [int32] wrap-around, for the mask trick of [DecodeRune]. *)
Definition wrap32 (z : Z) : Z := ((z + 2 ^ 31) mod 2 ^ 32 - 2 ^ 31)%Z.

Definition DecodeRune (p : list byte) : Z * nat :=
  match p with
  | [] => (RuneError, 0)
  | p0 :: rest =>
      let n := length p in
      let x := first p0 in
      if (as_ <=? x)%Z then
        let mask := Z.shiftr (wrap32 (Z.shiftl x 31)) 31 in
        (Z.lor (Z.land (byteZ p0) (Z.lnot mask)) (Z.land RuneError mask), 1)
      else
        let sz := Z.to_nat (Z.land x 7) in
        let '(lo, hi) := acceptRanges (Z.shiftr x 4) in
        if n <? sz then (RuneError, 1)
        else
          match rest with
          | [] => (RuneError, 1)
          | b1 :: rest1 =>
              if outside lo hi b1 then (RuneError, 1)
              else if sz <=? 2 then
                (Z.lor (Z.shiftl (Z.land (byteZ p0) mask2) 6)
                       (Z.land (byteZ b1) maskx), 2)
              else
                match rest1 with
                | [] => (RuneError, 1)
                | b2 :: rest2 =>
                    if outside locb hicb b2 then (RuneError, 1)
                    else if sz <=? 3 then
                      (Z.lor (Z.lor (Z.shiftl (Z.land (byteZ p0) mask3) 12)
                                    (Z.shiftl (Z.land (byteZ b1) maskx) 6))
                             (Z.land (byteZ b2) maskx), 3)
                    else
                      match rest2 with
                      | [] => (RuneError, 1)
                      | b3 :: _ =>
                          if outside locb hicb b3 then (RuneError, 1)
                          else
                            (Z.lor (Z.lor (Z.lor
                               (Z.shiftl (Z.land (byteZ p0) mask4) 18)
                               (Z.shiftl (Z.land (byteZ b1) maskx) 12))
                               (Z.shiftl (Z.land (byteZ b2) maskx) 6))
                               (Z.land (byteZ b3) maskx), 4)
                      end
                end
          end
  end.

End utf8.

(** ** io.Reader

    [Read s k] is one call of [Read(p)] with [len(p) = k]: the bytes stored
    into [p], the error, and the source afterwards.  [limit] bounds the
    number of bytes a source can still deliver (streams are finite). *)

Class IoReader (S : Type) : Type := {
  Read : S -> nat -> list byte * option error * S;
  limit : S -> nat
}.

(** What an implementation of [io.Reader] respects: it stores no more
    than [len(p)] bytes, what it delivers comes off its limit, and it does
    not report [bufio.ErrBufferFull], which is bufio's own. *)
Class IoReaderLaws (S : Type) {io : IoReader S} : Prop := {
  Read_fits : forall s k bs e s', Read s k = (bs, e, s') -> length bs <= k;
  Read_limit : forall s k bs e s',
      Read s k = (bs, e, s') -> length bs + limit s' <= limit s;
  Read_error : forall s k bs s',
      Read s k <> (bs, Some ErrBufferFull, s')
}.

Arguments IoReaderLaws S {io}.

(** ** *os.File, opened for reading

    A regular file: [Read] delivers as much as fits, and reports [io.EOF]
    with no bytes once the content is used up. *)

Module os.

Record File : Type := mkFile {
  Name : string;
  unread : list byte
}.

Definition FileRead (f : File) (k : nat) : list byte * option error * File :=
  match k with
  | 0 => ([], None, f)
  | _ =>
      match unread f with
      | [] => ([], Some EOF, f)
      | _ => (firstn k (unread f), None, mkFile (Name f) (skipn k (unread f)))
      end
  end.

End os.

#[global] Instance File_IoReader : IoReader os.File := {
  Read := os.FileRead;
  limit f := length (os.unread f)
}.

(** ** bufio.Reader

    The buffered reader of Go's standard library, as far as the package uses
    it: [NewReader], [Peek], [ReadSlice], [ReadString], [ReadRune] and
    [UnreadRune].  The buffer is the byte array [buf] with the read and
    write positions [r] and [w], as in the library.

    Go's loops over [fill] are unbounded [for] loops.  Each round either
    adds a byte to the buffer or records an error, so they are written here
    with a counter that starts above the buffer's length; the loop of
    [ReadString] takes a whole buffer off the stream in every round but the
    last, and its counter is the number of bytes that can still come.  The
    lemmas of modules [bufioFacts], [fileReads] and [bufioBounds] show that
    the counters never run out. *)

Module bufio.

Definition minReadBufferSize : nat := 16.
Definition defaultBufSize : nat := 4096.
Definition maxConsecutiveEmptyReads : nat := 100.

Record Reader (Src : Type) : Type := mkReader {
  buf : list byte;
  rd : Src;                 (* reader provided by the client *)
  r : nat;                (* buf read position *)
  w : nat;                (* buf write position *)
  err : option error;
  lastByte : Z;           (* last byte read; -1 means invalid *)
  lastRuneSize : Z        (* size of last rune read; -1 means invalid *)
}.

Section Methods.

Context {Src : Type} `{IoReader Src}.

Definition with_r (b : Reader Src) (r' : nat) : Reader Src :=
  mkReader (buf b) (rd b) r' (w b) (err b) (lastByte b) (lastRuneSize b).

Definition with_err (b : Reader Src) (e : option error) : Reader Src :=
  mkReader (buf b) (rd b) (r b) (w b) e (lastByte b) (lastRuneSize b).

Definition with_last (b : Reader Src) (lb lrs : Z) : Reader Src :=
  mkReader (buf b) (rd b) (r b) (w b) (err b) lb lrs.

(** [NewReaderSize].  Its shortcut for an argument that already is a
    [*bufio.Reader] of sufficient size does not apply to the sources of this
    package ([*os.File], [*gzip.Reader]). *)
Definition NewReaderSize (src : Src) (size : nat) : Reader Src :=
  mkReader (repeat x00 (Nat.max size minReadBufferSize)) src 0 0 None (-1) (-1).

Definition NewReader (src : Src) : Reader Src := NewReaderSize src defaultBufSize.

Definition Buffered (b : Reader Src) : nat := w b - r b.

(** The first statement of [fill]: slide existing data to the beginning. *)
Definition slide (b : Reader Src) : Reader Src :=
  if 0 <? r b then
    mkReader (copy (buf b) (slice (buf b) (r b) (w b))) (rd b) 0 (w b - r b)
             (err b) (lastByte b) (lastRuneSize b)
  else b.

(** The read loop of [fill], [i] tries left. *)
Fixpoint fill_tries (i : nat) (b : Reader Src) : Reader Src :=
  match i with
  | 0 => with_err b (Some ErrNoProgress)
  | S i' =>
      let '(data, e, src') := Read (rd b) (length (buf b) - w b) in
      let b' := mkReader (write_at (buf b) (w b) data) src' (r b)
                         (w b + length data) (err b) (lastByte b)
                         (lastRuneSize b) in
      match e with
      | Some _ => with_err b' e
      | None => if 0 <? length data then b' else fill_tries i' b'
      end
  end.

(** [fill] panics on a full buffer; every caller tests
    [Buffered() < len(buf)] first, see [fill_never_full]. *)
Definition fill (b : Reader Src) : Reader Src :=
  fill_tries maxConsecutiveEmptyReads (slide b).

Definition isNil (e : option error) : bool :=
  match e with None => true | Some _ => false end.

(** *** Peek *)

Definition peekWanted (n : nat) (b : Reader Src) : bool :=
  (Buffered b <? n) && (Buffered b <? length (buf b)) && isNil (err b).

Fixpoint peek_fill (fuel n : nat) (b : Reader Src) : Reader Src :=
  if peekWanted n b then
    match fuel with
    | 0 => b
    | S fuel' => peek_fill fuel' n (fill b)
    end
  else b.

(** [Peek(n)] for [n >= 0] (the package peeks 512 bytes). *)
Definition Peek (b0 : Reader Src) (n : nat) : list byte * option error * Reader Src :=
  let b := with_last b0 (-1) (-1) in
  let b := peek_fill (S (length (buf b))) n b in
  if length (buf b) <? n then
    (slice (buf b) (r b) (w b), Some ErrBufferFull, b)
  else
    let avail := w b - r b in
    if avail <? n then
      let e := match err b with Some e => e | None => ErrBufferFull end in
      (slice (buf b) (r b) (r b + avail), Some e, with_err b None)
    else (slice (buf b) (r b) (r b + n), None, b).

(** *** ReadRune and UnreadRune *)

Definition runeWanted (b : Reader Src) : bool :=
  (w b <? r b + utf8.UTFMax)
  && negb (utf8.FullRune (slice (buf b) (r b) (w b)))
  && isNil (err b)
  && (w b - r b <? length (buf b)).

Fixpoint readRune_fill (fuel : nat) (b : Reader Src) : Reader Src :=
  if runeWanted b then
    match fuel with
    | 0 => b
    | S fuel' => readRune_fill fuel' (fill b)
    end
  else b.

Definition ReadRune (b0 : Reader Src) : Z * nat * option error * Reader Src :=
  let b := readRune_fill (S (length (buf b0))) b0 in
  let b := with_last b (lastByte b) (-1) in
  if r b =? w b then (0%Z, 0, err b, with_err b None)
  else
    let c0 := utf8.byteZ (nth (r b) (buf b) x00) in
    let '(c, size) :=
      if (c0 <? utf8.RuneSelf)%Z then (c0, 1)
      else utf8.DecodeRune (slice (buf b) (r b) (w b)) in
    let r' := r b + size in
    (c, size, None,
     mkReader (buf b) (rd b) r' (w b) (err b)
              (utf8.byteZ (nth (r' - 1) (buf b) x00)) (Z.of_nat size)).

Definition UnreadRune (b : Reader Src) : option error * Reader Src :=
  if ((lastRuneSize b <? 0)%Z || (Z.of_nat (r b) <? lastRuneSize b)%Z)%bool
  then (Some ErrInvalidUnreadRune, b)
  else (None,
        mkReader (buf b) (rd b) (r b - Z.to_nat (lastRuneSize b)) (w b)
                 (err b) (-1) (-1)).

(** *** ReadSlice *)

(** The loop of [ReadSlice]; [s] is the search start index.  [None] stands
    for a loop that is still running when the counter is used up. *)
Fixpoint readSlice_loop (fuel : nat) (delim : byte) (s : nat) (b : Reader Src)
  : option (list byte * option error * Reader Src) :=
  match IndexByte (slice (buf b) (r b + s) (w b)) delim with
  | Some i =>
      let i := i + s in
      Some (slice (buf b) (r b) (r b + i + 1), None, with_r b (r b + i + 1))
  | None =>
      match err b with
      | Some e =>
          Some (slice (buf b) (r b) (w b), Some e,
                with_err (with_r b (w b)) None)
      | None =>
          if length (buf b) <=? Buffered b then
            Some (buf b, Some ErrBufferFull, with_r b (w b))
          else
            match fuel with
            | 0 => None
            | S fuel' =>
                readSlice_loop fuel' delim (w b - r b) (fill b)
            end
      end
  end.

(** The tail of [ReadSlice]: handle last byte, if any. *)
Definition noteLastByte (line : list byte) (b : Reader Src) : Reader Src :=
  match line with
  | [] => b
  | _ => with_last b (utf8.byteZ (last line x00)) (-1)
  end.

(** The last case is never taken, see [ReadSlice_returns]. *)
Definition ReadSlice (b : Reader Src) (delim : byte)
  : list byte * option error * Reader Src :=
  match readSlice_loop (S (length (buf b))) delim 0 b with
  | Some (line, e, b') => (line, e, noteLastByte line b')
  | None => ([], Some ErrNoProgress, b)
  end.

(** *** ReadString *)

(** The loop of [ReadBytes]: [ReadSlice] until the delimiter or an error
    other than [ErrBufferFull], accumulating the full buffers. *)
Fixpoint collect (fuel : nat) (delim : byte) (full : list byte) (b : Reader Src)
  : option (list byte * option error * Reader Src) :=
  let '(frag, e, b') := ReadSlice b delim in
  match e with
  | None => Some (full ++ frag, None, b')
  | Some ErrBufferFull =>
      match fuel with
      | 0 => None
      | S fuel' => collect fuel' delim (full ++ frag) b'
      end
  | Some e' => Some (full ++ frag, Some e', b')
  end.

(** The last case is never taken, see [ReadString_returns] and
    [collect_file_returns]. *)
Definition ReadString (b : Reader Src) (delim : byte)
  : list byte * option error * Reader Src :=
  match collect (Buffered b + limit (rd b)) delim [] b with
  | Some res => res
  | None => ([], Some ErrNoProgress, b)
  end.

End Methods.

End bufio.

(** ** path/filepath *)

Module filepath.

(** [os.IsPathSeparator] on the Unix targets of dgraph. *)
Definition IsPathSeparator (c : ascii) : bool := Ascii.eqb c "/"%char.

(** The loop of [Ext], from the last character towards the first; [suffix]
    is [path[i+1:]]. *)
Fixpoint ext_scan (rev_path : list ascii) (suffix : string) : string :=
  match rev_path with
  | [] => EmptyString
  | c :: rest =>
      if IsPathSeparator c then EmptyString
      else if Ascii.eqb c "."%char then String c suffix
      else ext_scan rest (String c suffix)
  end.

Definition Ext (path : string) : string :=
  ext_scan (rev (list_ascii_of_string path)) EmptyString.

End filepath.

(** ** Package chunk *)

Module chunk.

(** [chunk.Reader] wraps a [bufio.Reader] to hold additional information
    about the file being read. *)
Record Reader (Src : Type) : Type := mkReader {
  rd : bufio.Reader Src;
  offset : Z;            (* start of file is at offset 0 *)
  line : Z;              (* first line is number 0 *)
  compressed : bool;
  filename : string;
  (* these are used to handle UnreadRune *)
  prevOffset : Z;
  prevLine : Z
}.

Section ReadPrimitives.

Context {Src : Type} `{IoReader Src}.

Definition Offset (r : Reader Src) : Z := offset r.

Definition LineCount (r : Reader Src) : Z := line r.

(** The loop [for _, b := range slc { if b == '\n' { r.line++ } }]. *)
Definition countLines (slc : list byte) (line0 : Z) : Z :=
  fold_left (fun l b => if Byte.eqb b newline then GoInt.add l 1 else l)
            slc line0.

Definition ReadSlice (r : Reader Src) (delim : byte)
  : list byte * option error * Reader Src :=
  let '(slc, err, rd') := bufio.ReadSlice (rd r) delim in
  (slc, err,
   mkReader rd'
            (GoInt.add (offset r) (GoInt.len slc))
            (countLines slc (line r))
            (compressed r) (filename r)
            (offset r) (line r)).

Definition ReadString (r : Reader Src) (delim : byte)
  : list byte * option error * Reader Src :=
  let '(str, err, rd') := bufio.ReadString (rd r) delim in
  (str, err,
   mkReader rd'
            (GoInt.add (offset r) (GoInt.len str))
            (GoInt.add (line r) (Z.of_nat (countByte newline str)))
            (compressed r) (filename r)
            (offset r) (line r)).

Definition ReadRune (r : Reader Src) : Z * nat * option error * Reader Src :=
  let '(char, size, err, rd') := bufio.ReadRune (rd r) in
  (char, size, err,
   mkReader rd'
            (GoInt.add (offset r) (Z.of_nat size))
            (if (char =? utf8.byteZ newline)%Z then GoInt.add (line r) 1
             else line r)
            (compressed r) (filename r)
            (offset r) (line r)).

Definition UnreadRune (r : Reader Src) : option error * Reader Src :=
  let '(err, rd') := bufio.UnreadRune (rd r) in
  (err,
   mkReader rd' (prevOffset r) (prevLine r) (compressed r) (filename r) 0 0).

End ReadPrimitives.

(** *** Construction *)

(** The [io.Reader] handed to [gzip.NewReader]: the raw file, or the
    buffered reader that was used for sniffing. *)
Inductive gzipInput : Type :=
| RawFile (f : os.File)
| Sniffed (b : bufio.Reader os.File).

(** The statements of a cleanup closure. *)
Inductive closeCall : Type :=
| CloseFile     (* f.Close() *)
| CloseGzip.    (* gzr.Close() *)

(** How the process is stopped by the checks of package [x]. *)
Inductive fatal : Type :=
| FatalWithTrace (e : error)
| FatalNoTrace (e : error).

(** What [newReader] hands back: a reader over the file, a reader over a
    gzip stream, a reader whose [rd] was left nil, or no return at all. *)
Inductive opened (Gz : Type) : Type :=
| Plain (r : Reader os.File) (cleanup : list closeCall)
| Gunzip (r : Reader Gz) (cleanup : list closeCall)
| NilStream (name : string) (cleanup : list closeCall)
| Fatal (how : fatal).

Arguments Plain {Gz}.
Arguments Gunzip {Gz}.
Arguments NilStream {Gz}.
Arguments Fatal {Gz}.

(** Modelled from the spec: [x.Check] of package [x], which is not part of
    the sources at hand.  "Failure to open is a fatal error for the caller
    (propagated, not recovered internally)". *)
Definition Check (err : option error) : option fatal :=
  match err with
  | Some e => Some (FatalWithTrace e)
  | None => None
  end.

(** Modelled from the spec: [x.CheckfNoTrace] of package [x], which is not
    part of the sources at hand.  A decompression-initialisation failure is
    "immediately fatal, reported without a full diagnostic trace". *)
Definition CheckfNoTrace (err : option error) : option fatal :=
  match err with
  | Some e => Some (FatalNoTrace e)
  | None => None
  end.

Definition gzipType : string := "application/x-gzip".

Section Construction.

(** [http.DetectContentType] and package [compress/gzip] are taken as
    given: the type of gzip readers, how they read, and [gzip.NewReader]
    with its error. *)
Variable DetectContentType : list byte -> string.
Variable GzReader : Type.
Context `{IoReader GzReader}.
Variable gzip_NewReader : gzipInput -> GzReader + error.

Definition fresh {Src : Type} (name : string) (b : bufio.Reader Src)
  (isCompressed : bool) : Reader Src :=
  mkReader b 0 0 isCompressed name 0 0.

Definition newReader (f : os.File) : opened GzReader :=
  let name := os.Name f in
  (* rd.rd and gzf after the if statement *)
  let '(rd_rd, gzf) :=
    if String.eqb (filepath.Ext name) ".gz" then (None, Some (RawFile f))
    else
      let b := bufio.NewReader f in
      let '(buf, _, b) := bufio.Peek b 512 in
      let typ := DetectContentType buf in
      if String.eqb typ gzipType then (Some b, Some (Sniffed b))
      else (Some b, None) in
  match gzf with
  | Some src =>
      match gzip_NewReader src with
      | inr err =>
          match CheckfNoTrace (Some err) with
          | Some how => Fatal how
          | None => (* not reached: the check does not return *)
              NilStream name [CloseFile; CloseGzip]
          end
      | inl gzr =>
          match CheckfNoTrace None with
          | Some how => Fatal how
          | None => Gunzip (fresh name (bufio.NewReader gzr) true)
                           [CloseFile; CloseGzip]
          end
      end
  | None =>
      match rd_rd with
      | Some b => Plain (fresh name b false) [CloseFile]
      | None => NilStream name [CloseFile]
      end
  end.

(** [NewReader], over a file system [fs] and the content of standard
    input. *)
Definition NewReader (fs : string -> option (list byte)) (stdin : list byte)
  (file : string) : opened GzReader :=
  if String.eqb file "-" then newReader (os.mkFile "/dev/stdin" stdin)
  else
    match fs file with
    | Some content => newReader (os.mkFile file content)
    | None =>
        match Check (Some (ErrOther "open: no such file or directory")) with
        | Some how => Fatal how
        | None => (* not reached: the check does not return *)
            NilStream file []
        end
    end.

End Construction.

End chunk.

(** ** A concrete stand-in for the library parameters

    Used to run the construction routine on concrete files: the sniffer
    recognises the gzip magic number, and the stand-in decoder reads the
    ten bytes of the fixed gzip header the way [gzip.NewReader] does.  It
    stands for headers without optional fields, and it does not inflate:
    its reader hands out the bytes after the header as they are. *)

Module Standin.

Definition magic : list byte := [x1f; x8b; x08].

Fixpoint hasPrefix (p s : list byte) : bool :=
  match p, s with
  | [], _ => true
  | _ :: _, [] => false
  | a :: p', b :: s' => Byte.eqb a b && hasPrefix p' s'
  end.

Definition DetectContentType (buf : list byte) : string :=
  if hasPrefix magic buf then chunk.gzipType else "application/octet-stream".

(** The stand-in decoder keeps the bytes that follow the ten header
    bytes. *)
Record GzReader : Type := mkGz { body : list byte }.

Definition gzRead (z : GzReader) (k : nat) : list byte * option error * GzReader :=
  match k with
  | 0 => ([], None, z)
  | _ =>
      match body z with
      | [] => ([], Some EOF, z)
      | _ => (firstn k (body z), None, mkGz (skipn k (body z)))
      end
  end.

#[global] Instance Gz_IoReader : IoReader GzReader := {
  Read := gzRead;
  limit z := length (body z)
}.

Definition inputBytes (src : chunk.gzipInput) : list byte :=
  match src with
  | chunk.RawFile f => os.unread f
  | chunk.Sniffed b =>
      slice (bufio.buf b) (bufio.r b) (bufio.w b) ++ os.unread (bufio.rd b)
  end.

(** [io.ErrUnexpectedEOF] and [gzip.ErrHeader], by their messages. *)
Definition ErrUnexpectedEOF : error := ErrOther "unexpected EOF".
Definition ErrHeader : error := ErrOther "gzip: invalid header".

(** [io.ReadFull] of the ten header bytes gives [io.EOF] on an empty
    input and [io.ErrUnexpectedEOF] on a shorter one; then the magic
    number and the method are checked. *)
Definition gzip_NewReader (src : chunk.gzipInput) : GzReader + error :=
  let input := inputBytes src in
  match input with
  | [] => inr EOF
  | _ :: _ =>
      if length input <? 10 then inr ErrUnexpectedEOF
      else if hasPrefix magic input then inl (mkGz (skipn 10 input))
      else inr ErrHeader
  end.

Definition newReader : os.File -> chunk.opened GzReader :=
  chunk.newReader DetectContentType gzip_NewReader.

(** A source that reports [io.EOF] together with its last bytes, which
    [io.Reader] allows, where a file reports it on the call after. *)
Record Eager : Type := mkEager { remaining : list byte }.

Definition eagerRead (z : Eager) (k : nat) : list byte * option error * Eager :=
  match k with
  | 0 => ([], None, z)
  | _ =>
      match remaining z with
      | [] => ([], Some EOF, z)
      | _ =>
          let rest := skipn k (remaining z) in
          (firstn k (remaining z),
           match rest with [] => Some EOF | _ => None end,
           mkEager rest)
      end
  end.

#[global] Instance Eager_IoReader : IoReader Eager := {
  Read := eagerRead;
  limit z := length (remaining z)
}.

End Standin.


(** ** Callers

    Sequences of calls, as a client of the package issues them. *)

Module Calls.

Section Calls.

Context {Src : Type} `{IoReader Src}.

(** The read primitives. *)
Inductive readCall : Type :=
| CallReadSlice (delim : byte)
| CallReadString (delim : byte)
| CallReadRune.

(** One call: the number of bytes it yields to the caller, the number of
    newlines among them as the reader counts them, and the reader
    afterwards. *)
Definition perform (r : chunk.Reader Src) (c : readCall)
  : nat * nat * chunk.Reader Src :=
  match c with
  | CallReadSlice delim =>
      let '(slc, _, r') := chunk.ReadSlice r delim in
      (length slc, countByte newline slc, r')
  | CallReadString delim =>
      let '(str, _, r') := chunk.ReadString r delim in
      (length str, countByte newline str, r')
  | CallReadRune =>
      let '(char, size, _, r') := chunk.ReadRune r in
      (size, if (char =? utf8.byteZ newline)%Z then 1 else 0, r')
  end.

(** A sequence of read calls: total bytes yielded, total newlines, final
    reader. *)
Fixpoint run (r : chunk.Reader Src) (calls : list readCall)
  : nat * nat * chunk.Reader Src :=
  match calls with
  | [] => (0, 0, r)
  | c :: calls' =>
      let '(n, l, r1) := perform r c in
      let '(n', l', r') := run r1 calls' in
      (n + n', l + l', r')
  end.

(** [n] calls of [ReadRune]: what each returned, and the final reader. *)
Fixpoint readRunes (n : nat) (r : chunk.Reader Src)
  : list (Z * nat * option error) * chunk.Reader Src :=
  match n with
  | 0 => ([], r)
  | S n' =>
      let '(char, size, err, r1) := chunk.ReadRune r in
      let '(rest, r') := readRunes n' r1 in
      ((char, size, err) :: rest, r')
  end.

Definition widths (res : list (Z * nat * option error)) : nat :=
  fold_right (fun x acc => snd (fst x) + acc) 0 res.

Definition newlinesReturned (res : list (Z * nat * option error)) : nat :=
  fold_right
    (fun x acc => (if (fst (fst x) =? utf8.byteZ newline)%Z then 1 else 0) + acc)
    0 res.

Definition succeeded (res : list (Z * nat * option error)) : Prop :=
  Forall (fun x => snd x = None) res.

(** The reader after [n] calls of [ReadSlice], resp. [ReadString]. *)
Fixpoint afterReadSlice (n : nat) (delim : byte) (r : chunk.Reader Src)
  : chunk.Reader Src :=
  match n with
  | 0 => r
  | S n' => afterReadSlice n' delim (snd (chunk.ReadSlice r delim))
  end.

Fixpoint afterReadString (n : nat) (delim : byte) (r : chunk.Reader Src)
  : chunk.Reader Src :=
  match n with
  | 0 => r
  | S n' => afterReadString n' delim (snd (chunk.ReadString r delim))
  end.

(** Any call of the package, and the reader it leaves behind. *)
Inductive anyCall : Type :=
| DoRead (c : readCall)
| DoUnreadRune.

Definition after (r : chunk.Reader Src) (c : anyCall) : chunk.Reader Src :=
  match c with
  | DoRead c' => snd (perform r c')
  | DoUnreadRune => snd (chunk.UnreadRune r)
  end.

Definition afterAll (r : chunk.Reader Src) (calls : list anyCall)
  : chunk.Reader Src :=
  fold_left after calls r.

End Calls.

End Calls.

(** ** Well-formed buffered readers over a file *)

Module Inv.

(** The bytes a buffered reader over a file has not handed out yet: what
    is buffered, then what the file still holds. *)
Definition pending (b : bufio.Reader os.File) : list byte :=
  slice (bufio.buf b) (bufio.r b) (bufio.w b) ++ os.unread (bufio.rd b).

(** The positions lie in the buffer, and a recorded error is the end of
    the file. *)
Definition wf (b : bufio.Reader os.File) : Prop :=
  bufio.r b <= bufio.w b
  /\ bufio.w b <= length (bufio.buf b)
  /\ 0 < length (bufio.buf b)
  /\ (bufio.err b = None
      \/ (bufio.err b = Some EOF /\ os.unread (bufio.rd b) = [])).

(** The quantity that every round of a fill loop decreases. *)
Definition room {Src : Type} (b : bufio.Reader Src) : nat :=
  (length (bufio.buf b) - bufio.Buffered b)
  + (if bufio.isNil (bufio.err b) then 1 else 0).

(** The buffered reader as [UnreadRune] leaves it after a successful
    [ReadRune] of width [size]. *)
Definition pushedBack {Src : Type} (b : bufio.Reader Src) (size : nat)
  : bufio.Reader Src :=
  bufio.mkReader (bufio.buf b) (bufio.rd b) (bufio.r b - size) (bufio.w b)
                 (bufio.err b) (-1) (-1).

(** What the error returned by [ReadSlice] over a file tells about the
    line and about what is left of the stream: without an error the line
    contains the delimiter, with [io.EOF] nothing is left, and with
    [ErrBufferFull] the line is a whole buffer. *)
Definition outcome (delim : byte) (line : list byte) (e : option error)
  (size : nat) (rest : list byte) : Prop :=
  match e with
  | None => In delim line
  | Some EOF => rest = []
  | Some ErrBufferFull => length line = size
  | Some _ => False
  end.

(** The same for [ReadString], which never reports a full buffer. *)
Definition outcomeString (delim : byte) (str : list byte) (e : option error)
  (rest : list byte) : Prop :=
  match e with
  | None => In delim str
  | Some EOF => rest = []
  | Some _ => False
  end.

(** The buffered reader over the raw file after the sniffing peek of
    [newReader], and the bytes that peek returned. *)
Definition peeked (f : os.File) : bufio.Reader os.File :=
  snd (bufio.Peek (bufio.NewReader f) 512).

Definition sniffedBytes (f : os.File) : list byte :=
  fst (fst (bufio.Peek (bufio.NewReader f) 512)).

(** For any source: the positions lie in the buffer, and the recorded
    error is not bufio's own [ErrBufferFull]. *)
Definition inBounds {Src : Type} (b : bufio.Reader Src) : Prop :=
  bufio.r b <= bufio.w b
  /\ bufio.w b <= length (bufio.buf b)
  /\ 0 < length (bufio.buf b)
  /\ bufio.err b <> Some ErrBufferFull.

(** The bytes a buffered reader can still hand out, at most. *)
Definition budget {Src : Type} `{IoReader Src} (b : bufio.Reader Src) : nat :=
  bufio.Buffered b + limit (bufio.rd b).

(** The shape of what [ReadSlice] and [ReadString] return: without an
    error, a line that ends in the delimiter and has no other; with an
    error, bytes without any delimiter. *)
Definition lineShape (delim : byte) (line : list byte) (e : option error)
  : Prop :=
  match e with
  | None => exists pre, line = pre ++ [delim] /\ ~ In delim pre
  | Some _ => ~ In delim line
  end.

(** Over a file the end is recorded late: [fill] finds it, and [fill] runs
    on a buffer that is not full.  So while an error is recorded the
    buffer is not full, also once the last rune is pushed back. *)
Definition eofLate (b : bufio.Reader os.File) : Prop :=
  bufio.err b <> None ->
  bufio.Buffered b < length (bufio.buf b)
  /\ bufio.Buffered (snd (bufio.UnreadRune b)) < length (bufio.buf b).

End Inv.

(** ** Concrete inputs *)

Module Examples.

(** The three lines "a", "bb", "ccc", the last one without a newline. *)
Definition threeLines : list byte :=
  [x61; x0a; x62; x62; x0a; x63; x63; x63].

Definition threeLinesFile : os.File := os.mkFile "data.rdf" threeLines.

(** The same text under a name that ends in [.gz]. *)
Definition misnamedFile : os.File := os.mkFile "data.rdf.gz" threeLines.

(** A plain reader over [content], as [newReader] builds it. *)
Definition plainReader (name : string) (content : list byte)
  : chunk.Reader os.File :=
  chunk.fresh name (Inv.peeked (os.mkFile name content)) false.

(** As many bytes 'x' as the buffer holds, and no newline. *)
Definition bufferful : list byte := repeat x78 bufio.defaultBufSize.

Definition bufferfulFile : os.File := os.mkFile "data.rdf" bufferful.

(** "ab" *)
Definition twoLetters : list byte := [x61; x62].

(** "hello", newline, "world" *)
Definition helloWorld : list byte :=
  [x68; x65; x6c; x6c; x6f; x0a; x77; x6f; x72; x6c; x64].

Definition hello : list byte := [x68; x65; x6c; x6c; x6f].

Definition world : list byte := [x77; x6f; x72; x6c; x64].

(** A line longer than the buffer: a bufferful of 'x' and one 'y'. *)
Definition longLine : list byte := bufferful ++ [x79].

(** The long line, its newline, and "world". *)
Definition longLineThenWorld : list byte := longLine ++ x0a :: world.

(** U+00E9 (two bytes in UTF-8) and a newline. *)
Definition accented : list byte := [xc3; xa9; x0a].

End Examples.

(** * Properties *)

(** Split a conjunction into its parts, without unfolding definitions. *)
Ltac conjuncts := repeat match goal with |- _ /\ _ => split end.

(** ** Arithmetic of [int] *)

Module GoIntFacts.

Import GoInt.

Lemma wrap_inRange (z : Z) : inRange (wrap z).
Proof.
  unfold inRange, wrap, minInt, maxInt.
  pose proof (Z.mod_pos_bound (z + 2 ^ 63) (2 ^ 64) ltac:(lia)).
  lia.
Qed.

Lemma wrap_small (z : Z) : inRange z -> wrap z = z.
Proof.
  unfold inRange, wrap, minInt, maxInt. intros Hz.
  rewrite Z.mod_small by lia. lia.
Qed.

Lemma wrap_wrap_add (a b : Z) : wrap (wrap a + b) = wrap (a + b).
Proof.
  unfold wrap.
  replace ((a + 2 ^ 63) mod 2 ^ 64 - 2 ^ 63 + b + 2 ^ 63)%Z
    with ((a + 2 ^ 63) mod 2 ^ 64 + b)%Z by lia.
  rewrite Zplus_mod_idemp_l.
  replace (a + 2 ^ 63 + b)%Z with (a + b + 2 ^ 63)%Z by lia.
  reflexivity.
Qed.

Lemma wrap_idem (a : Z) : wrap (wrap a) = wrap a.
Proof. apply wrap_small, wrap_inRange. Qed.

Lemma add_wrap_l (a b : Z) : add (wrap a) b = wrap (a + b).
Proof. unfold add. apply wrap_wrap_add. Qed.

Lemma add_0_inRange (a : Z) : inRange a -> add a 0 = a.
Proof. intros Ha. unfold add. rewrite Z.add_0_r. now apply wrap_small. Qed.

Lemma inRange_0 : inRange 0.
Proof. unfold inRange, minInt, maxInt. lia. Qed.

End GoIntFacts.

(** ** Lists and slices *)

Section SliceFacts.

Context {A : Type}.

Lemma copy_length (dst src : list A) : length (copy dst src) = length dst.
Proof.
  unfold copy. rewrite length_app, length_firstn, length_skipn. lia.
Qed.

Lemma write_at_length (buf : list A) (at_ : nat) (data : list A) :
  length (write_at buf at_ data) = length buf.
Proof.
  unfold write_at.
  rewrite length_app, length_firstn, copy_length, length_skipn. lia.
Qed.

Lemma slice_length (s : list A) (i j : nat) :
  j <= length s -> length (slice s i j) = j - i.
Proof.
  intros Hj. unfold slice. rewrite length_firstn, length_skipn. lia.
Qed.

Lemma slice_nil (s : list A) (i j : nat) : j <= i -> slice s i j = [].
Proof.
  intros Hji. unfold slice. replace (j - i) with 0 by lia. reflexivity.
Qed.

Lemma slice_full (s : list A) : slice s 0 (length s) = s.
Proof. unfold slice. simpl. rewrite Nat.sub_0_r. apply firstn_all. Qed.

Lemma firstn_plus (a b : nat) (s : list A) :
  firstn (a + b) s = firstn a s ++ firstn b (skipn a s).
Proof.
  revert s. induction a as [|a IH]; intros s; simpl; [reflexivity|].
  destruct s as [|x s]; simpl.
  - now rewrite firstn_nil.
  - now rewrite IH.
Qed.

Lemma firstn_exact (s t : list A) : firstn (length s) (s ++ t) = s.
Proof.
  rewrite <- (Nat.add_0_r (length s)), firstn_app_2. simpl.
  apply app_nil_r.
Qed.

(** [s[i:k]] is [s[i:j]] followed by [s[j:k]]. *)
Lemma slice_split (s : list A) (i j k : nat) :
  i <= j -> j <= k -> slice s i k = slice s i j ++ slice s j k.
Proof.
  intros Hij Hjk. unfold slice.
  replace (k - i) with ((j - i) + (k - j)) by lia.
  rewrite firstn_plus, skipn_skipn.
  replace (j - i + i) with j by lia. reflexivity.
Qed.

End SliceFacts.

(** ** bufio.Reader: the loops terminate *)

Module bufioFacts.

Import bufio.
Import Inv.

Section Termination.

Context {Src : Type} `{IoReader Src}.

Implicit Type b : Reader Src.

Lemma fill_tries_facts (i : nat) b :
  let b' := fill_tries i b in
  length (buf b') = length (buf b)
  /\ r b' = r b
  /\ lastRuneSize b' = lastRuneSize b
  /\ w b <= w b'
  /\ (err b' <> None \/ w b < w b').
Proof.
  revert b. induction i as [|i IH]; intros b; simpl.
  - repeat split; auto. left. discriminate.
  - destruct (Read (rd b) (length (buf b) - w b)) as [[data e] src'] eqn:ERead.
    destruct e as [e|].
    + simpl. rewrite write_at_length.
      repeat split; auto; [lia | left; discriminate].
    + destruct (0 <? length data) eqn:Hlen.
      * apply Nat.ltb_lt in Hlen. simpl. rewrite write_at_length.
        repeat split; auto; [lia | right; lia].
      * apply Nat.ltb_ge in Hlen.
        match goal with |- context [fill_tries i ?x] => specialize (IH x) end.
        simpl in IH. rewrite write_at_length in IH.
        destruct IH as (H1 & H2 & H3 & H4 & H5).
        repeat split; auto; [lia|].
        destruct H5 as [H5|H5]; [now left | right; lia].
Qed.

Lemma slide_facts b :
  length (buf (slide b)) = length (buf b)
  /\ r (slide b) = 0
  /\ w (slide b) = w b - r b
  /\ err (slide b) = err b
  /\ lastRuneSize (slide b) = lastRuneSize b.
Proof.
  unfold slide. destruct (0 <? r b) eqn:Hr; simpl.
  - rewrite copy_length. repeat split; auto.
  - apply Nat.ltb_ge in Hr. repeat split; auto; lia.
Qed.

Lemma fill_facts b :
  length (buf (fill b)) = length (buf b)
  /\ r (fill b) = 0
  /\ lastRuneSize (fill b) = lastRuneSize b
  /\ Buffered b <= Buffered (fill b)
  /\ (err (fill b) <> None \/ Buffered b < Buffered (fill b)).
Proof.
  unfold fill, Buffered.
  destruct (slide_facts b) as (S1 & S2 & S3 & S4 & S5).
  destruct (fill_tries_facts maxConsecutiveEmptyReads (slide b))
    as (F1 & F2 & F3 & F4 & F5).
  rewrite F1, F2, F3, S1, S2, S5.
  repeat split; auto; try lia.
  destruct F5 as [F5|F5]; [now left | right; lia].
Qed.

(** [fill] is never entered with a full buffer: each caller has tested
    [Buffered() < len(buf)], and after sliding [w] is what was buffered. *)
Lemma fill_never_full b :
  Buffered b < length (buf b) -> w (slide b) < length (buf (slide b)).
Proof.
  intros Hb. destruct (slide_facts b) as (S1 & S2 & S3 & _).
  rewrite S1, S3. exact Hb.
Qed.

Lemma room_bound b : room b <= S (length (buf b)).
Proof. unfold room. destruct (isNil (err b)); lia. Qed.

Lemma fill_room b :
  err b = None -> Buffered b < length (buf b) -> room (fill b) < room b.
Proof.
  intros He Hb. unfold room.
  destruct (fill_facts b) as (F1 & _ & _ & F4 & F5).
  rewrite F1, He. simpl.
  destruct F5 as [F5|F5].
  - destruct (err (fill b)); [simpl; lia | congruence].
  - destruct (isNil (err (fill b))); lia.
Qed.

Lemma peekWanted_inv (n : nat) b :
  peekWanted n b = true -> err b = None /\ Buffered b < length (buf b).
Proof.
  unfold peekWanted. intros Hc.
  apply andb_prop in Hc. destruct Hc as [Hc He].
  apply andb_prop in Hc. destruct Hc as [_ Hc].
  apply Nat.ltb_lt in Hc. destruct (err b); [discriminate | auto].
Qed.

Lemma runeWanted_inv b :
  runeWanted b = true -> err b = None /\ Buffered b < length (buf b).
Proof.
  unfold runeWanted. intros Hc.
  apply andb_prop in Hc. destruct Hc as [Hc Hl].
  apply andb_prop in Hc. destruct Hc as [_ He].
  apply Nat.ltb_lt in Hl. destruct (err b); [discriminate | auto].
Qed.

Lemma peek_fill_length (fuel n : nat) b :
  length (buf (peek_fill fuel n b)) = length (buf b).
Proof.
  revert b. induction fuel as [|fuel IH]; intros b; simpl;
    destruct (peekWanted n b); auto.
  rewrite IH. apply fill_facts.
Qed.

Lemma readRune_fill_length (fuel : nat) b :
  length (buf (readRune_fill fuel b)) = length (buf b).
Proof.
  revert b. induction fuel as [|fuel IH]; intros b; simpl;
    destruct (runeWanted b); auto.
  rewrite IH. apply fill_facts.
Qed.

(** The loop of [Peek] has come to its end when [peek_fill] returns. *)
Lemma peek_fill_done (fuel n : nat) b :
  room b <= fuel -> peekWanted n (peek_fill fuel n b) = false.
Proof.
  revert b. induction fuel as [|fuel IH]; intros b Hroom; simpl;
    destruct (peekWanted n b) eqn:Hc; auto.
  - apply peekWanted_inv in Hc. destruct Hc as [He Hb].
    unfold room in Hroom. rewrite He in Hroom. simpl in Hroom. lia.
  - apply IH. apply peekWanted_inv in Hc. destruct Hc as [He Hb].
    pose proof (fill_room b He Hb). lia.
Qed.

(** The loop of [ReadRune] has come to its end when [readRune_fill]
    returns. *)
Lemma readRune_fill_done (fuel : nat) b :
  room b <= fuel -> runeWanted (readRune_fill fuel b) = false.
Proof.
  revert b. induction fuel as [|fuel IH]; intros b Hroom; simpl;
    destruct (runeWanted b) eqn:Hc; auto.
  - apply runeWanted_inv in Hc. destruct Hc as [He Hb].
    unfold room in Hroom. rewrite He in Hroom. simpl in Hroom. lia.
  - apply IH. apply runeWanted_inv in Hc. destruct Hc as [He Hb].
    pose proof (fill_room b He Hb). lia.
Qed.

(** The loop of [ReadSlice] returns within the counter. *)
Lemma readSlice_loop_returns (fuel : nat) (delim : byte) (s : nat) b :
  room b <= fuel -> readSlice_loop fuel delim s b <> None.
Proof.
  revert s b. induction fuel as [|fuel IH]; intros s b Hroom; simpl.
  - destruct (IndexByte _ _); [discriminate|].
    destruct (err b) eqn:He; [discriminate|].
    destruct (length (buf b) <=? Buffered b) eqn:Hfull; [discriminate|].
    apply Nat.leb_gt in Hfull.
    unfold room in Hroom. rewrite He in Hroom. simpl in Hroom. lia.
  - destruct (IndexByte _ _); [discriminate|].
    destruct (err b) eqn:He; [discriminate|].
    destruct (length (buf b) <=? Buffered b) eqn:Hfull; [discriminate|].
    apply Nat.leb_gt in Hfull.
    apply IH. pose proof (fill_room b He Hfull). lia.
Qed.

Lemma ReadSlice_returns (delim : byte) b :
  readSlice_loop (S (length (buf b))) delim 0 b <> None.
Proof. apply readSlice_loop_returns, room_bound. Qed.

End Termination.

End bufioFacts.

(** ** bufio.Reader: pushing a rune back *)

Module bufioUnread.

Import bufio.
Import Inv.

Section Unread.

Context {Src : Type} `{IoReader Src}.

Implicit Type b : Reader Src.

Lemma runeWanted_ext b b' :
  buf b' = buf b -> r b' = r b -> w b' = w b -> err b' = err b ->
  runeWanted b' = runeWanted b.
Proof.
  intros Hb Hr Hw He. unfold runeWanted. now rewrite Hb, Hr, Hw, He.
Qed.

Lemma readRune_fill_stop (fuel : nat) b :
  runeWanted b = false -> readRune_fill fuel b = b.
Proof. intros Hc. destruct fuel; simpl; now rewrite Hc. Qed.

(** A rune that was read can be pushed back, and is then read again. *)
Lemma ReadRune_UnreadRune b (c : Z) (size : nat) b1 :
  0 < length (buf b) ->
  ReadRune b = (c, size, None, b1) ->
  UnreadRune b1 = (None, pushedBack b1 size)
  /\ exists b3, ReadRune (pushedBack b1 size) = (c, size, None, b3).
Proof.
  intros Hlen Hread. unfold ReadRune in Hread.
  set (bx := readRune_fill (S (length (buf b))) b) in *.
  assert (Hdone : runeWanted bx = false)
    by (apply bufioFacts.readRune_fill_done, bufioFacts.room_bound).
  assert (Hlenx : length (buf bx) = length (buf b))
    by apply bufioFacts.readRune_fill_length.
  cbn [with_last r w buf rd err lastByte lastRuneSize] in Hread.
  destruct (r bx =? w bx) eqn:Hrw.
  - (* nothing buffered: the loop ended on an error *)
    exfalso. apply Nat.eqb_eq in Hrw.
    injection Hread as _ _ Herr _.
    unfold runeWanted in Hdone. rewrite Herr, Hrw in Hdone.
    rewrite (slice_nil (buf bx) (i:=w bx) (j:=w bx)) in Hdone by lia.
    simpl in Hdone. rewrite Nat.sub_diag, Hlenx in Hdone.
    assert (Hlt : (w bx <? w bx + utf8.UTFMax) = true)
      by (apply Nat.ltb_lt; unfold utf8.UTFMax; lia).
    assert (Hpos : (0 <? length (buf b)) = true) by now apply Nat.ltb_lt.
    rewrite Hlt, Hpos in Hdone. discriminate.
  - set (c0 := utf8.byteZ (nth (r bx) (buf bx) x00)) in *.
    destruct (if (c0 <? utf8.RuneSelf)%Z then (c0, 1)
              else utf8.DecodeRune (slice (buf bx) (r bx) (w bx)))
      as [c' size'] eqn:Hdec.
    injection Hread as Hc Hsize Hb1. subst c' size' b1.
    assert (Hun : UnreadRune
                    (mkReader (buf bx) (rd bx) (r bx + size) (w bx) (err bx)
                       (utf8.byteZ (nth (r bx + size - 1) (buf bx) x00))
                       (Z.of_nat size))
                  = (None, mkReader (buf bx) (rd bx) (r bx) (w bx) (err bx)
                             (-1) (-1))).
    { unfold UnreadRune. cbn [r w buf rd err lastByte lastRuneSize].
      rewrite (proj2 (Z.ltb_ge (Z.of_nat size) 0)) by lia.
      rewrite (proj2 (Z.ltb_ge (Z.of_nat (r bx + size)) (Z.of_nat size)))
        by lia.
      simpl. rewrite Nat2Z.id.
      replace (r bx + size - size) with (r bx) by lia. reflexivity. }
    unfold pushedBack. cbn [r w buf rd err lastByte lastRuneSize].
    replace (r bx + size - size) with (r bx) by lia.
    split; [exact Hun|].
    unfold ReadRune. cbn [buf].
    rewrite readRune_fill_stop
      by (rewrite <- Hdone; now apply runeWanted_ext).
    cbn [with_last r w buf rd err lastByte lastRuneSize].
    rewrite Hrw. fold c0. rewrite Hdec. eexists. reflexivity.
Qed.

(** [UnreadRune] fails when called twice in a row, whatever the first call
    did. *)
Lemma UnreadRune_twice b :
  fst (UnreadRune (snd (UnreadRune b))) = Some ErrInvalidUnreadRune.
Proof.
  unfold UnreadRune.
  destruct ((lastRuneSize b <? 0)%Z || (Z.of_nat (r b) <? lastRuneSize b)%Z)%bool
    eqn:Hc; cbn [snd].
  - rewrite Hc. reflexivity.
  - cbn [lastRuneSize r]. reflexivity.
Qed.

(** A failing [UnreadRune] leaves the buffered reader as it was. *)
Lemma UnreadRune_error b (e : error) :
  fst (UnreadRune b) = Some e ->
  e = ErrInvalidUnreadRune /\ snd (UnreadRune b) = b.
Proof.
  unfold UnreadRune.
  destruct ((lastRuneSize b <? 0)%Z || (Z.of_nat (r b) <? lastRuneSize b)%Z)%bool;
    cbn [fst snd]; intros He; [|discriminate].
  injection He as <-. auto.
Qed.

Lemma UnreadRune_invalid b :
  lastRuneSize b = (-1)%Z -> UnreadRune b = (Some ErrInvalidUnreadRune, b).
Proof. intros Hl. unfold UnreadRune. rewrite Hl. reflexivity. Qed.

(** *** [ReadSlice] and [ReadString] invalidate the rune *)

Lemma readSlice_loop_lastRuneSize (fuel : nat) (delim : byte) (s : nat) b
  line e b' :
  readSlice_loop fuel delim s b = Some (line, e, b') ->
  lastRuneSize b' = lastRuneSize b.
Proof.
  revert s b. induction fuel as [|fuel IH]; intros s b; simpl;
    destruct (IndexByte _ _);
    try (intros Hl; injection Hl as <- <- <-; reflexivity);
    destruct (err b);
    try (intros Hl; injection Hl as <- <- <-; reflexivity);
    destruct (length (buf b) <=? Buffered b);
    try (intros Hl; injection Hl as <- <- <-; reflexivity);
    try discriminate.
  intros Hl. apply IH in Hl. rewrite Hl. apply bufioFacts.fill_facts.
Qed.

Lemma ReadSlice_lastRuneSize (delim : byte) b line e b' :
  ReadSlice b delim = (line, e, b') ->
  (line <> [] -> lastRuneSize b' = (-1)%Z)
  /\ (line = [] -> lastRuneSize b' = lastRuneSize b).
Proof.
  unfold ReadSlice.
  destruct (readSlice_loop (S (length (buf b))) delim 0 b)
    as [[[line1 e1] b1]|] eqn:Hloop; intros Hres.
  - injection Hres as <- <- <-.
    apply readSlice_loop_lastRuneSize in Hloop.
    destruct line1; simpl; split; auto; congruence.
  - injection Hres as <- <- <-. split; congruence.
Qed.

Lemma collect_lastRuneSize (fuel : nat) (delim : byte) (full : list byte) b
  str e b' :
  collect fuel delim full b = Some (str, e, b') ->
  (full <> [] -> lastRuneSize b = (-1)%Z) ->
  str <> [] -> lastRuneSize b' = (-1)%Z.
Proof.
  revert full b. induction fuel as [|fuel IH]; intros full b; simpl;
    destruct (ReadSlice b delim) as [[frag e1] b1] eqn:HRS;
    pose proof (ReadSlice_lastRuneSize _ _ HRS) as [Hne Hnil];
    assert (Hkeep : (full <> [] -> lastRuneSize b = (-1)%Z) ->
                    full ++ frag <> [] -> lastRuneSize b1 = (-1)%Z)
      by (intros Hfull Happ; destruct frag as [|x frag];
          [ rewrite app_nil_r in Happ; rewrite Hnil by reflexivity; auto
          | apply Hne; discriminate ]);
    destruct e1 as [[| | | | |msg]|];
    try discriminate;
    try (intros Hres Hfull Hstr; injection Hres as <- <- <-; now apply Hkeep).
  intros Hres Hfull Hstr. eapply IH; eauto.
Qed.

Lemma ReadString_lastRuneSize (delim : byte) b str e b' :
  ReadString b delim = (str, e, b') ->
  str <> [] -> lastRuneSize b' = (-1)%Z.
Proof.
  unfold ReadString.
  destruct (collect (Buffered b + limit (rd b)) delim [] b)
    as [[[str1 e1] b1]|] eqn:Hc; intros Hres Hstr.
  - injection Hres as <- <- <-.
    eapply collect_lastRuneSize; eauto. congruence.
  - injection Hres as <- <- <-. congruence.
Qed.

End Unread.

End bufioUnread.

(** ** chunk.Reader: the counters *)

Module chunkCounters.

Import chunk.
Import Calls.
Import GoIntFacts.

Section Counters.

Context {Src : Type} `{IoReader Src}.

Implicit Type r : Reader Src.

Lemma countLines_wrap (slc : list byte) (a : Z) :
  countLines slc (GoInt.wrap a)
  = GoInt.wrap (a + Z.of_nat (countByte newline slc)).
Proof.
  unfold countLines. revert a.
  induction slc as [|x slc IH]; intros a; simpl.
  - now rewrite Z.add_0_r.
  - destruct (Byte.eqb x newline).
    + rewrite add_wrap_l, IH. f_equal. lia.
    + rewrite IH. reflexivity.
Qed.

Lemma countLines_nil (l : Z) : countLines [] l = l.
Proof. reflexivity. Qed.

(** One read call adds what it yields to both counters. *)
Lemma perform_counts r (c : readCall) (a l : Z) :
  offset r = GoInt.wrap a -> line r = GoInt.wrap l ->
  let '(n, k, r') := perform r c in
  offset r' = GoInt.wrap (a + Z.of_nat n)
  /\ line r' = GoInt.wrap (l + Z.of_nat k).
Proof.
  intros Ha Hl. destruct c as [delim|delim|]; simpl.
  - unfold ReadSlice.
    destruct (bufio.ReadSlice (rd r) delim) as [[slc e] rd'].
    cbn [offset line]. rewrite Ha, Hl, add_wrap_l, countLines_wrap.
    split; reflexivity.
  - unfold ReadString.
    destruct (bufio.ReadString (rd r) delim) as [[str e] rd'].
    cbn [offset line]. rewrite Ha, Hl, !add_wrap_l. split; reflexivity.
  - unfold ReadRune.
    destruct (bufio.ReadRune (rd r)) as [[[char size] e] rd'].
    cbn [offset line]. rewrite Ha, Hl, add_wrap_l.
    split; [reflexivity|].
    destruct (char =? utf8.byteZ newline)%Z.
    + now rewrite add_wrap_l.
    + now rewrite Z.add_0_r.
Qed.

Lemma run_counts (calls : list readCall) r (a l : Z) :
  offset r = GoInt.wrap a -> line r = GoInt.wrap l ->
  let '(n, k, r') := run r calls in
  offset r' = GoInt.wrap (a + Z.of_nat n)
  /\ line r' = GoInt.wrap (l + Z.of_nat k).
Proof.
  revert r a l. induction calls as [|c calls IH]; intros r a l Ha Hl; simpl.
  - now rewrite !Z.add_0_r.
  - pose proof (perform_counts r c a l Ha Hl) as Hc.
    destruct (perform r c) as [[n k] r1]. destruct Hc as [Ha1 Hl1].
    specialize (IH r1 _ _ Ha1 Hl1).
    destruct (run r1 calls) as [[n' k'] r']. destruct IH as [Ha' Hl'].
    rewrite Ha', Hl'. split; f_equal; lia.
Qed.

Lemma readRunes_counts (n : nat) r (a l : Z) :
  offset r = GoInt.wrap a -> line r = GoInt.wrap l ->
  let '(res, r') := readRunes n r in
  offset r' = GoInt.wrap (a + Z.of_nat (widths res))
  /\ line r' = GoInt.wrap (l + Z.of_nat (newlinesReturned res)).
Proof.
  revert r a l. induction n as [|n IH]; intros r a l Ha Hl; simpl.
  - now rewrite !Z.add_0_r.
  - pose proof (perform_counts r CallReadRune a l Ha Hl) as Hc.
    simpl in Hc.
    destruct (ReadRune r) as [[[char size] e] r1]. destruct Hc as [Ha1 Hl1].
    specialize (IH r1 _ _ Ha1 Hl1).
    destruct (readRunes n r1) as [res r']. destruct IH as [Ha' Hl'].
    rewrite Ha', Hl'. unfold widths, newlinesReturned. simpl.
    split; f_equal; lia.
Qed.

Lemma exact_when_small (n : nat) :
  (Z.of_nat n <= GoInt.maxInt)%Z -> GoInt.wrap (Z.of_nat n) = Z.of_nat n.
Proof.
  intros Hn. apply wrap_small. unfold GoInt.inRange, GoInt.minInt. lia.
Qed.

(** C2. On a reader as construction leaves it (both counters zero), after
    any number [N] of [ReadRune] calls [Offset()] is the sum of the byte
    widths the calls returned and [LineCount()] is the number of calls
    that returned the newline character; more generally, after any
    sequence of read calls [Offset()] is the number of bytes yielded to
    the caller and [LineCount()] the number of newlines among them.  The
    sums are the ones Go computes in [int]; they are the exact counts
    whenever these fit into an [int]. *)
Theorem offset_counts_bytes_yielded
  (name : string) (b : bufio.Reader Src) (gz : bool) :
  (forall N : nat,
      let '(res, rN) := readRunes N (fresh name b gz) in
      Offset rN = GoInt.wrap (Z.of_nat (widths res))
      /\ LineCount rN = GoInt.wrap (Z.of_nat (newlinesReturned res))
      /\ ((Z.of_nat (widths res) <= GoInt.maxInt)%Z ->
          Offset rN = Z.of_nat (widths res))
      /\ ((Z.of_nat (newlinesReturned res) <= GoInt.maxInt)%Z ->
          LineCount rN = Z.of_nat (newlinesReturned res)))
  /\ (forall calls : list readCall,
      let '(n, k, r') := run (fresh name b gz) calls in
      Offset r' = GoInt.wrap (Z.of_nat n)
      /\ LineCount r' = GoInt.wrap (Z.of_nat k)
      /\ ((Z.of_nat n <= GoInt.maxInt)%Z -> Offset r' = Z.of_nat n)
      /\ ((Z.of_nat k <= GoInt.maxInt)%Z -> LineCount r' = Z.of_nat k)).
Proof.
  assert (H0 : GoInt.wrap 0 = 0%Z) by reflexivity.
  split.
  - intros N.
    pose proof (readRunes_counts N (fresh name b gz) 0 0
                  (eq_sym H0) (eq_sym H0)) as Hc.
    destruct (readRunes N (fresh name b gz)) as [res rN].
    destruct Hc as [Ha Hl]. simpl in Ha, Hl. unfold Offset, LineCount.
    rewrite Ha, Hl. repeat split; auto using exact_when_small.
  - intros calls.
    pose proof (run_counts calls (fresh name b gz) 0 0
                  (eq_sym H0) (eq_sym H0)) as Hc.
    destruct (run (fresh name b gz) calls) as [[n k] r'].
    destruct Hc as [Ha Hl]. simpl in Ha, Hl. unfold Offset, LineCount.
    rewrite Ha, Hl. repeat split; auto using exact_when_small.
Qed.

(** C4. When a [ReadRune] call succeeds, [UnreadRune] succeeds after it
    and puts [Offset()] and [LineCount()] back to their values before the
    read, and the next [ReadRune] returns the same character and the same
    byte width. *)
Theorem ReadRune_UnreadRune_ReadRune r (char : Z) (size : nat) r1 :
  0 < length (bufio.buf (rd r)) ->
  ReadRune r = (char, size, None, r1) ->
  exists r2 r3,
    UnreadRune r1 = (None, r2)
    /\ Offset r2 = Offset r
    /\ LineCount r2 = LineCount r
    /\ ReadRune r2 = (char, size, None, r3).
Proof.
  intros Hlen Hread. unfold ReadRune in Hread.
  destruct (bufio.ReadRune (rd r)) as [[[c sz] e] b1] eqn:Hb.
  injection Hread as -> -> -> <-.
  destruct (bufioUnread.ReadRune_UnreadRune _ Hlen Hb) as [Hun [b3 Hagain]].
  unfold UnreadRune. cbn [rd prevOffset prevLine compressed filename].
  rewrite Hun. eexists. eexists. split; [reflexivity|].
  split; [reflexivity|]. split; [reflexivity|].
  unfold ReadRune. cbn [rd]. rewrite Hagain. reflexivity.
Qed.

(** C5. [UnreadRune] sets the counters to the snapshot and zeroes the
    snapshot, and its result is the result of the push-back on the
    buffered stream; after a [ReadRune] the snapshot holds the counters
    from before that call; and of two [UnreadRune] calls in a row the
    second one fails. *)
Theorem UnreadRune_restores_snapshot r :
  (let '(err, r') := UnreadRune r in
   Offset r' = prevOffset r /\ LineCount r' = prevLine r
   /\ prevOffset r' = 0%Z /\ prevLine r' = 0%Z
   /\ err = fst (bufio.UnreadRune (rd r)))
  /\ (let '(_, _, _, r1) := ReadRune r in
      let '(_, r2) := UnreadRune r1 in
      Offset r2 = Offset r /\ LineCount r2 = LineCount r)
  /\ (let '(_, r1) := UnreadRune r in
      fst (UnreadRune r1) = Some ErrInvalidUnreadRune).
Proof.
  split; [|split].
  - unfold UnreadRune. destruct (bufio.UnreadRune (rd r)) as [e b'].
    repeat split; reflexivity.
  - unfold ReadRune, UnreadRune.
    destruct (bufio.ReadRune (rd r)) as [[[c sz] e] b1].
    cbn [rd prevOffset prevLine].
    destruct (bufio.UnreadRune b1) as [e2 b2]. split; reflexivity.
  - pose proof (bufioUnread.UnreadRune_twice (rd r)) as Htwice.
    unfold UnreadRune.
    destruct (bufio.UnreadRune (rd r)) as [e b'] eqn:Hb. cbn [rd snd] in *.
    destruct (bufio.UnreadRune b') as [e2 b2]. exact Htwice.
Qed.

End Counters.

End chunkCounters.

(** ** bufio.Reader over a file *)

Module fileReads.

Import bufio.
Import Inv.

Implicit Type b : Reader os.File.

Lemma byte_eqb_eq (x y : byte) : Byte.eqb x y = true -> x = y.
Proof. apply Byte.byte_dec_bl. Qed.

Lemma IndexByte_Some (l : list byte) (c : byte) (i : nat) :
  IndexByte l c = Some i -> i < length l /\ In c (firstn (S i) l).
Proof.
  revert i. induction l as [|x l IH]; intros i; simpl; [discriminate|].
  destruct (Byte.eqb x c) eqn:Hx.
  - intros Hi. injection Hi as <-. apply byte_eqb_eq in Hx. subst x.
    split; [lia | now left].
  - destruct (IndexByte l c) as [j|]; [|discriminate].
    intros Hi. injection Hi as <-.
    destruct (IH j eq_refl) as [Hlt Hin]. split; [lia | now right].
Qed.

Lemma IndexByte_None (l : list byte) (c : byte) :
  ~ In c l -> IndexByte l c = None.
Proof.
  induction l as [|x l IH]; intros Hnot; simpl; [reflexivity|].
  destruct (Byte.eqb x c) eqn:Hx.
  - apply byte_eqb_eq in Hx. subst x. exfalso. apply Hnot. now left.
  - rewrite IH; [reflexivity|]. intros Hin. apply Hnot. now right.
Qed.

Lemma countByte_zero (c : byte) (l : list byte) :
  countByte c l = 0 -> ~ In c l.
Proof.
  induction l as [|x l IH]; simpl; [tauto|].
  destruct (Byte.eqb x c) eqn:Hx; [discriminate|].
  intros Hcount [Heq|Hin]; [|now apply IH].
  subst x. rewrite (Byte.byte_dec_lb eq_refl) in Hx. discriminate.
Qed.

Lemma copy_fits {A : Type} (dst src : list A) :
  length src <= length dst -> copy dst src = src ++ skipn (length src) dst.
Proof. intros Hl. unfold copy. now rewrite firstn_all2. Qed.

Lemma write_at_slice {A : Type} (buf : list A) (at_ : nat) (data : list A) :
  at_ + length data <= length buf ->
  slice (write_at buf at_ data) 0 (at_ + length data)
  = firstn at_ buf ++ data.
Proof.
  intros Hfit. unfold slice, write_at. simpl. rewrite Nat.sub_0_r.
  rewrite copy_fits by (rewrite length_skipn; lia).
  rewrite app_assoc.
  assert (Hlen : length (firstn at_ buf ++ data) = at_ + length data)
    by (rewrite length_app, length_firstn; lia).
  rewrite <- Hlen, <- (Nat.add_0_r (length (firstn at_ buf ++ data))).
  rewrite firstn_app_2. simpl. now rewrite app_nil_r.
Qed.

Lemma slide_file b :
  wf b ->
  wf (slide b)
  /\ r (slide b) = 0
  /\ w (slide b) = w b - r b
  /\ rd (slide b) = rd b
  /\ err (slide b) = err b
  /\ length (buf (slide b)) = length (buf b)
  /\ firstn (w (slide b)) (buf (slide b)) = slice (buf b) (r b) (w b).
Proof.
  intros (Hrw & Hwl & Hpos & Herr). unfold slide.
  destruct (0 <? r b) eqn:Hr.
  - cbn [r w rd err buf]. rewrite copy_length.
    assert (Hsl : length (slice (buf b) (r b) (w b)) = w b - r b)
      by now apply slice_length.
    split.
    + unfold wf. cbn [r w rd err buf]. rewrite copy_length.
      repeat split; auto; lia.
    + repeat split; auto.
      rewrite copy_fits by lia. rewrite <- Hsl at 1.
      rewrite <- (Nat.add_0_r (length (slice (buf b) (r b) (w b)))).
      rewrite firstn_app_2. simpl. now rewrite app_nil_r.
  - apply Nat.ltb_ge in Hr. assert (Hr0 : r b = 0) by lia.
    split; [unfold wf; auto|].
    repeat split; auto; try lia.
    unfold slice. rewrite Hr0. simpl. now rewrite Nat.sub_0_r.
Qed.

Lemma fill_tries_step (i : nat) b :
  fill_tries (S i) b
  = let '(data, e, src') := os.FileRead (rd b) (length (buf b) - w b) in
    let b' := mkReader (write_at (buf b) (w b) data) src' (r b)
                       (w b + length data) (err b) (lastByte b)
                       (lastRuneSize b) in
    match e with
    | Some _ => with_err b' e
    | None => if 0 <? length data then b' else fill_tries i b'
    end.
Proof. reflexivity. Qed.


Lemma write_at_nil {A : Type} (buf : list A) (at_ : nat) :
  write_at buf at_ [] = buf.
Proof.
  unfold write_at, copy. rewrite firstn_nil. simpl. apply firstn_skipn.
Qed.

(** One round of the read loop over a file settles it: the file reports
    its end, or delivers as much as fits. *)
Lemma fill_tries_file (i : nat) b :
  w b < length (buf b) ->
  fill_tries (S i) b
  = match os.unread (rd b) with
    | [] => with_err b (Some EOF)
    | _ :: _ =>
        let k := length (buf b) - w b in
        let data := firstn k (os.unread (rd b)) in
        mkReader (write_at (buf b) (w b) data)
                 (os.mkFile (os.Name (rd b)) (skipn k (os.unread (rd b))))
                 (r b) (w b + length data) (err b) (lastByte b)
                 (lastRuneSize b)
    end.
Proof.
  intros Hroom. rewrite fill_tries_step. unfold os.FileRead.
  destruct (length (buf b) - w b) as [|k'] eqn:Hk; [lia|].
  destruct (os.unread (rd b)) as [|x rest] eqn:Hun.
  - unfold with_err. cbn [buf rd r w err lastByte lastRuneSize length].
    now rewrite write_at_nil, Nat.add_0_r.
  - cbv zeta. 
    assert (Hdata : (0 <? length (firstn (S k') (x :: rest))) = true)
      by (apply Nat.ltb_lt; simpl; lia).
    rewrite Hdata. reflexivity.
Qed.

Lemma fill_file b :
  wf b -> Buffered b < length (buf b) ->
  wf (fill b)
  /\ r (fill b) = 0
  /\ length (buf (fill b)) = length (buf b)
  /\ pending (fill b) = pending b.
Proof.
  intros Hwf Hroom.
  destruct (slide_file Hwf) as (Hwf' & Hr & Hw & Hrd & Herr & Hlen & Hkeep).
  unfold pending at 2. rewrite <- Hkeep, <- Hrd, <- Hlen.
  unfold Buffered in Hroom. rewrite <- Hw, <- Hlen in Hroom.
  unfold fill. change maxConsecutiveEmptyReads with (S 99).
  rewrite fill_tries_file by exact Hroom.
  set (b0 := slide b) in *. clearbody b0. clear Hwf Hw Hrd Herr Hlen Hkeep b.
  destruct Hwf' as (_ & Hwl & Hpos & He).
  destruct (os.unread (rd b0)) as [|x rest] eqn:Hun.
  - split; [|split; [|split]]; auto.
    + unfold wf. cbn [with_err buf rd r w err]. rewrite Hun.
      repeat split; auto; lia.
    + unfold pending. cbn [with_err buf rd r w err]. rewrite Hr, Hun.
      unfold slice. simpl. now rewrite Nat.sub_0_r.
  - cbv zeta.
    set (k := length (buf b0) - w b0).
    set (data := firstn k (x :: rest)).
    assert (Hfit : length data <= k)
      by (unfold data; rewrite length_firstn; lia).
    split; [|split; [|split]]; cbn [buf rd r w err os.unread]; auto.
    + unfold wf. cbn [buf rd r w err os.unread]. rewrite write_at_length.
      split; [lia|]. split; [lia|]. split; [lia|].
      destruct He as [He|[He Hnil]]; [now left | congruence].
    + apply write_at_length.
    + unfold pending. cbn [buf rd r w err os.unread]. rewrite Hr.
      rewrite write_at_slice by lia.
      rewrite <- app_assoc. f_equal. unfold data. apply firstn_skipn.
Qed.

(** The loop of [ReadSlice] over a file hands out a prefix of the pending
    bytes and leaves the rest pending. *)
Lemma readSlice_loop_file (fuel : nat) (delim : byte) (s : nat) b
  line e b' :
  wf b ->
  readSlice_loop fuel delim s b = Some (line, e, b') ->
  wf b'
  /\ length (buf b') = length (buf b)
  /\ pending b = line ++ pending b'
  /\ outcome delim line e (length (buf b)) (pending b')
  /\ length line <= length (buf b).
Proof.
  revert s b. induction fuel as [|fuel IH]; intros s b Hwf; simpl.
  all: destruct (IndexByte (slice (buf b) (r b + s) (w b)) delim)
         as [i|] eqn:Hidx.
  1, 3: (* the delimiter is in the buffer *)
    intros Hres; injection Hres as <- <- <-;
    destruct Hwf as (Hrw & Hwl & Hpos & He);
    apply IndexByte_Some in Hidx; destruct Hidx as [Hlt Hin];
    rewrite slice_length in Hlt by lia;
    (split; [unfold wf; cbn [with_r buf rd r w err]; repeat split; auto; lia|]);
    (split; [reflexivity|]);
    (split; [unfold pending; cbn [with_r buf rd r w err];
             rewrite app_assoc; f_equal; apply slice_split; lia|]);
    (split; [|rewrite slice_length by lia; lia]);
    unfold outcome;
    rewrite (slice_split (buf b) (i:=r b) (j:=r b + s) (k:=r b + (i + s) + 1))
      by lia;
    apply in_or_app; right;
    unfold slice in Hin |- *; rewrite firstn_firstn in Hin;
    replace (r b + (i + s) + 1 - (r b + s)) with (S i) by lia;
    replace (Nat.min (S i) (w b - (r b + s))) with (S i) in Hin by lia;
    exact Hin.
  all: destruct (err b) as [e0|] eqn:Herr.
  1, 3: (* pending error *)
    intros Hres; injection Hres as <- <- <-;
    destruct Hwf as (Hrw & Hwl & Hpos & He);
    (destruct He as [He|[He Hnil]]; [congruence|]);
    assert (e0 = EOF) by congruence; subst e0;
    (split; [unfold wf; cbn [with_r with_err buf rd r w err];
             repeat split; auto; lia|]);
    (split; [reflexivity|]);
    (split; [unfold pending; cbn [with_r with_err buf rd r w err];
             rewrite (slice_nil (buf b) (i:=w b) (j:=w b)) by lia;
             now rewrite Hnil, !app_nil_r|]);
    (split; [|rewrite slice_length by lia; lia]);
    unfold outcome, pending; cbn [with_r with_err buf rd r w err];
    rewrite (slice_nil (buf b) (i:=w b) (j:=w b)) by lia;
    now rewrite Hnil.
  all: destruct (length (buf b) <=? Buffered b) eqn:Hfull.
  1, 3: (* buffer full *)
    intros Hres; injection Hres as <- <- <-;
    destruct Hwf as (Hrw & Hwl & Hpos & He);
    apply Nat.leb_le in Hfull; unfold Buffered in Hfull;
    assert (Hr0 : r b = 0) by lia;
    assert (Hwfull : w b = length (buf b)) by lia;
    (split; [unfold wf; cbn [with_r buf rd r w err];
             repeat split; auto; lia|]);
    (split; [reflexivity|]);
    (split; [unfold pending; cbn [with_r buf rd r w err];
             rewrite (slice_nil (buf b) (i:=w b) (j:=w b)) by lia;
             rewrite Hr0, Hwfull, slice_full; reflexivity|]);
    (split; [reflexivity | lia]).
  - discriminate.
  - (* one more round *)
    intros Hres. apply Nat.leb_gt in Hfull.
    destruct (fill_file Hwf Hfull) as (Hwf' & _ & Hlen & Hpend).
    destruct (IH _ _ Hwf' Hres) as (H1 & H2 & H3 & H4 & H5).
    rewrite Hlen in H2, H4, H5. rewrite Hpend in H3. auto.
Qed.

Lemma noteLastByte_same (line : list byte) b :
  wf (noteLastByte line b) = wf b
  /\ pending (noteLastByte line b) = pending b
  /\ buf (noteLastByte line b) = buf b
  /\ err (noteLastByte line b) = err b.
Proof. destruct line; repeat split; reflexivity. Qed.

(** [ReadSlice] over a file. *)
Lemma ReadSlice_file (delim : byte) b line e b' :
  wf b ->
  ReadSlice b delim = (line, e, b') ->
  wf b'
  /\ length (buf b') = length (buf b)
  /\ pending b = line ++ pending b'
  /\ outcome delim line e (length (buf b)) (pending b')
  /\ length line <= length (buf b).
Proof.
  intros Hwf. unfold ReadSlice.
  destruct (readSlice_loop (S (length (buf b))) delim 0 b)
    as [[[line1 e1] b1]|] eqn:Hloop.
  - intros Hres. injection Hres as <- <- <-.
    destruct (readSlice_loop_file _ _ _ Hwf Hloop)
      as (H1 & H2 & H3 & H4 & H5).
    destruct (noteLastByte_same line1 b1) as (N1 & N2 & N3 & N4).
    rewrite N1, N2, N3. auto.
  - exfalso. revert Hloop. apply bufioFacts.ReadSlice_returns.
Qed.

Lemma pending_length b :
  wf b -> length (pending b) = Buffered b + length (os.unread (rd b)).
Proof.
  intros (Hrw & Hwl & _). unfold pending, Buffered.
  rewrite length_app, slice_length by lia. reflexivity.
Qed.

(** The loop of [ReadString] over a file hands out a prefix of the pending
    bytes, after what it was given in [full]. *)
Lemma collect_file (fuel : nat) (delim : byte) (full : list byte) b
  str e b' :
  wf b ->
  collect fuel delim full b = Some (str, e, b') ->
  wf b'
  /\ length (buf b') = length (buf b)
  /\ exists consumed,
       str = full ++ consumed
       /\ pending b = consumed ++ pending b'
       /\ outcomeString delim consumed e (pending b').
Proof.
  revert full b. induction fuel as [|fuel IH]; intros full b Hwf; simpl.
  all: destruct (ReadSlice b delim) as [[frag e1] b1] eqn:HRS.
  all: destruct (ReadSlice_file _ Hwf HRS) as (Hwf1 & Hlen1 & Hpend1 & Hout & _).
  all: destruct e1 as [[| | | | |msg]|]; simpl in Hout; try contradiction.
  all: try (intros Hres; injection Hres as <- <- <-;
            split; [exact Hwf1|]; split; [exact Hlen1|];
            exists frag; repeat split; auto).
  - discriminate.
  - intros Hres.
    destruct (IH _ _ Hwf1 Hres) as (Hwf' & Hlen' & consumed & Hstr & Hpend & Ho).
    split; [exact Hwf'|]. split; [congruence|].
    exists (frag ++ consumed).
    split; [now rewrite Hstr, app_assoc|].
    split; [now rewrite Hpend1, Hpend, app_assoc|].
    destruct e as [[| | | | |msg]|]; simpl in Ho |- *; auto.
    apply in_or_app. now right.
Qed.

(** The loop of [ReadString] over a file returns within the counter. *)
Lemma collect_file_returns (fuel : nat) (delim : byte) (full : list byte) b :
  wf b -> length (pending b) <= fuel -> collect fuel delim full b <> None.
Proof.
  revert full b. induction fuel as [|fuel IH]; intros full b Hwf Hfuel; simpl.
  all: destruct (ReadSlice b delim) as [[frag e1] b1] eqn:HRS.
  all: destruct (ReadSlice_file _ Hwf HRS) as (Hwf1 & Hlen1 & Hpend1 & Hout & _).
  all: destruct e1 as [[| | | | |msg]|]; try discriminate.
  all: simpl in Hout; pose proof Hwf as (_ & _ & Hpos & _);
       assert (Hless : length frag + length (pending b1) = length (pending b))
         by (rewrite Hpend1, length_app; reflexivity).
  - lia.
  - apply IH; [exact Hwf1 | lia].
Qed.

(** [ReadString] over a file. *)
Lemma ReadString_file (delim : byte) b str e b' :
  wf b ->
  ReadString b delim = (str, e, b') ->
  wf b'
  /\ length (buf b') = length (buf b)
  /\ pending b = str ++ pending b'
  /\ outcomeString delim str e (pending b').
Proof.
  intros Hwf. unfold ReadString.
  destruct (collect (Buffered b + limit (rd b)) delim [] b)
    as [[[str1 e1] b1]|] eqn:Hc.
  - intros Hres. injection Hres as <- <- <-.
    destruct (collect_file _ _ _ Hwf Hc)
      as (Hwf' & Hlen' & consumed & Hstr & Hpend & Ho).
    simpl in Hstr. subst str1. auto.
  - exfalso. revert Hc. apply collect_file_returns; [exact Hwf|].
    rewrite pending_length by exact Hwf. reflexivity.
Qed.

(** *** The end of a stream without a trailing delimiter *)

(** Once nothing is pending, [ReadSlice] returns nothing, with [io.EOF]. *)
Lemma ReadSlice_drained (delim : byte) b line e b' :
  wf b -> pending b = [] ->
  ReadSlice b delim = (line, e, b') ->
  line = [] /\ e = Some EOF /\ wf b' /\ pending b' = []
  /\ length (buf b') = length (buf b).
Proof.
  intros Hwf Hnil HRS.
  destruct (ReadSlice_file _ Hwf HRS) as (Hwf' & Hlen & Hpend & Hout & _).
  rewrite Hnil in Hpend. symmetry in Hpend.
  apply app_eq_nil in Hpend. destruct Hpend as [-> Hp].
  assert (He : e = Some EOF).
  { destruct Hwf as (_ & _ & Hpos & _).
    destruct e as [[| | | | |msg]|]; simpl in Hout;
      try contradiction; try reflexivity.
    lia. }
  conjuncts; auto.
Qed.

Lemma ReadString_drained (delim : byte) b str e b' :
  wf b -> pending b = [] ->
  ReadString b delim = (str, e, b') ->
  str = [] /\ e = Some EOF /\ wf b' /\ pending b' = []
  /\ length (buf b') = length (buf b).
Proof.
  intros Hwf Hnil HRS.
  destruct (ReadString_file _ Hwf HRS) as (Hwf' & Hlen & Hpend & Hout).
  rewrite Hnil in Hpend. symmetry in Hpend.
  apply app_eq_nil in Hpend. destruct Hpend as [-> Hp].
  assert (He : e = Some EOF)
    by (destruct e as [[| | | | |msg]|]; simpl in Hout;
        try contradiction; reflexivity).
  conjuncts; auto.
Qed.


(** An undelimited rest that is longer than the buffer loses one buffer
    length, with [ErrBufferFull]. *)
Lemma ReadSlice_long_tail (delim : byte) b line e b' :
  wf b -> ~ In delim (pending b) ->
  length (buf b) < length (pending b) ->
  ReadSlice b delim = (line, e, b') ->
  line = firstn (length (buf b)) (pending b)
  /\ e = Some ErrBufferFull
  /\ wf b'
  /\ pending b' = skipn (length (buf b)) (pending b)
  /\ length (buf b') = length (buf b).
Proof.
  intros Hwf Hnot Hlong HRS.
  destruct (ReadSlice_file _ Hwf HRS) as (Hwf' & Hlen & Hpend & Hout & Hle).
  assert (He : e = Some ErrBufferFull).
  { destruct e as [[| | | | |msg]|]; simpl in Hout;
      try contradiction; try reflexivity.
    - rewrite Hout, app_nil_r in Hpend. rewrite Hpend in Hlong. lia.
    - exfalso. apply Hnot. rewrite Hpend. apply in_or_app. now left. }
  subst e. simpl in Hout.
  rewrite Hpend, <- Hout.
  rewrite <- (Nat.add_0_r (length line)) at 1.
  rewrite firstn_app_2, skipn_app, skipn_all, Nat.sub_diag. simpl.
  rewrite app_nil_r. conjuncts; auto; congruence.
Qed.


(** *** A fresh buffered reader, and peeking *)

Lemma NewReader_buf_length {Src : Type} (src : Src) :
  length (buf (NewReader src)) = defaultBufSize.
Proof. unfold NewReader, NewReaderSize. cbn [buf]. apply repeat_length. Qed.

Lemma NewReader_file (f : os.File) :
  wf (NewReader f) /\ pending (NewReader f) = os.unread f.
Proof.
  split.
  - unfold wf. rewrite NewReader_buf_length.
    unfold NewReader, NewReaderSize, defaultBufSize. cbn [r w err rd].
    repeat split; auto; lia.
  - unfold pending, NewReader, NewReaderSize. cbn [r w buf rd].
    now rewrite slice_nil by lia.
Qed.

Lemma peek_fill_file (fuel n : nat) b :
  wf b ->
  wf (peek_fill fuel n b)
  /\ pending (peek_fill fuel n b) = pending b
  /\ length (buf (peek_fill fuel n b)) = length (buf b).
Proof.
  revert b. induction fuel as [|fuel IH]; intros b Hwf; simpl;
    destruct (peekWanted n b) eqn:Hc; auto.
  apply bufioFacts.peekWanted_inv in Hc. destruct Hc as [_ Hroom].
  destruct (fill_file Hwf Hroom) as (Hwf' & _ & Hlen & Hpend).
  destruct (IH _ Hwf') as (H1 & H2 & H3).
  rewrite H2, H3. auto.
Qed.

(** [Peek] consumes nothing. *)
Lemma Peek_file b (n : nat) :
  wf b ->
  let b' := snd (Peek b n) in
  wf b' /\ pending b' = pending b /\ length (buf b') = length (buf b).
Proof.
  intros Hwf. unfold Peek.
  assert (Hwf0 : wf (with_last b (-1) (-1))) by exact Hwf.
  destruct (peek_fill_file (S (length (buf (with_last b (-1) (-1))))) n Hwf0)
    as (H1 & H2 & H3).
  set (bp := peek_fill _ n _) in *. clearbody bp.
  change (pending (with_last b (-1) (-1))) with (pending b) in H2.
  change (buf (with_last b (-1) (-1))) with (buf b) in H3.
  destruct (length (buf bp) <? n); cbn [snd]; auto.
  destruct (w bp - r bp <? n); cbn [snd]; auto.
  destruct H1 as (Hrw & Hwl & Hpos & He).
  repeat split; auto.
Qed.

End fileReads.

(** ** Construction *)

Module construction.

Import chunk.
Import Inv.

Lemma list_ascii_of_string_app (s1 s2 : string) :
  list_ascii_of_string (s1 ++ s2)
  = list_ascii_of_string s1 ++ list_ascii_of_string s2.
Proof. induction s1 as [|c s1 IH]; simpl; [reflexivity | now rewrite IH]. Qed.

(** A name that ends in [.gz] has the extension [.gz]. *)
Lemma Ext_gz (base : string) : filepath.Ext (base ++ ".gz") = ".gz"%string.
Proof.
  unfold filepath.Ext. rewrite list_ascii_of_string_app, rev_app_distr.
  reflexivity.
Qed.

Section Construction.

Variable DetectContentType : list byte -> string.
Variable GzReader : Type.
Context `{IoReader GzReader}.
Variable gzip_NewReader : gzipInput -> GzReader + error.

(** [newReader], branch by branch. *)
Lemma newReader_cases (f : os.File) :
  newReader DetectContentType gzip_NewReader f
  = if String.eqb (filepath.Ext (os.Name f)) ".gz" then
      match gzip_NewReader (RawFile f) with
      | inr e => Fatal (FatalNoTrace e)
      | inl gzr => Gunzip (fresh (os.Name f) (bufio.NewReader gzr) true)
                          [CloseFile; CloseGzip]
      end
    else if String.eqb (DetectContentType (sniffedBytes f)) gzipType then
      match gzip_NewReader (Sniffed (peeked f)) with
      | inr e => Fatal (FatalNoTrace e)
      | inl gzr => Gunzip (fresh (os.Name f) (bufio.NewReader gzr) true)
                          [CloseFile; CloseGzip]
      end
    else Plain (fresh (os.Name f) (peeked f) false) [CloseFile].
Proof.
  unfold newReader, peeked, sniffedBytes.
  destruct (String.eqb (filepath.Ext (os.Name f)) ".gz").
  - destruct (gzip_NewReader (RawFile f)); reflexivity.
  - destruct (bufio.Peek (bufio.NewReader f) 512) as [[buf e] b].
    cbn [fst snd].
    destruct (String.eqb (DetectContentType buf) gzipType).
    + destruct (gzip_NewReader (Sniffed b)); reflexivity.
    + reflexivity.
Qed.

(** C7. When the name ends in [.gz], the raw file goes to
    [gzip.NewReader] as it is, and an error of [gzip.NewReader] stops
    construction at once, without a trace; the sniffer is not consulted:
    whatever it would answer, the result is the same. *)
Theorem gz_suffix_trusted (f : os.File) (base : string) :
  os.Name f = (base ++ ".gz")%string ->
  newReader DetectContentType gzip_NewReader f
  = match gzip_NewReader (RawFile f) with
    | inr e => Fatal (FatalNoTrace e)
    | inl gzr => Gunzip (fresh (os.Name f) (bufio.NewReader gzr) true)
                        [CloseFile; CloseGzip]
    end
  /\ forall sniffer : list byte -> string,
       newReader sniffer gzip_NewReader f
       = newReader DetectContentType gzip_NewReader f.
Proof.
  intros Hname. split.
  - rewrite newReader_cases, Hname, Ext_gz. reflexivity.
  - intros sniffer. unfold newReader. rewrite Hname, Ext_gz. reflexivity.
Qed.

(** C9. Whenever [newReader] returns, the reader's [rd] is a buffered
    reader.  With decompression (the name has the extension [.gz], or the
    sniffer saw gzip) it is a fresh one, nothing buffered and of default
    size, around the one gzip reader, which itself reads the raw file
    (extension) or the buffered reader used for sniffing.  Without
    decompression it is the buffered reader over the raw file that was used
    for sniffing.  No reader is returned with a nil [rd]; and when
    construction does not return, [gzip.NewReader] has failed. *)
Theorem newReader_stream_is_buffered (f : os.File) :
  let byExtension := String.eqb (filepath.Ext (os.Name f)) ".gz" in
  let bySniffing :=
    String.eqb (DetectContentType (sniffedBytes f)) gzipType in
  let gzipSource := if byExtension then RawFile f else Sniffed (peeked f) in
  match newReader DetectContentType gzip_NewReader f with
  | Plain r cleanup =>
      byExtension = false /\ bySniffing = false
      /\ compressed r = false
      /\ rd r = peeked f
      /\ cleanup = [CloseFile]
  | Gunzip r cleanup =>
      (byExtension = true \/ bySniffing = true)
      /\ compressed r = true
      /\ cleanup = [CloseFile; CloseGzip]
      /\ exists gzr,
           gzip_NewReader gzipSource = inl gzr
           /\ rd r = bufio.NewReader gzr
           /\ bufio.Buffered (rd r) = 0
           /\ length (bufio.buf (rd r)) = bufio.defaultBufSize
  | NilStream _ _ => False
  | Fatal how =>
      (byExtension = true \/ bySniffing = true)
      /\ exists e, gzip_NewReader gzipSource = inr e /\ how = FatalNoTrace e
  end.
Proof.
  cbv zeta. rewrite newReader_cases.
  destruct (String.eqb (filepath.Ext (os.Name f)) ".gz").
  - destruct (gzip_NewReader (RawFile f)) as [gzr|e] eqn:Hgz.
    + split; [now left|]. split; [reflexivity|]. split; [reflexivity|].
      exists gzr. split; [reflexivity|]. split; [reflexivity|].
      split; [reflexivity|]. apply fileReads.NewReader_buf_length.
    + split; [now left|]. exists e. split; reflexivity.
  - destruct (String.eqb (DetectContentType (sniffedBytes f)) gzipType).
    + destruct (gzip_NewReader (Sniffed (peeked f))) as [gzr|e] eqn:Hgz.
      * split; [now right|]. split; [reflexivity|]. split; [reflexivity|].
        exists gzr. split; [reflexivity|]. split; [reflexivity|].
        split; [reflexivity|]. apply fileReads.NewReader_buf_length.
      * split; [now right|]. exists e. split; reflexivity.
    + conjuncts; reflexivity.
Qed.

(** Without the [.gz] suffix and without the gzip signature, the reader is
    the plain one, well-formed, with the whole file pending. *)
Lemma newReader_plain (f : os.File) :
  filepath.Ext (os.Name f) <> ".gz"%string ->
  DetectContentType (sniffedBytes f) <> gzipType ->
  newReader DetectContentType gzip_NewReader f
  = Plain (fresh (os.Name f) (peeked f) false) [CloseFile]
  /\ wf (peeked f)
  /\ pending (peeked f) = os.unread f
  /\ length (bufio.buf (peeked f)) = bufio.defaultBufSize.
Proof.
  intros Hext Htyp. rewrite newReader_cases.
  apply String.eqb_neq in Hext. apply String.eqb_neq in Htyp.
  rewrite Hext, Htyp. split; [reflexivity|].
  destruct (fileReads.NewReader_file f) as [Hwf Hpend].
  destruct (fileReads.Peek_file 512 Hwf) as (H1 & H2 & H3).
  unfold peeked.
  rewrite H2, H3, Hpend, fileReads.NewReader_buf_length. auto.
Qed.

End Construction.

(** C7 at a text file of eight bytes that is named [data.rdf.gz]: the
    gzip header cannot be read in full. *)
Lemma gz_suffix_trusted_witness :
  os.Name Examples.misnamedFile = ("data.rdf" ++ ".gz")%string
  /\ Standin.newReader Examples.misnamedFile
     = Fatal (FatalNoTrace Standin.ErrUnexpectedEOF).
Proof.
  split; [reflexivity|].
  unfold Standin.newReader.
  rewrite (proj1 (gz_suffix_trusted Standin.DetectContentType
                    Standin.gzip_NewReader Examples.misnamedFile "data.rdf"
                    eq_refl)).
  reflexivity.
Defined.

End construction.

(** ** chunk.Reader over a file: the end of the stream *)

Module chunkTails.

Unset Implicit Arguments.

Import chunk.
Import Calls.
Import Inv.
Import GoIntFacts.

Implicit Type r : Reader os.File.

Lemma ReadSlice_rd r (delim : byte) :
  bufio.ReadSlice (rd r) delim
  = (fst (fst (ReadSlice r delim)), snd (fst (ReadSlice r delim)),
     rd (snd (ReadSlice r delim))).
Proof.
  unfold ReadSlice. destruct (bufio.ReadSlice (rd r) delim) as [[slc e] b'].
  reflexivity.
Qed.

Lemma ReadString_rd r (delim : byte) :
  bufio.ReadString (rd r) delim
  = (fst (fst (ReadString r delim)), snd (fst (ReadString r delim)),
     rd (snd (ReadString r delim))).
Proof.
  unfold ReadString. destruct (bufio.ReadString (rd r) delim) as [[str e] b'].
  reflexivity.
Qed.

Lemma ReadSlice_counters r (delim : byte) :
  offset (snd (ReadSlice r delim))
  = GoInt.add (offset r) (GoInt.len (fst (fst (ReadSlice r delim))))
  /\ line (snd (ReadSlice r delim))
     = countLines (fst (fst (ReadSlice r delim))) (line r).
Proof.
  unfold ReadSlice. destruct (bufio.ReadSlice (rd r) delim) as [[slc e] b'].
  split; reflexivity.
Qed.

Lemma ReadString_counters r (delim : byte) :
  offset (snd (ReadString r delim))
  = GoInt.add (offset r) (GoInt.len (fst (fst (ReadString r delim))))
  /\ line (snd (ReadString r delim))
     = GoInt.add (line r)
         (Z.of_nat (countByte newline (fst (fst (ReadString r delim))))).
Proof.
  unfold ReadString. destruct (bufio.ReadString (rd r) delim) as [[str e] b'].
  split; reflexivity.
Qed.

(** After the end of the stream, [ReadSlice] keeps returning nothing with
    [io.EOF] and leaves the counters alone. *)
Lemma ReadSlice_after_end r (delim : byte) :
  wf (rd r) -> pending (rd r) = [] -> GoInt.inRange (offset r) ->
  fst (ReadSlice r delim) = ([], Some EOF)
  /\ wf (rd (snd (ReadSlice r delim)))
  /\ pending (rd (snd (ReadSlice r delim))) = []
  /\ offset (snd (ReadSlice r delim)) = offset r
  /\ line (snd (ReadSlice r delim)) = line r.
Proof.
  intros Hwf Hnil Hoff.
  destruct (fileReads.ReadSlice_drained delim Hwf Hnil (ReadSlice_rd r delim))
    as (Hslc & He & Hwf' & Hnil' & _).
  destruct (ReadSlice_counters r delim) as [Ho Hl].
  rewrite Ho, Hl, Hslc.
  conjuncts; auto.
  - destruct (ReadSlice r delim) as [[slc e] r']. simpl in *. congruence.
  - now apply add_0_inRange.
Qed.

Lemma ReadString_after_end r (delim : byte) :
  wf (rd r) -> pending (rd r) = [] ->
  GoInt.inRange (offset r) -> GoInt.inRange (line r) ->
  fst (ReadString r delim) = ([], Some EOF)
  /\ wf (rd (snd (ReadString r delim)))
  /\ pending (rd (snd (ReadString r delim))) = []
  /\ offset (snd (ReadString r delim)) = offset r
  /\ line (snd (ReadString r delim)) = line r.
Proof.
  intros Hwf Hnil Hoff Hline.
  destruct (fileReads.ReadString_drained delim Hwf Hnil (ReadString_rd r delim))
    as (Hstr & He & Hwf' & Hnil' & _).
  destruct (ReadString_counters r delim) as [Ho Hl].
  rewrite Ho, Hl, Hstr.
  conjuncts; auto.
  - destruct (ReadString r delim) as [[str e] r']. simpl in *. congruence.
  - now apply add_0_inRange.
  - now apply add_0_inRange.
Qed.





Lemma In_skipn {A : Type} (x : A) (n : nat) (l : list A) :
  In x (skipn n l) -> In x l.
Proof.
  intros Hin. rewrite <- (firstn_skipn n l). apply in_or_app. now right.
Qed.

(** While more than a buffer of undelimited bytes is pending, [ReadSlice]
    takes them off one buffer at a time. *)
Lemma afterReadSlice_pieces (i : nat) r (delim : byte) :
  wf (rd r) -> ~ In delim (pending (rd r)) ->
  i * length (bufio.buf (rd r)) < length (pending (rd r)) ->
  wf (rd (afterReadSlice i delim r))
  /\ pending (rd (afterReadSlice i delim r))
     = skipn (i * length (bufio.buf (rd r))) (pending (rd r))
  /\ length (bufio.buf (rd (afterReadSlice i delim r)))
     = length (bufio.buf (rd r)).
Proof.
  revert r. induction i as [|i IH]; intros r Hwf Hnot Hlong; simpl; auto.
  assert (Hmore : length (bufio.buf (rd r)) < length (pending (rd r)))
    by (simpl in Hlong; lia).
  destruct (fileReads.ReadSlice_long_tail delim Hwf Hnot Hmore
              (ReadSlice_rd r delim))
    as (_ & _ & Hwf1 & Hpend1 & Hlen1).
  set (r1 := snd (ReadSlice r delim)) in *.
  assert (Hnot1 : ~ In delim (pending (rd r1)))
    by (rewrite Hpend1; intros Hin; apply Hnot; eapply In_skipn; eauto).
  assert (Hlong1 : i * length (bufio.buf (rd r1)) < length (pending (rd r1)))
    by (rewrite Hpend1, Hlen1, length_skipn; simpl in Hlong; lia).
  destruct (IH r1 Hwf1 Hnot1 Hlong1) as (H1 & H2 & H3).
  conjuncts; auto; [|congruence].
  rewrite H2, Hpend1, Hlen1, skipn_skipn. f_equal. lia.
Qed.

End chunkTails.

(** ** bufio.Reader over a file: when the end is recorded *)

Module fileEof.

Unset Implicit Arguments.

Import bufio.
Import Inv.

Implicit Type b : Reader os.File.

(** At the start of the buffer there is nothing to push back. *)
Lemma UnreadRune_at_start b :
  r b = 0 -> Buffered (snd (UnreadRune b)) = Buffered b.
Proof.
  intros Hr. unfold UnreadRune.
  destruct ((lastRuneSize b <? 0)%Z || (Z.of_nat (r b) <? lastRuneSize b)%Z)%bool;
    cbn [snd]; [reflexivity|].
  unfold Buffered. cbn [r w]. rewrite Hr. reflexivity.
Qed.

(** A reader that cannot push back is late as soon as its buffer is not
    full. *)
Lemma eofLate_no_rune b :
  lastRuneSize b = (-1)%Z ->
  (err b <> None -> Buffered b < length (buf b)) -> eofLate b.
Proof.
  intros Hl Hb He. rewrite (bufioUnread.UnreadRune_invalid b Hl).
  cbn [snd]. split; now apply Hb.
Qed.

Lemma eofLate_none b : err b = None -> eofLate b.
Proof. intros He Hne. congruence. Qed.

Lemma fill_eofLate b :
  wf b -> err b = None -> Buffered b < length (buf b) -> eofLate (fill b).
Proof.
  intros Hwf Herr Hroom.
  destruct (fileReads.slide_file Hwf)
    as (Hwf' & Hr & Hw & Hrd & He & Hlen & _).
  unfold Buffered in Hroom. rewrite <- Hw, <- Hlen in Hroom.
  rewrite <- He in Herr.
  unfold fill. change maxConsecutiveEmptyReads with (S 99).
  rewrite fileReads.fill_tries_file by exact Hroom.
  set (b0 := slide b) in *. clearbody b0.
  destruct (os.unread (rd b0)) as [|x rest].
  - intros _. rewrite UnreadRune_at_start by exact Hr.
    unfold Buffered. cbn [with_err r w buf]. lia.
  - apply eofLate_none. exact Herr.
Qed.

(** The loop of [ReadSlice]: a slice that comes with the end of the file
    is shorter than the buffer. *)
Lemma readSlice_loop_eofLate (fuel : nat) (delim : byte) (s : nat) b
  line e b' :
  wf b -> eofLate b ->
  readSlice_loop fuel delim s b = Some (line, e, b') ->
  eofLate (noteLastByte line b')
  /\ (e = Some EOF -> length line < length (buf b)).
Proof.
  revert s b. induction fuel as [|fuel IH]; intros s b Hwf Hlate; simpl.
  all: destruct (IndexByte (slice (buf b) (r b + s) (w b)) delim)
         as [i|] eqn:Hidx.
  1, 3: (* the delimiter is in the buffer *)
    intros Hres; injection Hres as <- <- <-;
    (split; [|discriminate]);
    destruct Hwf as (Hrw & Hwl & Hpos & He);
    apply fileReads.IndexByte_Some in Hidx; destruct Hidx as [Hlt _];
    rewrite slice_length in Hlt by lia;
    assert (Hline : length (slice (buf b) (r b) (r b + (i + s) + 1))
                    = i + s + 1) by (rewrite slice_length by lia; lia);
    destruct (slice (buf b) (r b) (r b + (i + s) + 1)) as [|x l];
      [simpl in Hline; lia|];
    apply eofLate_no_rune; [reflexivity|];
    cbn [noteLastByte with_last with_r err buf]; intros Hne;
    destruct (Hlate Hne) as [Hb _];
    unfold Buffered in *; cbn [with_last with_r r w buf]; lia.
  all: destruct (err b) as [e0|] eqn:Herr.
  1, 3: (* pending error *)
    intros Hres; injection Hres as <- <- <-;
    (split; [|intros _;
              destruct Hwf as (Hrw & Hwl & Hpos & He);
              rewrite slice_length by lia;
              destruct (Hlate ltac:(congruence)) as [Hb _];
              exact Hb]);
    apply eofLate_none; destruct (slice (buf b) (r b) (w b)); reflexivity.
  all: destruct (length (buf b) <=? Buffered b) eqn:Hfull.
  1, 3: (* buffer full *)
    intros Hres; injection Hres as <- <- <-;
    (split; [|discriminate]);
    apply eofLate_none; destruct (buf b); exact Herr.
  - discriminate.
  - (* one more round *)
    intros Hres. apply Nat.leb_gt in Hfull.
    destruct (fileReads.fill_file Hwf Hfull) as (Hwf' & _ & Hlen & _).
    destruct (IH _ _ Hwf' (fill_eofLate b Hwf Herr Hfull) Hres) as [H1 H2].
    rewrite Hlen in H2. auto.
Qed.

Lemma ReadSlice_eofLate (delim : byte) b line e b' :
  wf b -> eofLate b ->
  ReadSlice b delim = (line, e, b') ->
  eofLate b' /\ (e = Some EOF -> length line < length (buf b)).
Proof.
  intros Hwf Hlate. unfold ReadSlice.
  destruct (readSlice_loop (S (length (buf b))) delim 0 b)
    as [[[line1 e1] b1]|] eqn:Hloop.
  - intros Hres. injection Hres as <- <- <-.
    exact (readSlice_loop_eofLate _ _ _ _ _ _ _ Hwf Hlate Hloop).
  - exfalso. revert Hloop. apply bufioFacts.ReadSlice_returns.
Qed.


Lemma collect_eofLate (fuel : nat) (delim : byte) (full : list byte) b
  str e b' :
  wf b -> eofLate b ->
  collect fuel delim full b = Some (str, e, b') -> eofLate b'.
Proof.
  revert full b. induction fuel as [|fuel IH]; intros full b Hwf Hlate; simpl.
  all: destruct (ReadSlice b delim) as [[frag e1] b1] eqn:HRS.
  all: destruct (fileReads.ReadSlice_file _ Hwf HRS) as (Hwf1 & _).
  all: destruct (ReadSlice_eofLate _ _ _ _ _ Hwf Hlate HRS) as [Hlate1 _].
  all: destruct e1 as [[| | | | |msg]|]; try discriminate.
  all: try (intros Hres; injection Hres as <- <- <-; exact Hlate1).
  intros Hres. exact (IH _ _ Hwf1 Hlate1 Hres).
Qed.

Lemma ReadString_eofLate (delim : byte) b str e b' :
  wf b -> eofLate b -> ReadString b delim = (str, e, b') -> eofLate b'.
Proof.
  intros Hwf Hlate. unfold ReadString.
  destruct (collect (Buffered b + limit (rd b)) delim [] b)
    as [[[str1 e1] b1]|] eqn:Hc.
  - intros Hres. injection Hres as <- <- <-.
    exact (collect_eofLate _ _ _ _ _ _ _ Hwf Hlate Hc).
  - intros Hres. injection Hres as <- <- <-. exact Hlate.
Qed.




End fileEof.

(** ** The claims about the end of a stream *)

Module chunkEnd.

Unset Implicit Arguments.

Import chunk.
Import Calls.
Import Inv.
Import GoIntFacts.
Import chunkTails.

Implicit Type r : Reader os.File.





End chunkEnd.

(** ** Scenarios *)

Module scenarios.

Unset Implicit Arguments.

Import chunk.
Import Calls.
Import Inv.

Lemma plainReader_wf (name : string) (content : list byte) :
  wf (rd (Examples.plainReader name content))
  /\ pending (rd (Examples.plainReader name content)) = content
  /\ length (bufio.buf (rd (Examples.plainReader name content)))
     = bufio.defaultBufSize.
Proof.
  unfold Examples.plainReader, fresh, peeked. cbn [rd].
  destruct (fileReads.NewReader_file (os.mkFile name content)) as [Hwf Hpend].
  destruct (fileReads.Peek_file 512 Hwf) as (H1 & H2 & H3).
  rewrite H2, H3, Hpend, fileReads.NewReader_buf_length. auto.
Qed.

(** C1. The three lines "a", "bb", "ccc" (no trailing newline) on an
    uncompressed reader: three calls of [ReadSlice('\n')] return "a\n"
    without error, "bb\n" without error, and "ccc" with [io.EOF]; then
    [LineCount()] is 2 and [Offset()] is 8.  The reader is the one that
    [newReader] builds for the file when the sniffer does not see gzip. *)
Theorem three_lines_scenario (name : string) :
  (let r0 := Examples.plainReader name Examples.threeLines in
   let '(s1, e1, r1) := ReadSlice r0 newline in
   let '(s2, e2, r2) := ReadSlice r1 newline in
   let '(s3, e3, r3) := ReadSlice r2 newline in
   compressed r0 = false
   /\ s1 = [x61; x0a] /\ e1 = None
   /\ s2 = [x62; x62; x0a] /\ e2 = None
   /\ s3 = [x63; x63; x63] /\ e3 = Some EOF
   /\ LineCount r3 = 2%Z /\ Offset r3 = 8%Z)
  /\ Standin.newReader Examples.threeLinesFile
     = Plain (Examples.plainReader "data.rdf" Examples.threeLines) [CloseFile].
Proof.
  split.
  - vm_compute. conjuncts; reflexivity.
  - vm_compute. reflexivity.
Qed.




(** [bufio.ReadSlice] tells apart two sources with the same content: on
    4096 bytes without a newline it answers [ErrBufferFull] over a file,
    which reports [io.EOF] on the call after the last bytes, and [io.EOF]
    over a source that reports it together with the last bytes.  How a
    decompressor delivers its end is therefore visible through the read
    primitives. *)
Lemma ReadSlice_sees_how_EOF_arrives :
  fst (bufio.ReadSlice (bufio.NewReader Examples.bufferfulFile) newline)
  = (Examples.bufferful, Some ErrBufferFull)
  /\ fst (bufio.ReadSlice
            (bufio.NewReader (Standin.mkEager Examples.bufferful)) newline)
     = (Examples.bufferful, Some EOF).
Proof. split; vm_compute; reflexivity. Qed.

End scenarios.

(** ** UnreadRune and the snapshot *)

Module chunkUnread.

Unset Implicit Arguments.

Import chunk.
Import Inv.

(** C6. [UnreadRune] writes the snapshot into the counters before it
    tries the push-back: the counters end up as the snapshot also when the
    call fails and the buffered stream stays as it was.  A second
    [UnreadRune] in a row fails and leaves [Offset()] and [LineCount()] at
    zero.  On "ab": after two [ReadRune] calls [Offset()] is 2; the first
    [UnreadRune] succeeds, the second fails and sets [Offset()] to 0 while
    the stream stands after the first letter. *)
Theorem UnreadRune_overwrites_before_failing :
  (forall (Src : Type) (io : IoReader Src) (r : Reader Src),
      let '(err, r') := UnreadRune r in
      Offset r' = prevOffset r /\ LineCount r' = prevLine r
      /\ match err with
         | Some _ => rd r' = rd r
         | None => True
         end
      /\ let '(err2, r'') := UnreadRune r' in
         err2 = Some ErrInvalidUnreadRune
         /\ Offset r'' = 0%Z /\ LineCount r'' = 0%Z)
  /\ (let r0 := Examples.plainReader "data.rdf" Examples.twoLetters in
      let '(_, _, _, r1) := ReadRune r0 in
      let '(_, _, _, r2) := ReadRune r1 in
      let '(err3, r3) := UnreadRune r2 in
      let '(err4, r4) := UnreadRune r3 in
      let '(char, _, _, _) := ReadRune r4 in
      Offset r2 = 2%Z
      /\ err3 = None /\ Offset r3 = 1%Z
      /\ err4 = Some ErrInvalidUnreadRune /\ Offset r4 = 0%Z
      /\ char = 0x62%Z).
Proof.
  split.
  - intros Src io r.
    pose proof (bufioUnread.UnreadRune_twice (rd r)) as Htwice.
    unfold UnreadRune.
    destruct (bufio.UnreadRune (rd r)) as [e b'] eqn:Hb.
    cbn [rd prevOffset prevLine snd] in *.
    split; [reflexivity|]. split; [reflexivity|]. split.
    + destruct e as [e|]; [|exact I].
      pose proof (bufioUnread.UnreadRune_error (rd r) (e:=e)) as Herr.
      rewrite Hb in Herr. cbn [fst snd] in Herr.
      now destruct (Herr eq_refl).
    + destruct (bufio.UnreadRune b') as [e2 b2]. cbn [fst] in Htwice.
      conjuncts; auto.
  - vm_compute. conjuncts; reflexivity.
Qed.

(** C10. Every read primitive stores the counters it found in the
    snapshot.  So [UnreadRune] right after a [ReadSlice] or [ReadString]
    puts [Offset()] and [LineCount()] back to their values before that
    call, while the buffered stream pushes nothing back and reports an
    error when the chunk was not empty.  On "hello\nworld": after
    [ReadSlice('\n')] and [UnreadRune], [Offset()] is 0 although six bytes
    are consumed, and the next [ReadSlice('\n')] returns "world" and
    leaves [Offset()] at 5. *)
Theorem every_read_overwrites_snapshot :
  (forall (Src : Type) (io : IoReader Src) (r : Reader Src) (delim : byte),
      (let '(slc, _, r1) := ReadSlice r delim in
       prevOffset r1 = offset r /\ prevLine r1 = line r
       /\ let '(err, r2) := UnreadRune r1 in
          Offset r2 = Offset r /\ LineCount r2 = LineCount r
          /\ match slc with
             | [] => True
             | _ :: _ => err = Some ErrInvalidUnreadRune /\ rd r2 = rd r1
             end)
      /\ (let '(str, _, r1) := ReadString r delim in
          prevOffset r1 = offset r /\ prevLine r1 = line r
          /\ let '(err, r2) := UnreadRune r1 in
             Offset r2 = Offset r /\ LineCount r2 = LineCount r
             /\ match str with
                | [] => True
                | _ :: _ => err = Some ErrInvalidUnreadRune /\ rd r2 = rd r1
                end)
      /\ (let '(_, _, _, r1) := ReadRune r in
          prevOffset r1 = offset r /\ prevLine r1 = line r))
  /\ (let r0 := Examples.plainReader "data.rdf" Examples.helloWorld in
      let '(s1, _, r1) := ReadSlice r0 newline in
      let '(err2, r2) := UnreadRune r1 in
      let '(s3, e3, r3) := ReadSlice r2 newline in
      s1 = [x68; x65; x6c; x6c; x6f; x0a]
      /\ Offset r1 = 6%Z /\ LineCount r1 = 1%Z
      /\ err2 = Some ErrInvalidUnreadRune
      /\ Offset r2 = 0%Z /\ LineCount r2 = 0%Z
      /\ s3 = [x77; x6f; x72; x6c; x64] /\ e3 = Some EOF
      /\ Offset r3 = 5%Z).
Proof.
  split.
  - intros Src io r delim. split; [|split].
    + unfold ReadSlice.
      destruct (bufio.ReadSlice (rd r) delim) as [[slc e] b1] eqn:Hb.
      cbn [prevOffset prevLine]. split; [reflexivity|]. split; [reflexivity|].
      unfold UnreadRune. cbn [rd prevOffset prevLine].
      destruct (@bufioUnread.ReadSlice_lastRuneSize Src io delim (rd r) _ _ _ Hb)
        as [Hne _].
      destruct slc as [|x slc].
      * destruct (bufio.UnreadRune b1) as [e2 b2]. conjuncts; auto.
      * rewrite (bufioUnread.UnreadRune_invalid b1)
          by (apply Hne; discriminate).
        conjuncts; auto.
    + unfold ReadString.
      destruct (bufio.ReadString (rd r) delim) as [[str e] b1] eqn:Hb.
      cbn [prevOffset prevLine]. split; [reflexivity|]. split; [reflexivity|].
      unfold UnreadRune. cbn [rd prevOffset prevLine].
      pose proof (@bufioUnread.ReadString_lastRuneSize Src io delim (rd r) _ _ _ Hb)
        as Hne.
      destruct str as [|x str].
      * destruct (bufio.UnreadRune b1) as [e2 b2]. conjuncts; auto.
      * rewrite (bufioUnread.UnreadRune_invalid b1)
          by (apply Hne; discriminate).
        conjuncts; auto.
    + unfold ReadRune.
      destruct (bufio.ReadRune (rd r)) as [[[c sz] e] b1].
      split; reflexivity.
  - vm_compute. conjuncts; reflexivity.
Qed.

(** C4 at "ab": the letter 'a' is read, pushed back and read again. *)
Lemma ReadRune_UnreadRune_ReadRune_witness :
  let r := Examples.plainReader "data.rdf" Examples.twoLetters in
  0 < length (bufio.buf (rd r))
  /\ fst (fst (ReadRune r)) = (0x61%Z, 1)
  /\ exists r2 r3,
       UnreadRune (snd (ReadRune r)) = (None, r2)
       /\ Offset r2 = Offset r
       /\ LineCount r2 = LineCount r
       /\ ReadRune r2 = (0x61%Z, 1, None, r3).
Proof.
  intros r.
  assert (Hlen : 0 < length (bufio.buf (rd r))).
  { destruct (scenarios.plainReader_wf "data.rdf" Examples.twoLetters)
      as (_ & _ & Hl).
    unfold r. rewrite Hl. unfold bufio.defaultBufSize. lia. }
  split; [exact Hlen|]. split; [vm_compute; reflexivity|].
  apply (chunkCounters.ReadRune_UnreadRune_ReadRune r Hlen).
  vm_compute. reflexivity.
Defined.

End chunkUnread.

(** ** Every reader over a file stays well-formed *)

Module fileInvariant.

Unset Implicit Arguments.

Import bufio.
Import Inv.

Implicit Type b : Reader os.File.

(** A decoded rune is at least one byte wide and no wider than what was
    there to decode. *)
Lemma DecodeRune_size (p : list byte) :
  p <> [] ->
  1 <= snd (utf8.DecodeRune p) /\ snd (utf8.DecodeRune p) <= length p.
Proof.
  intros Hp. unfold utf8.DecodeRune.
  destruct p as [|p0 [|b1 [|b2 [|b3 rest]]]]; [congruence| | | |];
    repeat match goal with
      | |- context [let '(_, _) := ?x in _] => destruct x
      | |- context [if ?c then _ else _] => destruct c
      end; simpl; lia.
Qed.

Lemma readRune_fill_file (fuel : nat) b :
  wf b ->
  wf (readRune_fill fuel b)
  /\ pending (readRune_fill fuel b) = pending b
  /\ length (buf (readRune_fill fuel b)) = length (buf b).
Proof.
  revert b. induction fuel as [|fuel IH]; intros b Hwf; simpl;
    destruct (runeWanted b) eqn:Hc; auto.
  apply bufioFacts.runeWanted_inv in Hc. destruct Hc as [_ Hroom].
  destruct (fileReads.fill_file Hwf Hroom) as (Hwf' & _ & Hlen & Hpend).
  destruct (IH _ Hwf') as (H1 & H2 & H3).
  rewrite H2, H3. auto.
Qed.

(** [ReadRune] over a file consumes the bytes of the rune it returns. *)
Lemma ReadRune_file b :
  wf b ->
  let '(_, size, _, b') := ReadRune b in
  wf b'
  /\ length (buf b') = length (buf b)
  /\ pending b = firstn size (pending b) ++ pending b'
  /\ size <= length (pending b).
Proof.
  intros Hwf. unfold ReadRune.
  destruct (readRune_fill_file (S (length (buf b))) b Hwf) as (Hwfx & Hpx & Hlx).
  set (bx := readRune_fill (S (length (buf b))) b) in *. clearbody bx.
  cbn [with_last r w buf rd err lastByte lastRuneSize].
  destruct Hwfx as (Hrw & Hwl & Hpos & He).
  destruct (r bx =? w bx) eqn:Hrx.
  - split; [|split; [exact Hlx|split; [now rewrite <- Hpx|lia]]].
    unfold wf. cbn [with_err with_last r w buf rd err].
    conjuncts; auto.
  - apply Nat.eqb_neq in Hrx.
    set (c0 := utf8.byteZ (nth (r bx) (buf bx) x00)).
    assert (Hsl : length (slice (buf bx) (r bx) (w bx)) = w bx - r bx)
      by (apply slice_length; lia).
    assert (Hsize :
      1 <= snd (if (c0 <? utf8.RuneSelf)%Z then (c0, 1)
                else utf8.DecodeRune (slice (buf bx) (r bx) (w bx)))
      /\ snd (if (c0 <? utf8.RuneSelf)%Z then (c0, 1)
              else utf8.DecodeRune (slice (buf bx) (r bx) (w bx)))
         <= w bx - r bx).
    { destruct (c0 <? utf8.RuneSelf)%Z; [simpl; lia|].
      rewrite <- Hsl. apply DecodeRune_size.
      intros Hnil. rewrite Hnil in Hsl. simpl in Hsl. lia. }
    destruct (if (c0 <? utf8.RuneSelf)%Z then (c0, 1)
              else utf8.DecodeRune (slice (buf bx) (r bx) (w bx)))
      as [c size].
    cbn [snd] in Hsize. destruct Hsize as [Hs1 Hs2].
    split; [|split; [exact Hlx|]].
    + unfold wf. cbn [r w buf rd err]. conjuncts; auto; lia.
    + rewrite <- Hpx. unfold pending. cbn [r w buf rd err].
      rewrite (slice_split (buf bx) (i:=r bx) (j:=r bx + size) (k:=w bx))
        by lia.
      assert (Hpre : length (slice (buf bx) (r bx) (r bx + size)) = size)
        by (rewrite slice_length by lia; lia).
      set (head := slice (buf bx) (r bx) (r bx + size)) in *.
      clearbody head. clear Hs1 Hs2. subst size.
      rewrite <- !app_assoc, firstn_exact, length_app.
      split; [reflexivity | lia].
Qed.

Lemma UnreadRune_file b : wf b -> wf (snd (UnreadRune b)).
Proof.
  intros Hwf. unfold UnreadRune.
  destruct ((lastRuneSize b <? 0)%Z || (Z.of_nat (r b) <? lastRuneSize b)%Z)%bool;
    cbn [snd]; [exact Hwf|].
  destruct Hwf as (Hrw & Hwl & Hpos & He).
  unfold wf. cbn [r w buf rd err]. conjuncts; auto; lia.
Qed.

(** The buffered reader of a plain reader is well-formed after any
    sequence of calls of the package. *)
Lemma afterAll_wf (calls : list Calls.anyCall) (r0 : chunk.Reader os.File) :
  wf (chunk.rd r0) -> wf (chunk.rd (Calls.afterAll r0 calls)).
Proof.
  revert r0. induction calls as [|c calls IH]; intros r0 Hwf; simpl; auto.
  apply IH. destruct c as [[delim|delim|]|]; simpl.
  - unfold chunk.ReadSlice.
    destruct (ReadSlice (chunk.rd r0) delim) as [[slc e] b'] eqn:Hb.
    cbn [snd chunk.rd]. now destruct (fileReads.ReadSlice_file _ Hwf Hb).
  - unfold chunk.ReadString.
    destruct (ReadString (chunk.rd r0) delim) as [[str e] b'] eqn:Hb.
    cbn [snd chunk.rd]. now destruct (fileReads.ReadString_file _ Hwf Hb).
  - unfold chunk.ReadRune. pose proof (ReadRune_file (chunk.rd r0) Hwf) as Hr.
    destruct (ReadRune (chunk.rd r0)) as [[[c sz] e] b'].
    cbn [snd chunk.rd]. now destruct Hr.
  - unfold chunk.UnreadRune. pose proof (UnreadRune_file (chunk.rd r0) Hwf) as Hu.
    destruct (UnreadRune (chunk.rd r0)) as [e b']. exact Hu.
Qed.

Lemma plainReader_always_wf (name : string) (content : list byte)
  (calls : list Calls.anyCall) :
  wf (chunk.rd (Calls.afterAll (Examples.plainReader name content) calls)).
Proof.
  apply afterAll_wf. apply scenarios.plainReader_wf.
Qed.

End fileInvariant.

(** ** The end is recorded late, after every call *)

Module fileEofAlways.

Unset Implicit Arguments.

Import bufio.
Import Inv.

Implicit Type b : Reader os.File.

Lemma readRune_fill_eofLate (fuel : nat) b :
  wf b -> eofLate b -> eofLate (readRune_fill fuel b).
Proof.
  revert b. induction fuel as [|fuel IH]; intros b Hwf Hlate; simpl;
    destruct (runeWanted b) eqn:Hc; auto.
  apply bufioFacts.runeWanted_inv in Hc. destruct Hc as [He Hroom].
  destruct (fileReads.fill_file Hwf Hroom) as (Hwf' & _).
  apply IH; [exact Hwf' | now apply fileEof.fill_eofLate].
Qed.

Lemma ReadRune_eofLate b :
  wf b -> eofLate b ->
  let '(_, _, _, b') := ReadRune b in eofLate b'.
Proof.
  intros Hwf Hlate. unfold ReadRune.
  destruct (fileInvariant.readRune_fill_file (S (length (buf b))) b Hwf)
    as (Hwfx & _ & _).
  pose proof (readRune_fill_eofLate (S (length (buf b))) b Hwf Hlate)
    as Hlatex.
  set (bx := readRune_fill (S (length (buf b))) b) in *. clearbody bx.
  cbn [with_last r w buf rd err lastByte lastRuneSize].
  destruct Hwfx as (Hrw & Hwl & Hpos & He).
  destruct (r bx =? w bx) eqn:Hrx.
  - now apply fileEof.eofLate_none.
  - apply Nat.eqb_neq in Hrx.
    assert (Hsl : length (slice (buf bx) (r bx) (w bx)) = w bx - r bx)
      by (apply slice_length; lia).
    set (p0 := nth (r bx) (buf bx) x00).
    assert (Hsize : snd (if (utf8.byteZ p0 <? utf8.RuneSelf)%Z
                         then (utf8.byteZ p0, 1)
                         else utf8.DecodeRune (slice (buf bx) (r bx) (w bx)))
                    <= w bx - r bx).
    { destruct (utf8.byteZ p0 <? utf8.RuneSelf)%Z; [simpl; lia|].
      rewrite <- Hsl. apply fileInvariant.DecodeRune_size.
      intros Hnil. rewrite Hnil in Hsl. simpl in Hsl. lia. }
    destruct (if (utf8.byteZ p0 <? utf8.RuneSelf)%Z
              then (utf8.byteZ p0, 1)
              else utf8.DecodeRune (slice (buf bx) (r bx) (w bx)))
      as [c size].
    cbn [snd] in Hsize.
    intros Hne. cbn [err] in Hne. destruct (Hlatex Hne) as [Hb _].
    unfold UnreadRune, Buffered in *. cbn [r w buf lastRuneSize] in *.
    destruct ((Z.of_nat size <? 0)%Z
              || (Z.of_nat (r bx + size) <? Z.of_nat size)%Z)%bool;
      cbn [snd r w]; lia.
Qed.

Lemma UnreadRune_eofLate b : eofLate b -> eofLate (snd (UnreadRune b)).
Proof.
  intros Hlate.
  destruct ((lastRuneSize b <? 0)%Z
            || (Z.of_nat (r b) <? lastRuneSize b)%Z)%bool eqn:Hc.
  - unfold UnreadRune. rewrite Hc. exact Hlate.
  - apply fileEof.eofLate_no_rune.
    + unfold UnreadRune. rewrite Hc. reflexivity.
    + intros Hne.
      assert (Hne' : err b <> None)
        by (revert Hne; unfold UnreadRune; rewrite Hc; cbn [snd err]; auto).
      destruct (Hlate Hne') as [_ Hb]. revert Hb.
      unfold UnreadRune. rewrite Hc. cbn [snd buf]. auto.
Qed.

(** Every plain reader is well-formed and records the end late, after any
    sequence of calls of the package. *)
Lemma afterAll_eofLate (calls : list Calls.anyCall)
  (r0 : chunk.Reader os.File) :
  wf (chunk.rd r0) -> eofLate (chunk.rd r0) ->
  wf (chunk.rd (Calls.afterAll r0 calls))
  /\ eofLate (chunk.rd (Calls.afterAll r0 calls)).
Proof.
  revert r0. induction calls as [|c calls IH]; intros r0 Hwf Hlate; simpl;
    auto.
  apply IH; destruct c as [[delim|delim|]|]; simpl.
  - unfold chunk.ReadSlice.
    destruct (ReadSlice (chunk.rd r0) delim) as [[slc e] b'] eqn:Hb.
    cbn [snd chunk.rd]. now destruct (fileReads.ReadSlice_file _ Hwf Hb).
  - unfold chunk.ReadString.
    destruct (ReadString (chunk.rd r0) delim) as [[str e] b'] eqn:Hb.
    cbn [snd chunk.rd]. now destruct (fileReads.ReadString_file _ Hwf Hb).
  - unfold chunk.ReadRune.
    pose proof (fileInvariant.ReadRune_file (chunk.rd r0) Hwf) as Hr.
    destruct (ReadRune (chunk.rd r0)) as [[[c sz] e] b'].
    cbn [snd chunk.rd]. now destruct Hr.
  - unfold chunk.UnreadRune.
    pose proof (fileInvariant.UnreadRune_file (chunk.rd r0) Hwf) as Hu.
    destruct (UnreadRune (chunk.rd r0)) as [e b']. exact Hu.
  - unfold chunk.ReadSlice.
    destruct (ReadSlice (chunk.rd r0) delim) as [[slc e] b'] eqn:Hb.
    cbn [snd chunk.rd].
    now destruct (fileEof.ReadSlice_eofLate _ _ _ _ _ Hwf Hlate Hb).
  - unfold chunk.ReadString.
    destruct (ReadString (chunk.rd r0) delim) as [[str e] b'] eqn:Hb.
    cbn [snd chunk.rd].
    exact (fileEof.ReadString_eofLate _ _ _ _ _ Hwf Hlate Hb).
  - unfold chunk.ReadRune.
    pose proof (ReadRune_eofLate (chunk.rd r0) Hwf Hlate) as Hr.
    destruct (ReadRune (chunk.rd r0)) as [[[c sz] e] b'].
    cbn [snd chunk.rd]. exact Hr.
  - unfold chunk.UnreadRune.
    pose proof (UnreadRune_eofLate (chunk.rd r0) Hlate) as Hu.
    destruct (UnreadRune (chunk.rd r0)) as [e b']. exact Hu.
Qed.

End fileEofAlways.

(** ** [ReadString] returns, over any lawful source *)

Module bufioBounds.

Unset Implicit Arguments.

Import bufio.
Import Inv.

#[global] Instance File_laws : IoReaderLaws os.File.
Proof.
  split.
  - intros f k bs e f'. cbn [Read File_IoReader]. unfold os.FileRead.
    destruct k as [|k]; [intros Hr; injection Hr as <- _ _; simpl; lia|].
    destruct (os.unread f) as [|x rest];
      intros Hr; injection Hr as <- _ _; [simpl; lia|].
    pose proof (firstn_le_length k rest). simpl. lia.
  - intros f k bs e f'. cbn [Read limit File_IoReader]. unfold os.FileRead.
    destruct k as [|k]; [intros Hr; injection Hr as <- _ <-; simpl; lia|].
    destruct (os.unread f) as [|x rest] eqn:Hun;
      intros Hr; injection Hr as <- _ <-.
    + rewrite Hun. simpl. lia.
    + pose proof (f_equal (@length byte) (firstn_skipn k rest)) as Hsum.
      rewrite length_app in Hsum. simpl. lia.
  - intros f k bs f'. cbn [Read File_IoReader]. unfold os.FileRead.
    destruct k as [|k]; [discriminate|].
    destruct (os.unread f); discriminate.
Qed.

Section Bounds.

Context {Src : Type} {io : IoReader Src} {laws : IoReaderLaws Src}.

Implicit Type b : Reader Src.

Lemma fill_tries_bounds (i : nat) b :
  inBounds b ->
  inBounds (fill_tries i b) /\ budget (fill_tries i b) <= budget b.
Proof.
  revert b. induction i as [|i IH]; intros b Hb; simpl.
  - destruct Hb as (Hrw & Hwl & Hpos & He).
    split; [|unfold budget, Buffered; simpl; lia].
    unfold inBounds. cbn [with_err r w buf err]. conjuncts; auto. discriminate.
  - destruct (Read (rd b) (length (buf b) - w b)) as [[data e] src'] eqn:HR.
    pose proof (Read_fits _ _ HR) as Hfit.
    pose proof (Read_limit _ _ HR) as Hlim.
    destruct Hb as (Hrw & Hwl & Hpos & He).
    assert (Hb' : forall e', e' <> Some ErrBufferFull ->
              inBounds (mkReader (write_at (buf b) (w b) data) src' (r b)
                          (w b + length data) e' (lastByte b) (lastRuneSize b))).
    { intros e' He'. unfold inBounds. cbn [r w buf err].
      rewrite write_at_length. conjuncts; auto; lia. }
    assert (Hbudget : forall e',
              budget (mkReader (write_at (buf b) (w b) data) src' (r b)
                        (w b + length data) e' (lastByte b) (lastRuneSize b))
              <= budget b)
      by (intros e'; unfold budget, Buffered; cbn [r w buf rd]; lia).
    destruct e as [e|].
    + split; [|apply Hbudget]. apply Hb'.
      intros Heq. injection Heq as ->. revert HR. apply Read_error.
    + destruct (0 <? length data).
      * split; [now apply Hb' | apply Hbudget].
      * destruct (IH _ (Hb' _ He)) as [H1 H2].
        split; [exact H1|]. specialize (Hbudget (err b)). lia.
Qed.

Lemma fill_bounds b :
  inBounds b -> inBounds (fill b) /\ budget (fill b) <= budget b.
Proof.
  intros Hb. unfold fill.
  assert (Hs : inBounds (slide b) /\ budget (slide b) = budget b).
  { destruct Hb as (Hrw & Hwl & Hpos & He). unfold slide.
    destruct (0 <? r b); [|unfold inBounds; auto].
    unfold inBounds, budget, Buffered. cbn [r w buf rd err].
    rewrite copy_length. conjuncts; auto; lia. }
  destruct Hs as [Hs1 Hs2].
  destruct (fill_tries_bounds maxConsecutiveEmptyReads _ Hs1) as [H1 H2].
  split; [exact H1 | lia].
Qed.

(** What [ReadSlice] hands out comes off the budget, and a full buffer is
    reported only with a whole buffer. *)
Lemma readSlice_loop_bounds (fuel : nat) (delim : byte) (s : nat) b
  line e b' :
  inBounds b ->
  readSlice_loop fuel delim s b = Some (line, e, b') ->
  inBounds b'
  /\ length (buf b') = length (buf b)
  /\ budget b' + length line <= budget b
  /\ (e = Some ErrBufferFull -> length line = length (buf b)).
Proof.
  revert s b. induction fuel as [|fuel IH]; intros s b Hb; simpl.
  all: destruct (IndexByte (slice (buf b) (r b + s) (w b)) delim)
         as [i|] eqn:Hidx.
  1, 3:
    intros Hres; injection Hres as <- <- <-;
    destruct Hb as (Hrw & Hwl & Hpos & He);
    apply fileReads.IndexByte_Some in Hidx; destruct Hidx as [Hlt _];
    rewrite slice_length in Hlt by lia;
    (split; [unfold inBounds; cbn [with_r buf r w err]; conjuncts; auto; lia|]);
    (split; [reflexivity|]);
    (split; [|discriminate]);
    unfold budget, Buffered; cbn [with_r buf r w rd];
    rewrite slice_length by lia; lia.
  all: destruct (err b) as [e0|] eqn:Herr.
  1, 3:
    intros Hres; injection Hres as <- <- <-;
    destruct Hb as (Hrw & Hwl & Hpos & He);
    (split; [unfold inBounds; cbn [with_r with_err buf r w err];
             conjuncts; auto; try lia; discriminate|]);
    (split; [reflexivity|]);
    (split; [|congruence]);
    unfold budget, Buffered; cbn [with_r with_err buf r w rd];
    rewrite slice_length by lia; lia.
  all: destruct (length (buf b) <=? Buffered b) eqn:Hfull.
  1, 3:
    intros Hres; injection Hres as <- <- <-;
    destruct Hb as (Hrw & Hwl & Hpos & He);
    apply Nat.leb_le in Hfull; unfold Buffered in Hfull;
    (split; [unfold inBounds; cbn [with_r buf r w err];
             conjuncts; auto; lia|]);
    (split; [reflexivity|]);
    (split; [|reflexivity]);
    unfold budget, Buffered; cbn [with_r buf r w rd]; lia.
  - discriminate.
  - intros Hres.
    destruct (fill_bounds b Hb) as [Hb1 Hbud1].
    destruct (IH _ _ Hb1 Hres) as (H1 & H2 & H3 & H4).
    destruct (bufioFacts.fill_facts b) as (Hlen & _).
    rewrite Hlen in H2, H4. conjuncts; auto. lia.
Qed.

Lemma ReadSlice_bounds (delim : byte) b line e b' :
  inBounds b ->
  ReadSlice b delim = (line, e, b') ->
  inBounds b'
  /\ length (buf b') = length (buf b)
  /\ budget b' + length line <= budget b
  /\ (e = Some ErrBufferFull -> length line = length (buf b)).
Proof.
  intros Hb. unfold ReadSlice.
  destruct (readSlice_loop (S (length (buf b))) delim 0 b)
    as [[[line1 e1] b1]|] eqn:Hloop.
  - intros Hres. injection Hres as <- <- <-.
    destruct (readSlice_loop_bounds _ _ _ _ _ _ _ Hb Hloop)
      as (H1 & H2 & H3 & H4).
    destruct line1; simpl; auto.
  - exfalso. revert Hloop. apply bufioFacts.ReadSlice_returns.
Qed.

(** The loop of [ReadString] returns within its counter. *)
Lemma collect_returns (fuel : nat) (delim : byte) (full : list byte) b :
  inBounds b -> budget b <= fuel -> collect fuel delim full b <> None.
Proof.
  revert full b. induction fuel as [|fuel IH]; intros full b Hb Hfuel; simpl.
  all: destruct (ReadSlice b delim) as [[frag e1] b1] eqn:HRS.
  all: destruct (ReadSlice_bounds _ _ _ _ _ Hb HRS) as (Hb1 & Hlen1 & Hbud & Hfull).
  all: destruct e1 as [[| | | | |msg]|]; try discriminate.
  all: specialize (Hfull eq_refl); pose proof Hb as (_ & _ & Hpos & _).
  - lia.
  - apply IH; [exact Hb1 | lia].
Qed.

Lemma ReadString_returns (delim : byte) b :
  inBounds b -> collect (Buffered b + limit (rd b)) delim [] b <> None.
Proof. intros Hb. apply collect_returns; [exact Hb | reflexivity]. Qed.

End Bounds.

End bufioBounds.

(** ** Lines: where the delimiter is in what [ReadSlice] returns *)

Module bufioLines.

Unset Implicit Arguments.

Import bufio.
Import Inv.

Lemma byte_eqb_neq (x y : byte) : Byte.eqb x y = false -> x <> y.
Proof.
  intros Hx Heq. subst y. rewrite (Byte.byte_dec_lb eq_refl) in Hx.
  discriminate.
Qed.

Lemma IndexByte_None_inv (l : list byte) (c : byte) :
  IndexByte l c = None -> ~ In c l.
Proof.
  induction l as [|x l IH]; simpl; [tauto|].
  destruct (Byte.eqb x c) eqn:Hx; [discriminate|].
  destruct (IndexByte l c); [discriminate|].
  intros _ [Heq|Hin]; [|now apply IH].
  now apply byte_eqb_neq in Hx.
Qed.

(** [IndexByte] finds the first occurrence. *)
Lemma IndexByte_Some_split (l : list byte) (c : byte) (i : nat) :
  IndexByte l c = Some i ->
  ~ In c (firstn i l) /\ firstn (S i) l = firstn i l ++ [c].
Proof.
  revert i. induction l as [|x l IH]; intros i; simpl; [discriminate|].
  destruct (Byte.eqb x c) eqn:Hx.
  - intros Hi. injection Hi as <-. apply fileReads.byte_eqb_eq in Hx.
    subst x. simpl. split; [tauto | reflexivity].
  - destruct (IndexByte l c) as [j|]; [|discriminate].
    intros Hi. injection Hi as <-.
    destruct (IH j eq_refl) as [Hnot Hsplit].
    apply byte_eqb_neq in Hx. split.
    + simpl. intros [Heq|Hin]; [contradiction | now apply Hnot].
    + change (firstn (S (S j)) (x :: l)) with (x :: firstn (S j) l).
      rewrite Hsplit. reflexivity.
Qed.

Lemma slice_0 {A : Type} (s : list A) (j : nat) : slice s 0 j = firstn j s.
Proof. unfold slice. cbn [skipn]. now rewrite Nat.sub_0_r. Qed.

Section Lines.

Context {Src : Type} {io : IoReader Src} {laws : IoReaderLaws Src}.

Implicit Type b : Reader Src.

Lemma fill_tries_keeps (i : nat) b :
  w b <= length (buf b) ->
  firstn (w b) (buf (fill_tries i b)) = firstn (w b) (buf b).
Proof.
  revert b. induction i as [|i IH]; intros b Hw; simpl; [reflexivity|].
  destruct (Read (rd b) (length (buf b) - w b)) as [[data e] src'].
  assert (Hkeep : firstn (w b) (write_at (buf b) (w b) data)
                  = firstn (w b) (buf b)).
  { unfold write_at.
    assert (Hl : length (firstn (w b) (buf b)) = w b)
      by (rewrite length_firstn; lia).
    rewrite <- Hl at 1. apply firstn_exact. }
  destruct e as [e|]; [exact Hkeep|].
  destruct (0 <? length data) eqn:Hdata; [exact Hkeep|].
  apply Nat.ltb_ge in Hdata.
  replace (w b + length data) with (w b) by lia.
  match goal with |- context [fill_tries i ?x] => specialize (IH x) end.
  cbn [w buf] in IH. rewrite write_at_length in IH.
  rewrite IH by exact Hw. exact Hkeep.
Qed.

Lemma slide_keeps b :
  r b <= w b -> w b <= length (buf b) ->
  firstn (w (slide b)) (buf (slide b)) = slice (buf b) (r b) (w b)
  /\ w (slide b) = w b - r b
  /\ w (slide b) <= length (buf (slide b)).
Proof.
  intros Hrw Hwl. unfold slide. destruct (0 <? r b) eqn:Hr.
  - cbn [r w buf]. rewrite copy_length.
    assert (Hsl : length (slice (buf b) (r b) (w b)) = w b - r b)
      by now apply slice_length.
    split; [|split; [reflexivity | lia]].
    rewrite fileReads.copy_fits by lia. rewrite <- Hsl at 1.
    apply firstn_exact.
  - apply Nat.ltb_ge in Hr. assert (Hr0 : r b = 0) by lia.
    split; [|split; [lia | exact Hwl]].
    unfold slice. rewrite Hr0. simpl. now rewrite Nat.sub_0_r.
Qed.

(** [fill] keeps what was buffered, at the front of the buffer. *)
Lemma fill_keeps b :
  r b <= w b -> w b <= length (buf b) ->
  slice (buf (fill b)) 0 (Buffered b) = slice (buf b) (r b) (w b).
Proof.
  intros Hrw Hwl.
  destruct (slide_keeps b Hrw Hwl) as (Hkeep & Hw & Hfit).
  rewrite slice_0. unfold fill, Buffered.
  rewrite <- Hw, fill_tries_keeps by exact Hfit. exact Hkeep.
Qed.

(** The loop of [ReadSlice] stops at the first delimiter: the area before
    the search start holds none. *)
Lemma readSlice_loop_shape (fuel : nat) (delim : byte) (s : nat) b
  line e b' :
  inBounds b -> s <= Buffered b ->
  ~ In delim (slice (buf b) (r b) (r b + s)) ->
  readSlice_loop fuel delim s b = Some (line, e, b') ->
  lineShape delim line e.
Proof.
  revert s b. induction fuel as [|fuel IH]; intros s b Hb Hs Hscanned; simpl.
  all: destruct (IndexByte (slice (buf b) (r b + s) (w b)) delim)
         as [i|] eqn:Hidx.
  1, 3:
    intros Hres; injection Hres as <- <- <-;
    destruct Hb as (Hrw & Hwl & Hpos & He); unfold Buffered in Hs;
    pose proof (@fileReads.IndexByte_Some _ _ _ Hidx) as [Hlt _];
    rewrite slice_length in Hlt by lia;
    apply IndexByte_Some_split in Hidx; destruct Hidx as [Hnot Hsplit];
    exists (slice (buf b) (r b) (r b + s)
            ++ firstn i (slice (buf b) (r b + s) (w b)));
    (split; [|intros Hin; apply in_app_or in Hin; tauto]);
    rewrite (slice_split (buf b) (i:=r b) (j:=r b + s) (k:=r b + (i + s) + 1))
      by lia;
    rewrite <- app_assoc, <- Hsplit; f_equal;
    unfold slice; rewrite firstn_firstn; f_equal; lia.
  all: assert (Hnone : ~ In delim (slice (buf b) (r b) (w b)))
    by (destruct Hb as (Hrw & Hwl & _); unfold Buffered in Hs;
        rewrite (slice_split (buf b) (i:=r b) (j:=r b + s) (k:=w b)) by lia;
        intros Hin; apply in_app_or in Hin;
        apply IndexByte_None_inv in Hidx; tauto).
  all: destruct (err b) as [e0|] eqn:Herr.
  1, 3: intros Hres; injection Hres as <- <- <-; exact Hnone.
  all: destruct (length (buf b) <=? Buffered b) eqn:Hfull.
  1, 3:
    intros Hres; injection Hres as <- <- <-;
    destruct Hb as (Hrw & Hwl & Hpos & He);
    apply Nat.leb_le in Hfull; unfold Buffered in Hfull;
    assert (Hr0 : r b = 0) by lia;
    assert (Hwfull : w b = length (buf b)) by lia;
    rewrite Hr0, Hwfull, slice_full in Hnone; exact Hnone.
  - discriminate.
  - intros Hres.
    destruct (bufioBounds.fill_bounds b Hb) as [Hb1 _].
    destruct (bufioFacts.fill_facts b) as (_ & Hr0 & _ & Hgrow & _).
    eapply (IH (w b - r b) (fill b)); [exact Hb1 | exact Hgrow | | exact Hres].
    rewrite Hr0. destruct Hb as (Hrw & Hwl & _).
    change (0 + (w b - r b)) with (Buffered b).
    rewrite fill_keeps by assumption. exact Hnone.
Qed.

Lemma ReadSlice_shape (delim : byte) b line e b' :
  inBounds b ->
  ReadSlice b delim = (line, e, b') ->
  lineShape delim line e.
Proof.
  intros Hb. unfold ReadSlice.
  destruct (readSlice_loop (S (length (buf b))) delim 0 b)
    as [[[line1 e1] b1]|] eqn:Hloop.
  - intros Hres. injection Hres as <- <- <-.
    eapply (readSlice_loop_shape _ delim 0 b);
      [exact Hb | lia | | exact Hloop].
    rewrite slice_nil by lia. tauto.
  - exfalso. revert Hloop. apply bufioFacts.ReadSlice_returns.
Qed.

Lemma collect_shape (fuel : nat) (delim : byte) (full : list byte) b
  str e b' :
  inBounds b -> ~ In delim full ->
  collect fuel delim full b = Some (str, e, b') ->
  lineShape delim str e.
Proof.
  revert full b. induction fuel as [|fuel IH]; intros full b Hb Hfull; simpl.
  all: destruct (ReadSlice b delim) as [[frag e1] b1] eqn:HRS.
  all: pose proof (ReadSlice_shape _ _ _ _ _ Hb HRS) as Hshape.
  all: destruct (bufioBounds.ReadSlice_bounds _ _ _ _ _ Hb HRS) as (Hb1 & _).
  all: assert (Hjoin : forall e2, e1 = Some e2 -> ~ In delim (full ++ frag))
    by (intros e2 ->; simpl in Hshape; intros Hin;
        apply in_app_or in Hin; tauto).
  all: destruct e1 as [[| | | | |msg]|]; try discriminate.
  all: try (intros Hres; injection Hres as <- <- <-;
            simpl; eapply Hjoin; reflexivity).
  all: try (intros Hres; injection Hres as <- <- <-;
            simpl in Hshape |- *; destruct Hshape as (pre & -> & Hpre);
            exists (full ++ pre);
            split; [now rewrite app_assoc|];
            intros Hin; apply in_app_or in Hin; tauto).
  intros Hres. eapply (IH (full ++ frag) b1); [exact Hb1 | | exact Hres].
  eapply Hjoin. reflexivity.
Qed.

Lemma ReadString_shape (delim : byte) b str e b' :
  inBounds b ->
  ReadString b delim = (str, e, b') ->
  lineShape delim str e.
Proof.
  intros Hb. unfold ReadString.
  destruct (collect (Buffered b + limit (rd b)) delim [] b)
    as [[[str1 e1] b1]|] eqn:Hc.
  - intros Hres. injection Hres as <- <- <-.
    eapply (collect_shape _ delim [] b); [exact Hb | simpl; tauto | exact Hc].
  - exfalso. revert Hc. now apply bufioBounds.ReadString_returns.
Qed.

End Lines.

End bufioLines.

(** ** chunk.Reader: lines *)

Module chunkLines.

Unset Implicit Arguments.

Import chunk.
Import Inv.
Import GoIntFacts.

Lemma countLines_app (a b : list byte) (l : Z) :
  countLines (a ++ b) l = countLines b (countLines a l).
Proof. unfold countLines. apply fold_left_app. Qed.

Lemma countLines_none (slc : list byte) (l : Z) :
  ~ In newline slc -> countLines slc l = l.
Proof.
  unfold countLines. revert l.
  induction slc as [|x slc IH]; intros l Hnot; simpl; [reflexivity|].
  destruct (Byte.eqb x newline) eqn:Hx.
  - apply fileReads.byte_eqb_eq in Hx. subst x. exfalso. apply Hnot. now left.
  - apply IH. intros Hin. apply Hnot. now right.
Qed.

Lemma countByte_none (c : byte) (l : list byte) :
  ~ In c l -> countByte c l = 0.
Proof.
  induction l as [|x l IH]; intros Hnot; simpl; [reflexivity|].
  destruct (Byte.eqb x c) eqn:Hx.
  - apply fileReads.byte_eqb_eq in Hx. subst x. exfalso. apply Hnot. now left.
  - apply IH. intros Hin. apply Hnot. now right.
Qed.

Lemma countByte_app (c : byte) (a b : list byte) :
  countByte c (a ++ b) = countByte c a + countByte c b.
Proof. induction a as [|x a IH]; simpl; [reflexivity | rewrite IH; lia]. Qed.

Lemma wf_inBounds (b : bufio.Reader os.File) : wf b -> inBounds b.
Proof.
  intros (Hrw & Hwl & Hpos & He). unfold inBounds. conjuncts; auto.
  destruct He as [He|[He _]]; rewrite He; discriminate.
Qed.

Section AnySource.

Context {Src : Type} {io : IoReader Src} {laws : IoReaderLaws Src}.

(** X1. Over any lawful source, what [ReadSlice] returns without an error
    is one line: it ends in the delimiter and holds no other; what it
    returns with an error holds no delimiter.  So [ReadSlice('\n')] adds
    exactly one to [LineCount()] when it succeeds and nothing when it
    fails. *)
Theorem ReadSlice_returns_one_line (r : Reader Src) (delim : byte) :
  inBounds (rd r) ->
  (let '(slc, e, _) := ReadSlice r delim in lineShape delim slc e)
  /\ (let '(_, e, r') := ReadSlice r newline in
      LineCount r'
      = match e with
        | None => GoInt.add (LineCount r) 1
        | Some _ => LineCount r
        end).
Proof.
  intros Hb. split.
  - unfold ReadSlice.
    destruct (bufio.ReadSlice (rd r) delim) as [[slc e] b'] eqn:HRS.
    exact (bufioLines.ReadSlice_shape _ _ _ _ _ Hb HRS).
  - unfold ReadSlice.
    destruct (bufio.ReadSlice (rd r) newline) as [[slc e] b'] eqn:HRS.
    pose proof (bufioLines.ReadSlice_shape _ _ _ _ _ Hb HRS) as Hshape.
    unfold LineCount. cbn [line].
    destruct e as [e|]; simpl in Hshape.
    + now apply countLines_none.
    + destruct Hshape as (pre & -> & Hpre).
      rewrite countLines_app, (countLines_none pre) by exact Hpre.
      reflexivity.
Qed.

(** X2. The same for [ReadString]: a string returned without an error
    ends in the delimiter and holds no other, one returned with an error
    holds none; [ReadString('\n')] adds one to [LineCount()] exactly when
    it succeeds. *)
Theorem ReadString_returns_one_line (r : Reader Src) (delim : byte) :
  inBounds (rd r) ->
  (let '(str, e, _) := ReadString r delim in lineShape delim str e)
  /\ (let '(_, e, r') := ReadString r newline in
      LineCount r'
      = GoInt.add (LineCount r)
          (match e with None => 1 | Some _ => 0 end)).
Proof.
  intros Hb. split.
  - unfold ReadString.
    destruct (bufio.ReadString (rd r) delim) as [[str e] b'] eqn:HRS.
    exact (bufioLines.ReadString_shape _ _ _ _ _ Hb HRS).
  - unfold ReadString.
    destruct (bufio.ReadString (rd r) newline) as [[str e] b'] eqn:HRS.
    pose proof (bufioLines.ReadString_shape _ _ _ _ _ Hb HRS) as Hshape.
    unfold LineCount. cbn [line]. f_equal.
    destruct e as [e|]; simpl in Hshape.
    + now rewrite countByte_none.
    + destruct Hshape as (pre & -> & Hpre).
      rewrite countByte_app, (countByte_none _ pre) by exact Hpre.
      reflexivity.
Qed.

End AnySource.

(** X1 on "hello\nworld". *)
Lemma ReadSlice_returns_one_line_witness :
  let r := Examples.plainReader "data.rdf" Examples.helloWorld in
  inBounds (rd r)
  /\ (let '(slc, e, _) := ReadSlice r newline in lineShape newline slc e)
  /\ (let '(_, e, r') := ReadSlice r newline in
      LineCount r'
      = match e with
        | None => GoInt.add (LineCount r) 1
        | Some _ => LineCount r
        end).
Proof.
  intros r.
  assert (Hb : inBounds (rd r))
    by (apply wf_inBounds, scenarios.plainReader_wf).
  split; [exact Hb|].
  exact (ReadSlice_returns_one_line r newline Hb).
Defined.

(** X2 on "hello\nworld". *)
Lemma ReadString_returns_one_line_witness :
  let r := Examples.plainReader "data.rdf" Examples.helloWorld in
  inBounds (rd r)
  /\ (let '(str, e, _) := ReadString r newline in lineShape newline str e)
  /\ (let '(_, e, r') := ReadString r newline in
      LineCount r'
      = GoInt.add (LineCount r)
          (match e with None => 1 | Some _ => 0 end)).
Proof.
  intros r.
  assert (Hb : inBounds (rd r))
    by (apply wf_inBounds, scenarios.plainReader_wf).
  split; [exact Hb|].
  exact (ReadString_returns_one_line r newline Hb).
Defined.

End chunkLines.

(** ** chunk.Reader over a file: the next line *)

Module fileLines.

Unset Implicit Arguments.

Import chunk.
Import Inv.

Implicit Type r : Reader os.File.

(** The first occurrence of a byte splits a list in one way only. *)
Lemma first_delim_unique (d : byte) (pre pre' post post' : list byte) :
  pre ++ d :: post = pre' ++ d :: post' ->
  ~ In d pre -> ~ In d pre' -> pre = pre' /\ post = post'.
Proof.
  revert pre'. induction pre as [|x pre IH]; intros [|y pre'] Heq Hn Hn'.
  - injection Heq as ->. auto.
  - injection Heq as <- _. exfalso. apply Hn'. now left.
  - injection Heq as -> _. exfalso. apply Hn. now left.
  - injection Heq as -> Heq.
    destruct (IH pre' Heq) as [-> ->]; auto.
    + intros Hin. apply Hn. now right.
    + intros Hin. apply Hn'. now right.
Qed.

(** Bytes without the delimiter at the head of a stream lie before the
    first delimiter. *)
Lemma before_first_delim (d : byte) (line rest pre post : list byte) :
  line ++ rest = pre ++ d :: post ->
  ~ In d line -> ~ In d pre ->
  exists k, pre = line ++ k /\ rest = k ++ d :: post.
Proof.
  revert pre. induction line as [|x line IH]; intros pre Heq Hn Hn'.
  - exists pre. auto.
  - destruct pre as [|y pre].
    + injection Heq as -> _. exfalso. apply Hn. now left.
    + injection Heq as -> Heq.
      destruct (IH pre Heq) as (k & -> & ->).
      * intros Hin. apply Hn. now right.
      * intros Hin. apply Hn'. now right.
      * exists k. auto.
Qed.

Lemma bufio_ReadSlice_next_line (b : bufio.Reader os.File) (delim : byte)
  (pre post line : list byte) (e : option error) (b' : bufio.Reader os.File) :
  wf b -> pending b = pre ++ delim :: post -> ~ In delim pre ->
  bufio.ReadSlice b delim = (line, e, b') ->
  wf b'
  /\ length (bufio.buf b') = length (bufio.buf b)
  /\ ((length pre < length (bufio.buf b) ->
       line = pre ++ [delim] /\ e = None /\ pending b' = post)
      /\ (length (bufio.buf b) <= length pre ->
          line = firstn (length (bufio.buf b)) pre
          /\ e = Some ErrBufferFull
          /\ pending b'
             = skipn (length (bufio.buf b)) pre ++ delim :: post)).
Proof.
  intros Hwf Hpend Hpre HRS.
  destruct (fileReads.ReadSlice_file _ Hwf HRS)
    as (Hwf' & Hlen & Hcons & Hout & Hle).
  pose proof (bufioLines.ReadSlice_shape _ _ _ _ _
                (chunkLines.wf_inBounds _ Hwf) HRS) as Hshape.
  rewrite Hpend in Hcons. symmetry in Hcons.
  split; [exact Hwf'|]. split; [exact Hlen|].
  destruct e as [e|]; simpl in Hshape.
  - destruct (before_first_delim _ _ _ _ _ Hcons Hshape Hpre)
      as (k & Hk & Hrest).
    destruct e; simpl in Hout; try contradiction.
    + rewrite Hrest in Hout. now destruct k.
    + assert (Hlong : length (bufio.buf b) <= length pre)
        by (rewrite Hk, length_app; lia).
      split; [intros Hshort; lia|]. intros _.
      split; [|split; [reflexivity|]].
      * rewrite Hk, <- Hout. symmetry. apply firstn_exact.
      * rewrite Hrest, Hk, <- Hout, skipn_app, skipn_all, Nat.sub_diag.
        reflexivity.
  - destruct Hshape as (pre' & -> & Hpre').
    rewrite <- app_assoc in Hcons. simpl in Hcons.
    destruct (first_delim_unique _ _ _ _ _ Hcons Hpre' Hpre) as [-> ->].
    rewrite length_app in Hle. simpl in Hle.
    split; [auto | intros Hlong; lia].
Qed.

(** X3. On a plain reader whose pending bytes are [pre], the delimiter
    and [post], with no delimiter in [pre]: when [pre] is shorter than the
    buffer, [ReadSlice] returns [pre] with the delimiter and no error,
    leaves [post] pending and advances [Offset()] by the length of the
    line. *)
Theorem ReadSlice_next_line r (delim : byte) (pre post : list byte) :
  wf (rd r) ->
  pending (rd r) = pre ++ delim :: post ->
  ~ In delim pre ->
  length pre < length (bufio.buf (rd r)) ->
  let '(slc, e, r') := ReadSlice r delim in
  slc = pre ++ [delim] /\ e = None
  /\ pending (rd r') = post
  /\ wf (rd r')
  /\ Offset r' = GoInt.add (Offset r) (Z.of_nat (S (length pre))).
Proof.
  intros Hwf Hpend Hpre Hshort. unfold ReadSlice.
  destruct (bufio.ReadSlice (rd r) delim) as [[slc e] b'] eqn:HRS.
  destruct (bufio_ReadSlice_next_line _ _ _ _ _ _ _ Hwf Hpend Hpre HRS)
    as (Hwf' & _ & Hnear & _).
  destruct (Hnear Hshort) as (-> & -> & Hpost).
  cbn [rd]. unfold Offset. cbn [offset].
  conjuncts; auto.
  unfold GoInt.len. rewrite length_app. simpl.
  do 2 f_equal. lia.
Qed.

(** X4. With [pre] at least as long as the buffer, [ReadSlice] returns the
    first buffer length of [pre] with [ErrBufferFull]; the rest of [pre],
    the delimiter and [post] stay pending, and [Offset()] advances by the
    buffer length: a long line comes in pieces and no byte is lost. *)
Theorem ReadSlice_long_line r (delim : byte) (pre post : list byte) :
  wf (rd r) ->
  pending (rd r) = pre ++ delim :: post ->
  ~ In delim pre ->
  length (bufio.buf (rd r)) <= length pre ->
  let L := length (bufio.buf (rd r)) in
  let '(slc, e, r') := ReadSlice r delim in
  slc = firstn L pre /\ e = Some ErrBufferFull
  /\ pending (rd r') = skipn L pre ++ delim :: post
  /\ wf (rd r')
  /\ length (bufio.buf (rd r')) = L
  /\ Offset r' = GoInt.add (Offset r) (Z.of_nat L).
Proof.
  intros Hwf Hpend Hpre Hlong L. unfold ReadSlice.
  destruct (bufio.ReadSlice (rd r) delim) as [[slc e] b'] eqn:HRS.
  destruct (bufio_ReadSlice_next_line _ _ _ _ _ _ _ Hwf Hpend Hpre HRS)
    as (Hwf' & Hlen & _ & Hfar).
  destruct (Hfar Hlong) as (-> & -> & Hpost).
  cbn [rd]. unfold Offset. cbn [offset].
  conjuncts; auto.
  unfold GoInt.len. rewrite length_firstn. do 2 f_equal. fold L. lia.
Qed.

(** X5. [ReadString] returns the next line whole, however long: [pre]
    with the delimiter and no error, [post] left pending, [Offset()]
    advanced by the length of the line. *)
Theorem ReadString_next_line r (delim : byte) (pre post : list byte) :
  wf (rd r) ->
  pending (rd r) = pre ++ delim :: post ->
  ~ In delim pre ->
  let '(str, e, r') := ReadString r delim in
  str = pre ++ [delim] /\ e = None
  /\ pending (rd r') = post
  /\ wf (rd r')
  /\ Offset r' = GoInt.add (Offset r) (Z.of_nat (S (length pre))).
Proof.
  intros Hwf Hpend Hpre. unfold ReadString.
  destruct (bufio.ReadString (rd r) delim) as [[str e] b'] eqn:HRS.
  destruct (fileReads.ReadString_file _ Hwf HRS)
    as (Hwf' & Hlen & Hcons & Hout).
  pose proof (bufioLines.ReadString_shape _ _ _ _ _
                (chunkLines.wf_inBounds _ Hwf) HRS) as Hshape.
  rewrite Hpend in Hcons. symmetry in Hcons.
  cbn [rd]. unfold Offset. cbn [offset].
  destruct e as [e|]; simpl in Hshape.
  - exfalso.
    destruct (before_first_delim _ _ _ _ _ Hcons Hshape Hpre)
      as (k & Hk & Hrest).
    destruct e; simpl in Hout; try contradiction.
    rewrite Hrest in Hout. now destruct k.
  - destruct Hshape as (pre' & -> & Hpre').
    rewrite <- app_assoc in Hcons. simpl in Hcons.
    destruct (first_delim_unique _ _ _ _ _ Hcons Hpre' Hpre) as [-> ->].
    conjuncts; auto.
    unfold GoInt.len. rewrite length_app. simpl. do 2 f_equal. lia.
Qed.

(** X3 on "hello\nworld". *)
Lemma ReadSlice_next_line_witness :
  let r := Examples.plainReader "data.rdf" Examples.helloWorld in
  let '(slc, e, r') := ReadSlice r newline in
  slc = Examples.hello ++ [newline] /\ e = None
  /\ pending (rd r') = Examples.world
  /\ wf (rd r')
  /\ Offset r' = GoInt.add (Offset r) (Z.of_nat (S (length Examples.hello))).
Proof.
  intros r.
  destruct (scenarios.plainReader_wf "data.rdf" Examples.helloWorld)
    as (Hwf & Hpend & Hlen).
  fold r in Hwf, Hpend, Hlen.
  apply (ReadSlice_next_line r newline Examples.hello Examples.world).
  - exact Hwf.
  - rewrite Hpend. reflexivity.
  - apply fileReads.countByte_zero. reflexivity.
  - rewrite Hlen. apply Nat.ltb_lt. vm_compute. reflexivity.
Defined.

(** X4 on a line of 4097 bytes followed by "world". *)
Lemma ReadSlice_long_line_witness :
  let r := Examples.plainReader "data.rdf" Examples.longLineThenWorld in
  let L := length (bufio.buf (rd r)) in
  let '(slc, e, r') := ReadSlice r newline in
  slc = firstn L Examples.longLine /\ e = Some ErrBufferFull
  /\ pending (rd r') = skipn L Examples.longLine ++ newline :: Examples.world
  /\ wf (rd r')
  /\ length (bufio.buf (rd r')) = L
  /\ Offset r' = GoInt.add (Offset r) (Z.of_nat L).
Proof.
  intros r.
  destruct (scenarios.plainReader_wf "data.rdf" Examples.longLineThenWorld)
    as (Hwf & Hpend & Hlen).
  fold r in Hwf, Hpend, Hlen.
  apply (ReadSlice_long_line r newline Examples.longLine Examples.world).
  - exact Hwf.
  - rewrite Hpend. reflexivity.
  - apply fileReads.countByte_zero. vm_compute. reflexivity.
  - rewrite Hlen. apply Nat.leb_le. vm_compute. reflexivity.
Defined.

(** X5 on the same file: [ReadString] returns the 4097 bytes and the
    newline at once. *)
Lemma ReadString_next_line_witness :
  let r := Examples.plainReader "data.rdf" Examples.longLineThenWorld in
  let '(str, e, r') := ReadString r newline in
  str = Examples.longLine ++ [newline] /\ e = None
  /\ pending (rd r') = Examples.world
  /\ wf (rd r')
  /\ Offset r'
     = GoInt.add (Offset r) (Z.of_nat (S (length Examples.longLine))).
Proof.
  intros r.
  destruct (scenarios.plainReader_wf "data.rdf" Examples.longLineThenWorld)
    as (Hwf & Hpend & Hlen).
  fold r in Hwf, Hpend, Hlen.
  apply (ReadString_next_line r newline Examples.longLine Examples.world).
  - exact Hwf.
  - rewrite Hpend. reflexivity.
  - apply fileReads.countByte_zero. vm_compute. reflexivity.
Defined.

End fileLines.

(** ** unicode/utf8: what [DecodeRune] looks at, and newlines *)

Module utf8Facts.

Unset Implicit Arguments.

Import utf8.

Local Arguments byteZ : simpl never.
Local Arguments outside : simpl never.

Lemma byteZ_range (b : byte) : (0 <= byteZ b < 256)%Z.
Proof.
  unfold byteZ. pose proof (Byte.to_N_bounded b). lia.
Qed.

Lemma byteZ_newline (b : byte) : byteZ b = 10%Z <-> b = x0a.
Proof.
  split; [|intros ->; reflexivity].
  unfold byteZ. intros Hb.
  assert (HN : Byte.to_N b = 10%N) by lia.
  apply Byte.to_of_N_iff in HN. vm_compute in HN. congruence.
Qed.

Lemma outside_false (lo hi : Z) (b : byte) :
  outside lo hi b = false -> (lo <= byteZ b <= hi)%Z.
Proof.
  unfold outside. intros H. apply orb_false_elim in H. destruct H as [H1 H2].
  apply Z.ltb_ge in H1, H2. lia.
Qed.

(** The rows of the table [first]. *)
Lemma first_spec (b : byte) :
  (first b = as_ /\ byteZ b < 0x80)%Z
  \/ (first b = xx /\ 0x80 <= byteZ b)%Z
  \/ (first b = s1 /\ 0xC2 <= byteZ b < 0xE0)%Z
  \/ (first b = s2 /\ byteZ b = 0xE0)%Z
  \/ (first b = s3 /\ 0xE1 <= byteZ b <= 0xEF)%Z
  \/ (first b = s4 /\ byteZ b = 0xED)%Z
  \/ (first b = s5 /\ byteZ b = 0xF0)%Z
  \/ (first b = s6 /\ 0xF1 <= byteZ b <= 0xF3)%Z
  \/ (first b = s7 /\ byteZ b = 0xF4)%Z.
Proof.
  unfold first. cbv zeta.
  repeat match goal with
    | |- context [(?a <? ?b)%Z] => destruct (Z.ltb_spec a b)
    | |- context [(?a =? ?b)%Z] => destruct (Z.eqb_spec a b)
    end; try lia; intuition lia.
Qed.

Ltac first_rows b :=
  let Hf := fresh "Hf" in
  let Hn := fresh "Hn" in
  destruct (first_spec b)
    as [[Hf Hn]|[[Hf Hn]|[[Hf Hn]|[[Hf Hn]|[[Hf Hn]|[[Hf Hn]|[[Hf Hn]|[[Hf Hn]|[Hf Hn]]]]]]]]];
  rewrite Hf in *; unfold as_, xx, s1, s2, s3, s4, s5, s6, s7 in *.

Ltac split_tests :=
  repeat match goal with
    | |- context [outside ?lo ?hi ?b] => destruct (outside lo hi b) eqn:?
    end.

(** Evaluate what steers [DecodeRune] and [FullRune] once the table entry
    is known, leaving the rune values alone. *)
Ltac steer :=
  repeat match goal with
    | |- context [Z.to_nat (Z.land (Zpos ?x) 7)] =>
        let v := eval vm_compute in (Z.to_nat (Z.land (Zpos x) 7)) in
        change (Z.to_nat (Z.land (Zpos x) 7)) with v in *
    | |- context [acceptRanges (Z.shiftr (Zpos ?x) 4)] =>
        let v := eval vm_compute in (acceptRanges (Z.shiftr (Zpos x) 4)) in
        change (acceptRanges (Z.shiftr (Zpos x) 4)) with v in *
    | |- context [(240 <=? Zpos ?x)%Z] =>
        let v := eval vm_compute in (240 <=? Zpos x)%Z in
        change (240 <=? Zpos x)%Z with v in *
    | |- context [(Z.land (Zpos ?x) 7 <=? Z.of_nat ?n)%Z] =>
        let v := eval vm_compute in (Z.land (Zpos x) 7 <=? Z.of_nat n)%Z in
        change (Z.land (Zpos x) 7 <=? Z.of_nat n)%Z with v in *
    | |- context [Z.shiftr (wrap32 (Z.shiftl (Zpos ?x) 31)) 31] =>
        let v := eval vm_compute in (Z.shiftr (wrap32 (Z.shiftl (Zpos x) 31)) 31) in
        change (Z.shiftr (wrap32 (Z.shiftl (Zpos x) 31)) 31) with v in *
    end;
  cbn [length Nat.ltb Nat.leb app] in *; cbv beta iota in *.

(** Close an equation between two terms that are the same as written. *)
Ltac same := match goal with |- ?a = ?b => constr_eq a b; reflexivity end.

(** An ASCII byte decodes to itself. *)
Lemma DecodeRune_ascii (p0 : byte) (rest : list byte) :
  (byteZ p0 < RuneSelf)%Z -> DecodeRune (p0 :: rest) = (byteZ p0, 1).
Proof.
  unfold RuneSelf. intros Hlt. unfold DecodeRune. cbv zeta.
  first_rows p0; try lia.
  steer. change (Z.lnot 0) with (-1)%Z.
  rewrite Z.land_m1_r, Z.land_0_r. now rewrite Z.lor_0_r.
Qed.

(** Four bytes are all that [DecodeRune] looks at. *)
Lemma DecodeRune_four (p0 b1 b2 b3 : byte) (rest q : list byte) :
  DecodeRune ((p0 :: b1 :: b2 :: b3 :: rest) ++ q)
  = DecodeRune (p0 :: b1 :: b2 :: b3 :: rest).
Proof.
  unfold DecodeRune. cbv zeta. cbn [app length].
  first_rows p0; steer; split_tests; same.
Qed.

(** What [FullRune] accepts decodes the same whatever follows. *)
Lemma DecodeRune_full (p q : list byte) :
  FullRune p = true -> DecodeRune (p ++ q) = DecodeRune p.
Proof.
  intros Hfull.
  destruct p as [|p0 [|b1 [|b2 [|b3 rest]]]];
    [discriminate | | | | apply DecodeRune_four].
  all: destruct q as [|q0 [|q1 q]].
  all: unfold DecodeRune, FullRune in *; cbv zeta in *;
       cbn [app length] in *.
  all: first_rows p0; revert Hfull; steer; split_tests;
       intros Hfull; try discriminate; try same.
Qed.

(** *** Newlines *)

Lemma high_not_newline (b : byte) :
  (128 <= byteZ b)%Z -> Byte.eqb b newline = false.
Proof.
  intros Hb. destruct (Byte.eqb b newline) eqn:Heq; [|reflexivity].
  apply Byte.byte_dec_bl in Heq. subst b. vm_compute in Hb.
  exfalso. now apply Hb.
Qed.

Lemma big_lor (a b : Z) :
  (0 <= a)%Z -> (0 <= b)%Z -> (4 <= Z.log2 a \/ 4 <= Z.log2 b)%Z ->
  (4 <= Z.log2 (Z.lor a b))%Z.
Proof. intros Ha Hb Hbig. rewrite Z.log2_lor by assumption. lia. Qed.

Lemma big_not_newline (x : Z) : (4 <= Z.log2 x)%Z -> x <> 10%Z.
Proof. intros Hx ->. change (Z.log2 10) with 3%Z in Hx. lia. Qed.

Lemma big_of_le (x : Z) : (16 <= x)%Z -> (4 <= Z.log2 x)%Z.
Proof. intros Hx. change 4%Z with (Z.log2 16). now apply Z.log2_le_mono. Qed.

(** [x & (2^n - 1)] is the remainder of [x] by [2^n]. *)
Lemma masked (x n : Z) :
  (0 <= n)%Z ->
  exists q, (x = 2 ^ n * q + Z.land x (Z.ones n))%Z
            /\ (0 <= Z.land x (Z.ones n) < 2 ^ n)%Z.
Proof.
  intros Hn. rewrite Z.land_ones by exact Hn.
  pose proof (Z.pow_pos_nonneg 2 n ltac:(lia) Hn) as Hpow.
  exists (x / 2 ^ n)%Z. split.
  - apply Z.div_mod. lia.
  - apply Z.mod_pos_bound. lia.
Qed.

Lemma shifted (x k : Z) :
  (0 <= k)%Z -> (0 <= x)%Z ->
  Z.shiftl x k = (x * 2 ^ k)%Z /\ (0 <= Z.shiftl x k)%Z.
Proof.
  intros Hk Hx. split; [now apply Z.shiftl_mul_pow2|].
  now apply Z.shiftl_nonneg.
Qed.

(** A rune of two bytes is not the newline. *)
Lemma rune2_not_newline (p0 b1 : byte) :
  (0xC2 <= byteZ p0 < 0xE0)%Z ->
  Z.lor (Z.shiftl (Z.land (byteZ p0) mask2) 6) (Z.land (byteZ b1) maskx)
  <> 10%Z.
Proof.
  intros H0. apply big_not_newline.
  destruct (masked (byteZ p0) 5 ltac:(lia)) as (q0 & Hq0 & Hr0).
  destruct (masked (byteZ b1) 6 ltac:(lia)) as (q1 & Hq1 & Hr1).
  change (Z.ones 5) with mask2 in *. change (Z.ones 6) with maskx in *.
  change (2 ^ 5)%Z with 32%Z in *. change (2 ^ 6)%Z with 64%Z in *.
  destruct (shifted (Z.land (byteZ p0) mask2) 6 ltac:(lia) ltac:(lia))
    as [Hs0 Hn0].
  change (2 ^ 6)%Z with 64%Z in *.
  apply big_lor; [lia | lia |]. left. apply big_of_le. lia.
Qed.

(** A rune of three bytes is not the newline. *)
Lemma rune3_not_newline (p0 b1 b2 : byte) :
  (0xE1 <= byteZ p0 <= 0xEF
   \/ (byteZ p0 = 0xE0 /\ 0xA0 <= byteZ b1 <= 0xBF))%Z ->
  Z.lor (Z.lor (Z.shiftl (Z.land (byteZ p0) mask3) 12)
               (Z.shiftl (Z.land (byteZ b1) maskx) 6))
        (Z.land (byteZ b2) maskx)
  <> 10%Z.
Proof.
  intros H0. apply big_not_newline.
  destruct (masked (byteZ p0) 4 ltac:(lia)) as (q0 & Hq0 & Hr0).
  destruct (masked (byteZ b1) 6 ltac:(lia)) as (q1 & Hq1 & Hr1).
  destruct (masked (byteZ b2) 6 ltac:(lia)) as (q2 & Hq2 & Hr2).
  change (Z.ones 4) with mask3 in *. change (Z.ones 6) with maskx in *.
  change (2 ^ 4)%Z with 16%Z in *. change (2 ^ 6)%Z with 64%Z in *.
  destruct (shifted (Z.land (byteZ p0) mask3) 12 ltac:(lia) ltac:(lia))
    as [Hs0 Hn0].
  destruct (shifted (Z.land (byteZ b1) maskx) 6 ltac:(lia) ltac:(lia))
    as [Hs1 Hn1].
  change (2 ^ 12)%Z with 4096%Z in *. change (2 ^ 6)%Z with 64%Z in *.
  apply big_lor; [apply Z.lor_nonneg; lia | lia |]. left.
  apply big_lor; [lia | lia |].
  destruct H0 as [H0|[H0 H1]]; [left | right]; apply big_of_le; lia.
Qed.

(** A rune of four bytes is not the newline. *)
Lemma rune4_not_newline (p0 b1 b2 b3 : byte) :
  (0xF1 <= byteZ p0 <= 0xF4
   \/ (byteZ p0 = 0xF0 /\ 0x90 <= byteZ b1 <= 0xBF))%Z ->
  Z.lor (Z.lor (Z.lor (Z.shiftl (Z.land (byteZ p0) mask4) 18)
                      (Z.shiftl (Z.land (byteZ b1) maskx) 12))
               (Z.shiftl (Z.land (byteZ b2) maskx) 6))
        (Z.land (byteZ b3) maskx)
  <> 10%Z.
Proof.
  intros H0. apply big_not_newline.
  destruct (masked (byteZ p0) 3 ltac:(lia)) as (q0 & Hq0 & Hr0).
  destruct (masked (byteZ b1) 6 ltac:(lia)) as (q1 & Hq1 & Hr1).
  destruct (masked (byteZ b2) 6 ltac:(lia)) as (q2 & Hq2 & Hr2).
  destruct (masked (byteZ b3) 6 ltac:(lia)) as (q3 & Hq3 & Hr3).
  change (Z.ones 3) with mask4 in *. change (Z.ones 6) with maskx in *.
  change (2 ^ 3)%Z with 8%Z in *. change (2 ^ 6)%Z with 64%Z in *.
  destruct (shifted (Z.land (byteZ p0) mask4) 18 ltac:(lia) ltac:(lia))
    as [Hs0 Hn0].
  destruct (shifted (Z.land (byteZ b1) maskx) 12 ltac:(lia) ltac:(lia))
    as [Hs1 Hn1].
  destruct (shifted (Z.land (byteZ b2) maskx) 6 ltac:(lia) ltac:(lia))
    as [Hs2 Hn2].
  change (2 ^ 18)%Z with 262144%Z in *. change (2 ^ 12)%Z with 4096%Z in *.
  change (2 ^ 6)%Z with 64%Z in *.
  apply big_lor; [repeat (apply Z.lor_nonneg; split); lia | lia |]. left.
  apply big_lor; [apply Z.lor_nonneg; lia | lia |]. left.
  apply big_lor; [lia | lia |].
  destruct H0 as [H0|[H0 H1]]; [left | right]; apply big_of_le; lia.
Qed.

(** The bytes of a decoded rune hold a newline exactly when the rune is
    the newline. *)
Lemma DecodeRune_newline (p : list byte) :
  p <> [] ->
  countByte newline (firstn (snd (DecodeRune p)) p)
  = if (fst (DecodeRune p) =? byteZ newline)%Z then 1 else 0.
Proof.
  destruct p as [|p0 rest]; [congruence|]. intros _.
  change (byteZ newline) with 10%Z.
  destruct (Z.ltb_spec (byteZ p0) RuneSelf) as [Hlt|Hge].
  - rewrite DecodeRune_ascii by exact Hlt. cbn [fst snd firstn countByte].
    destruct (Z.eqb_spec (byteZ p0) 10) as [Hz|Hz].
    + apply byteZ_newline in Hz. subst p0. reflexivity.
    + destruct (Byte.eqb p0 newline) eqn:Heq; [|reflexivity].
      apply Byte.byte_dec_bl in Heq. subst p0. now contradict Hz.
  - unfold RuneSelf in Hge.
    assert (H0 : Byte.eqb p0 newline = false)
      by (apply high_not_newline; lia).
    unfold DecodeRune. cbv zeta.
    destruct rest as [|b1 [|b2 [|b3 rest]]]; cbn [length];
      first_rows p0; try lia; steer; split_tests;
      cbn [fst snd firstn countByte]; rewrite ?H0;
      repeat match goal with
        | H : outside _ _ ?b = false |- _ =>
            apply outside_false in H; unfold locb, hicb in H;
            rewrite (high_not_newline b) by lia
        end;
      cbn [Nat.add];
      try (change (Z.lnot (-1)) with 0%Z; rewrite Z.land_0_r;
           change (Z.lor 0 (Z.land RuneError (-1))) with RuneError);
      try (change (RuneError =? 10)%Z with false; reflexivity);
      match goal with
      | |- _ = if (?v =? 10)%Z then _ else _ =>
          destruct (Z.eqb_spec v 10) as [Hv|_]; [exfalso|reflexivity]
      end;
      match type of Hv with
      | Z.lor (Z.lor (Z.lor (Z.shiftl (Z.land (byteZ ?a) _) _)
                            (Z.shiftl (Z.land (byteZ ?b) _) _))
                     (Z.shiftl (Z.land (byteZ ?c) _) _))
              (Z.land (byteZ ?d) _) = _ =>
          refine (rune4_not_newline a b c d _ Hv)
      | Z.lor (Z.lor (Z.shiftl (Z.land (byteZ ?a) _) _)
                     (Z.shiftl (Z.land (byteZ ?b) _) _))
              (Z.land (byteZ ?c) _) = _ =>
          refine (rune3_not_newline a b c _ Hv)
      | Z.lor (Z.shiftl (Z.land (byteZ ?a) _) _) (Z.land (byteZ ?b) _) = _ =>
          refine (rune2_not_newline a b _ Hv)
      end; lia.
Qed.
End utf8Facts.

(** ** [ReadRune] over a file *)

Module fileRunes.

Unset Implicit Arguments.

Import bufio.
Import Inv.

Implicit Type b : Reader os.File.

Lemma skipn_nth (s : list byte) (i : nat) :
  i < length s -> skipn i s = nth i s x00 :: skipn (S i) s.
Proof.
  revert i. induction s as [|x s IH]; intros [|i] Hi; simpl in *;
    try lia; [reflexivity | apply IH; lia].
Qed.

Lemma slice_head (s : list byte) (i j : nat) :
  i < j -> j <= length s -> slice s i j = nth i s x00 :: slice s (S i) j.
Proof.
  intros Hij Hj. unfold slice. rewrite skipn_nth by lia.
  replace (j - i) with (S (j - S i)) by lia. reflexivity.
Qed.

Lemma skipn_rest (l t : list byte) (n : nat) :
  l = firstn n l ++ t -> skipn n l = t.
Proof.
  intros Hl. rewrite <- (firstn_skipn n l) in Hl at 1.
  now apply app_inv_head in Hl.
Qed.

(** When the fill loop of [ReadRune] stops, the buffered bytes decode like
    all the pending ones. *)
Lemma stopped_decodes b :
  wf b -> utf8.UTFMax <= length (buf b) ->
  runeWanted b = false -> r b <> w b ->
  utf8.DecodeRune (slice (buf b) (r b) (w b)) = utf8.DecodeRune (pending b).
Proof.
  intros (Hrw & Hwl & Hpos & He) Hmax Hdone Hne.
  unfold pending. unfold runeWanted, Buffered, utf8.UTFMax in *.
  assert (Hsl : length (slice (buf b) (r b) (w b)) = w b - r b)
    by (apply slice_length; lia).
  assert (Hfour : 4 <= w b - r b ->
    utf8.DecodeRune (slice (buf b) (r b) (w b))
    = utf8.DecodeRune (slice (buf b) (r b) (w b) ++ os.unread (rd b))).
  { intros H4. rewrite <- Hsl in H4.
    destruct (slice (buf b) (r b) (w b)) as [|p0 [|b1 [|b2 [|b3 rest]]]];
      simpl in H4; try lia.
    symmetry. apply utf8Facts.DecodeRune_four. }
  rewrite !andb_false_iff, !Nat.ltb_ge, negb_false_iff in Hdone.
  destruct Hdone as [[[H4|Hfull]|Herr]|Hlen].
  - apply Hfour. lia.
  - symmetry. now apply utf8Facts.DecodeRune_full.
  - destruct He as [He|[_ Hun]]; [rewrite He in Herr; discriminate|].
    now rewrite Hun, app_nil_r.
  - apply Hfour. lia.
Qed.

(** [ReadRune] over a file decodes the pending bytes, wherever the buffer
    ends among them. *)
Lemma ReadRune_decodes b :
  wf b -> pending b <> [] ->
  let '(c, size, e, _) := ReadRune b in
  e = None
  /\ (utf8.UTFMax <= length (buf b) ->
      (c, size) = utf8.DecodeRune (pending b)).
Proof.
  intros Hwf Hpend. unfold ReadRune.
  destruct (fileInvariant.readRune_fill_file (S (length (buf b))) b Hwf)
    as (Hwfx & Hpx & Hlx).
  pose proof (bufioFacts.readRune_fill_done b (bufioFacts.room_bound b))
    as Hdone.
  set (bx := readRune_fill (S (length (buf b))) b) in *. clearbody bx.
  rewrite <- Hpx in *. rewrite <- Hlx. clear Hpx Hlx Hwf b.
  cbn [with_last r w buf rd err lastByte lastRuneSize].
  pose proof Hwfx as (Hrw & Hwl & Hpos & He).
  destruct (r bx =? w bx) eqn:Hrx.
  - exfalso. apply Nat.eqb_eq in Hrx. apply Hpend. unfold pending.
    unfold runeWanted, Buffered, utf8.UTFMax in *.
    rewrite slice_nil in * by lia. cbn [utf8.FullRune negb app] in *.
    rewrite !andb_false_iff, !Nat.ltb_ge in Hdone.
    destruct Hdone as [[[H4|Hfull]|Herr]|Hlen]; try lia; try discriminate.
    destruct He as [He|[_ Hun]]; [rewrite He in Herr; discriminate|].
    exact Hun.
  - apply Nat.eqb_neq in Hrx.
    set (p0 := nth (r bx) (buf bx) x00).
    destruct (utf8.byteZ p0 <? utf8.RuneSelf)%Z eqn:Hascii.
    + split; [reflexivity|]. intros Hmax.
      rewrite <- (stopped_decodes bx Hwfx Hmax Hdone Hrx).
      rewrite (slice_head (buf bx) (r bx) (w bx)) by lia. fold p0.
      apply Z.ltb_lt in Hascii.
      now rewrite (utf8Facts.DecodeRune_ascii p0 _ Hascii).
    + destruct (utf8.DecodeRune (slice (buf bx) (r bx) (w bx)))
        as [c size] eqn:Hdec.
      split; [reflexivity|]. intros Hmax.
      now rewrite <- (stopped_decodes bx Hwfx Hmax Hdone Hrx).
Qed.

(** [UnreadRune] after [ReadRune] puts the bytes of the rune back. *)
Lemma ReadRune_pushedBack b :
  wf b ->
  let '(_, size, _, b1) := ReadRune b in
  pending (pushedBack b1 size) = pending b
  /\ wf (pushedBack b1 size).
Proof.
  intros Hwf. unfold ReadRune.
  destruct (fileInvariant.readRune_fill_file (S (length (buf b))) b Hwf)
    as (Hwfx & Hpx & Hlx).
  set (bx := readRune_fill (S (length (buf b))) b) in *. clearbody bx.
  rewrite <- Hpx. clear Hpx Hlx Hwf b.
  cbn [with_last r w buf rd err lastByte lastRuneSize].
  destruct Hwfx as (Hrw & Hwl & Hpos & He).
  destruct (r bx =? w bx) eqn:Hrx.
  - unfold pushedBack, pending, wf.
    cbn [with_err with_last r w buf rd err lastRuneSize].
    rewrite Nat.sub_0_r. conjuncts; auto; lia.
  - apply Nat.eqb_neq in Hrx.
    assert (Hsl : length (slice (buf bx) (r bx) (w bx)) = w bx - r bx)
      by (apply slice_length; lia).
    set (p0 := nth (r bx) (buf bx) x00).
    assert (Hsize : snd (if (utf8.byteZ p0 <? utf8.RuneSelf)%Z
                         then (utf8.byteZ p0, 1)
                         else utf8.DecodeRune (slice (buf bx) (r bx) (w bx)))
                    <= w bx - r bx).
    { destruct (utf8.byteZ p0 <? utf8.RuneSelf)%Z; [simpl; lia|].
      rewrite <- Hsl. apply fileInvariant.DecodeRune_size.
      intros Hnil. rewrite Hnil in Hsl. simpl in Hsl. lia. }
    destruct (if (utf8.byteZ p0 <? utf8.RuneSelf)%Z
              then (utf8.byteZ p0, 1)
              else utf8.DecodeRune (slice (buf bx) (r bx) (w bx)))
      as [c size].
    cbn [snd] in Hsize.
    unfold pushedBack, pending, wf. cbn [r w buf rd err lastRuneSize].
    replace (r bx + size - size) with (r bx) by lia.
    conjuncts; auto; lia.
Qed.

(** At the end of the file [ReadRune] returns [io.EOF] and no rune. *)
Lemma ReadRune_drained b :
  wf b -> pending b = [] ->
  let '(c, size, e, b') := ReadRune b in
  c = 0%Z /\ size = 0 /\ e = Some EOF /\ wf b' /\ pending b' = [].
Proof.
  intros Hwf Hpend.
  pose proof (fileInvariant.ReadRune_file b Hwf) as Hfile.
  revert Hfile. unfold ReadRune.
  destruct (fileInvariant.readRune_fill_file (S (length (buf b))) b Hwf)
    as (Hwfx & Hpx & Hlx).
  pose proof (bufioFacts.readRune_fill_done b (bufioFacts.room_bound b)) as Hdone.
  set (bx := readRune_fill (S (length (buf b))) b) in *. clearbody bx.
  rewrite Hpend in *. clear Hlx.
  cbn [with_last r w buf rd err lastByte lastRuneSize].
  pose proof Hwfx as (Hrw & Hwl & Hpos & He).
  unfold pending in Hpx. apply app_eq_nil in Hpx. destruct Hpx as [Hsl Hun].
  assert (Hrx : r bx = w bx).
  { apply (f_equal (@length byte)) in Hsl.
    rewrite slice_length in Hsl by lia. simpl in Hsl. lia. }
  rewrite (proj2 (Nat.eqb_eq _ _) Hrx).
  intros (Hwf' & _ & Hcons & _).
  unfold runeWanted, Buffered, utf8.UTFMax in *.
  rewrite Hsl in Hdone. cbn [utf8.FullRune negb] in Hdone.
  rewrite !andb_false_iff, !Nat.ltb_ge in Hdone.
  conjuncts; auto.
  destruct Hdone as [[[H4|Hfull]|Herr]|Hlen]; try lia; try discriminate.
  destruct He as [He|[He _]]; [rewrite He in Herr; discriminate|exact He].
Qed.

End fileRunes.

(** ** The position of a plain reader in its file *)

Module filePosition.

Unset Implicit Arguments.

Import chunk.
Import Inv.
Import Calls.

Implicit Type r : Reader os.File.

Lemma perform_file r (c : readCall) :
  wf (rd r) -> utf8.UTFMax <= length (bufio.buf (rd r)) ->
  let '(n, k, r') := perform r c in
  wf (rd r')
  /\ length (bufio.buf (rd r')) = length (bufio.buf (rd r))
  /\ pending (rd r) = firstn n (pending (rd r)) ++ pending (rd r')
  /\ n <= length (pending (rd r))
  /\ k = countByte newline (firstn n (pending (rd r))).
Proof.
  intros Hwf Hmax. destruct c as [delim|delim|]; cbn [perform].
  - unfold ReadSlice.
    destruct (bufio.ReadSlice (rd r) delim) as [[slc e] b'] eqn:HRS.
    cbn [rd].
    destruct (fileReads.ReadSlice_file _ Hwf HRS)
      as (Hwf' & Hlen & Hcons & _).
    rewrite Hcons, firstn_exact, length_app. conjuncts; auto. lia.
  - unfold ReadString.
    destruct (bufio.ReadString (rd r) delim) as [[str e] b'] eqn:HRS.
    cbn [rd].
    destruct (fileReads.ReadString_file _ Hwf HRS)
      as (Hwf' & Hlen & Hcons & _).
    rewrite Hcons, firstn_exact, length_app. conjuncts; auto. lia.
  - unfold ReadRune.
    pose proof (fileInvariant.ReadRune_file (rd r) Hwf) as Hfile.
    assert (Hcase : pending (rd r) = [] \/ pending (rd r) <> [])
      by (destruct (pending (rd r)); [now left | right; discriminate]).
    destruct Hcase as [Hpend|Hne].
    + pose proof (fileRunes.ReadRune_drained (rd r) Hwf Hpend) as Hend.
      destruct (bufio.ReadRune (rd r)) as [[[c size] e] b'].
      cbn [rd].
      destruct Hend as (-> & -> & _ & Hwf' & Hp').
      destruct Hfile as (_ & Hlen & _).
      rewrite Hp', Hpend. conjuncts; auto.
    + pose proof (fileRunes.ReadRune_decodes (rd r) Hwf Hne) as Hdec.
      pose proof (utf8Facts.DecodeRune_newline (pending (rd r)) Hne) as Hnl.
      destruct (bufio.ReadRune (rd r)) as [[[c size] e] b'].
      cbn [rd].
      destruct Hdec as [_ Hdec]. rewrite <- (Hdec Hmax) in Hnl.
      cbn [fst snd] in Hnl.
      destruct Hfile as (Hwf' & Hlen & Hcons & Hle).
      conjuncts; auto.
Qed.

Lemma run_file (calls : list readCall) r :
  wf (rd r) -> utf8.UTFMax <= length (bufio.buf (rd r)) ->
  let '(n, k, r') := run r calls in
  wf (rd r')
  /\ pending (rd r) = firstn n (pending (rd r)) ++ pending (rd r')
  /\ n <= length (pending (rd r))
  /\ k = countByte newline (firstn n (pending (rd r))).
Proof.
  revert r. induction calls as [|c calls IH]; intros r Hwf Hmax;
    cbn [run].
  - simpl. conjuncts; auto. lia.
  - pose proof (perform_file r c Hwf Hmax) as Hone.
    destruct (perform r c) as [[n k] r1].
    destruct Hone as (Hwf1 & Hlen1 & Hcons1 & Hle1 & ->).
    rewrite <- Hlen1 in Hmax.
    specialize (IH r1 Hwf1 Hmax).
    destruct (run r1 calls) as [[n' k'] r'].
    destruct IH as (Hwf' & Hcons' & Hle' & ->).
    pose proof (fileRunes.skipn_rest _ _ _ Hcons1) as Hskip.
    rewrite firstn_plus, Hskip, chunkLines.countByte_app.
    split; [exact Hwf'|]. split; [|split; [|reflexivity]].
    + rewrite <- app_assoc, <- Hcons'. exact Hcons1.
    + apply (f_equal (@length byte)) in Hskip.
      rewrite length_skipn in Hskip. lia.
Qed.

(** X6. [ReadRune] on a plain reader with bytes pending returns the rune
    that [utf8.DecodeRune] finds at the head of the pending bytes, wherever
    the buffer ends among them, with its width and no error; the bytes of
    the rune are consumed, [Offset()] advances by the width, and
    [LineCount()] goes up by one exactly when the bytes consumed hold a
    newline. *)
Theorem ReadRune_next_rune r :
  wf (rd r) -> utf8.UTFMax <= length (bufio.buf (rd r)) ->
  pending (rd r) <> [] ->
  let '(c, size, e, r') := ReadRune r in
  (c, size) = utf8.DecodeRune (pending (rd r)) /\ e = None
  /\ pending (rd r') = skipn size (pending (rd r))
  /\ wf (rd r')
  /\ Offset r' = GoInt.add (Offset r) (Z.of_nat size)
  /\ LineCount r'
     = if 0 <? countByte newline (firstn size (pending (rd r)))
       then GoInt.add (LineCount r) 1 else LineCount r.
Proof.
  intros Hwf Hmax Hne. unfold ReadRune.
  pose proof (fileInvariant.ReadRune_file (rd r) Hwf) as Hfile.
  pose proof (fileRunes.ReadRune_decodes (rd r) Hwf Hne) as Hdec.
  pose proof (utf8Facts.DecodeRune_newline (pending (rd r)) Hne) as Hnl.
  destruct (bufio.ReadRune (rd r)) as [[[c size] e] b'].
  cbn [rd]. unfold Offset, LineCount. cbn [offset line].
  destruct Hdec as [-> Hdec]. rewrite <- (Hdec Hmax) in Hnl.
  cbn [fst snd] in Hnl.
  destruct Hfile as (Hwf' & _ & Hcons & _).
  split; [now apply Hdec|]. split; [reflexivity|].
  split; [symmetry; now apply fileRunes.skipn_rest|].
  split; [exact Hwf'|]. split; [reflexivity|].
  rewrite Hnl. now destruct (c =? utf8.byteZ newline)%Z.
Qed.

Lemma perform_at_end r (c : readCall) :
  wf (rd r) -> pending (rd r) = [] ->
  GoInt.inRange (offset r) -> GoInt.inRange (line r) ->
  wf (rd (snd (perform r c)))
  /\ pending (rd (snd (perform r c))) = []
  /\ offset (snd (perform r c)) = offset r
  /\ line (snd (perform r c)) = line r.
Proof.
  intros Hwf Hpend Ho Hl. destruct c as [delim|delim|]; cbn [perform].
  - destruct (chunkTails.ReadSlice_after_end r delim Hwf Hpend Ho)
      as (_ & H1 & H2 & H3 & H4).
    destruct (ReadSlice r delim) as [[slc e] r']. auto.
  - destruct (chunkTails.ReadString_after_end r delim Hwf Hpend Ho Hl)
      as (_ & H1 & H2 & H3 & H4).
    destruct (ReadString r delim) as [[str e] r']. auto.
  - unfold ReadRune.
    pose proof (fileRunes.ReadRune_drained (rd r) Hwf Hpend) as Hend.
    destruct (bufio.ReadRune (rd r)) as [[[c size] e] b'].
    destruct Hend as (-> & -> & _ & Hwf' & Hp').
    cbn [snd rd offset line].
    change (Z.of_nat 0) with 0%Z.
    change (0 =? utf8.byteZ newline)%Z with false. cbv iota.
    rewrite (GoIntFacts.add_0_inRange Ho). auto.
Qed.

Lemma run_at_end (calls : list readCall) r :
  wf (rd r) -> pending (rd r) = [] ->
  GoInt.inRange (offset r) -> GoInt.inRange (line r) ->
  wf (rd (snd (run r calls)))
  /\ pending (rd (snd (run r calls))) = []
  /\ offset (snd (run r calls)) = offset r
  /\ line (snd (run r calls)) = line r.
Proof.
  revert r. induction calls as [|c calls IH]; intros r Hwf Hpend Ho Hl;
    cbn [run]; [cbn [snd]; auto|].
  destruct (perform_at_end r c Hwf Hpend Ho Hl) as (Hwf1 & Hp1 & Ho1 & Hl1).
  destruct (perform r c) as [[n k] r1]. cbn [snd] in *.
  rewrite <- Ho1 in Ho. rewrite <- Hl1 in Hl.
  destruct (IH r1 Hwf1 Hp1 Ho Hl) as (Hwf' & Hp' & Ho' & Hl').
  destruct (run r1 calls) as [[n' k'] r']. cbn [snd] in *.
  rewrite Ho', Hl'. auto.
Qed.

(** X7. The end of the file is final: on a plain reader with nothing
    pending, after any sequence of read calls, [ReadSlice] and
    [ReadString] return nothing with [io.EOF], [ReadRune] returns
    [(0, 0, io.EOF)], and [Offset()] and [LineCount()] are what they were
    when the end was reached. *)
Theorem reads_at_end r (calls : list readCall) (delim : byte) :
  wf (rd r) -> pending (rd r) = [] ->
  GoInt.inRange (Offset r) -> GoInt.inRange (LineCount r) ->
  let r' := snd (run r calls) in
  fst (ReadSlice r' delim) = ([], Some EOF)
  /\ fst (ReadString r' delim) = ([], Some EOF)
  /\ fst (ReadRune r') = (0%Z, 0, Some EOF)
  /\ Offset r' = Offset r /\ LineCount r' = LineCount r.
Proof.
  intros Hwf Hpend Ho Hl r'.
  destruct (run_at_end calls r Hwf Hpend Ho Hl) as (Hwf' & Hp' & Ho' & Hl').
  fold r' in Hwf', Hp', Ho', Hl'. unfold Offset, LineCount in *.
  rewrite <- Ho' in Ho. rewrite <- Hl' in Hl.
  destruct (chunkTails.ReadSlice_after_end r' delim Hwf' Hp' Ho) as [HS _].
  destruct (chunkTails.ReadString_after_end r' delim Hwf' Hp' Ho Hl)
    as [HT _].
  conjuncts; auto.
  unfold ReadRune.
  pose proof (fileRunes.ReadRune_drained (rd r') Hwf' Hp') as Hend.
  destruct (bufio.ReadRune (rd r')) as [[[c size] e] b'].
  destruct Hend as (-> & -> & -> & _). reflexivity.
Qed.

Lemma countByte_le (c : byte) (l : list byte) : countByte c l <= length l.
Proof.
  induction l as [|x l IH]; simpl; [lia|]. destruct (Byte.eqb x c); lia.
Qed.

(** X8. [Offset()] and [LineCount()] are a position in the file: on a
    plain reader that starts with both at zero, after any sequence of
    read calls the file splits into the bytes consumed and the bytes
    still pending, [Offset()] is the number of bytes consumed and
    [LineCount()] the number of newlines among them, both as an [int];
    they are exact when the file has no more than [maxInt] bytes. *)
Theorem position_in_file r (calls : list readCall) :
  wf (rd r) -> utf8.UTFMax <= length (bufio.buf (rd r)) ->
  Offset r = 0%Z -> LineCount r = 0%Z ->
  let r' := snd (run r calls) in
  exists consumed : list byte,
    pending (rd r) = consumed ++ pending (rd r')
    /\ Offset r' = GoInt.wrap (GoInt.len consumed)
    /\ LineCount r' = GoInt.wrap (Z.of_nat (countByte newline consumed))
    /\ ((Z.of_nat (length (pending (rd r))) <= GoInt.maxInt)%Z ->
        Offset r' = GoInt.len consumed
        /\ LineCount r' = Z.of_nat (countByte newline consumed)).
Proof.
  intros Hwf Hmax Ho Hl r'. unfold Offset, LineCount in *.
  pose proof (run_file calls r Hwf Hmax) as Hfile.
  pose proof (chunkCounters.run_counts calls r 0 0 Ho Hl) as Hcount.
  subst r'. destruct (run r calls) as [[n k] r']. cbn [snd].
  destruct Hfile as (_ & Hcons & Hle & ->).
  destruct Hcount as [Ho' Hl']. rewrite Z.add_0_l in Ho', Hl'.
  exists (firstn n (pending (rd r))).
  assert (Hn : length (firstn n (pending (rd r))) = n)
    by (rewrite length_firstn; lia).
  unfold GoInt.len. rewrite Hn.
  split; [exact Hcons|]. split; [exact Ho'|]. split; [exact Hl'|].
  intros Hsmall.
  pose proof (countByte_le newline (firstn n (pending (rd r)))) as Hk.
  rewrite Hn in Hk.
  rewrite Ho', Hl'.
  split; apply chunkCounters.exact_when_small; lia.
Qed.

(** X9. [UnreadRune] after a [ReadRune] that returned a rune succeeds and
    puts the reader back where it was in the file: the same bytes
    pending, the same [Offset()] and the same [LineCount()]. *)
Theorem ReadRune_UnreadRune_file r :
  wf (rd r) -> pending (rd r) <> [] ->
  let '(_, _, _, r1) := ReadRune r in
  let '(e, r2) := UnreadRune r1 in
  e = None
  /\ pending (rd r2) = pending (rd r)
  /\ wf (rd r2)
  /\ Offset r2 = Offset r /\ LineCount r2 = LineCount r.
Proof.
  intros Hwf Hne. unfold ReadRune.
  pose proof (fileRunes.ReadRune_decodes (rd r) Hwf Hne) as Hdec.
  pose proof (fileRunes.ReadRune_pushedBack (rd r) Hwf) as Hback.
  assert (Hpos : 0 < length (bufio.buf (rd r))) by apply Hwf.
  destruct (bufio.ReadRune (rd r)) as [[[c size] e] b1] eqn:HRR.
  destruct Hdec as [-> _].
  destruct (bufioUnread.ReadRune_UnreadRune (rd r) Hpos HRR) as [HU _].
  unfold UnreadRune. cbn [rd]. rewrite HU.
  unfold Offset, LineCount. cbn [rd offset line prevOffset prevLine].
  destruct Hback as [Hp Hwf2]. auto.
Qed.

(** X6 on U+00E9 followed by a newline. *)
Lemma ReadRune_next_rune_witness :
  let r := Examples.plainReader "data.rdf" Examples.accented in
  let '(c, size, e, r') := ReadRune r in
  (c, size) = utf8.DecodeRune (pending (rd r)) /\ e = None
  /\ pending (rd r') = skipn size (pending (rd r))
  /\ wf (rd r')
  /\ Offset r' = GoInt.add (Offset r) (Z.of_nat size)
  /\ LineCount r'
     = if 0 <? countByte newline (firstn size (pending (rd r)))
       then GoInt.add (LineCount r) 1 else LineCount r.
Proof.
  intros r.
  destruct (scenarios.plainReader_wf "data.rdf" Examples.accented)
    as (Hwf & Hpend & Hlen).
  fold r in Hwf, Hpend, Hlen.
  apply (ReadRune_next_rune r).
  - exact Hwf.
  - rewrite Hlen. apply Nat.leb_le. vm_compute. reflexivity.
  - rewrite Hpend. discriminate.
Defined.

(** X7 on an empty file. *)
Lemma reads_at_end_witness :
  let r := Examples.plainReader "data.rdf" [] in
  let r' := snd (run r [CallReadRune; CallReadSlice newline]) in
  fst (ReadSlice r' newline) = ([], Some EOF)
  /\ fst (ReadString r' newline) = ([], Some EOF)
  /\ fst (ReadRune r') = (0%Z, 0, Some EOF)
  /\ Offset r' = Offset r /\ LineCount r' = LineCount r.
Proof.
  intros r.
  destruct (scenarios.plainReader_wf "data.rdf" []) as (Hwf & Hpend & _).
  fold r in Hwf, Hpend.
  apply (reads_at_end r [CallReadRune; CallReadSlice newline] newline).
  - exact Hwf.
  - exact Hpend.
  - exact GoIntFacts.inRange_0.
  - exact GoIntFacts.inRange_0.
Defined.

(** X8 on "hello\nworld", read with one call of each kind. *)
Lemma position_in_file_witness :
  let r := Examples.plainReader "data.rdf" Examples.helloWorld in
  let r' := snd (run r [CallReadRune; CallReadSlice newline;
                        CallReadString newline]) in
  exists consumed : list byte,
    pending (rd r) = consumed ++ pending (rd r')
    /\ Offset r' = GoInt.wrap (GoInt.len consumed)
    /\ LineCount r' = GoInt.wrap (Z.of_nat (countByte newline consumed))
    /\ ((Z.of_nat (length (pending (rd r))) <= GoInt.maxInt)%Z ->
        Offset r' = GoInt.len consumed
        /\ LineCount r' = Z.of_nat (countByte newline consumed)).
Proof.
  intros r.
  destruct (scenarios.plainReader_wf "data.rdf" Examples.helloWorld)
    as (Hwf & Hpend & Hlen).
  fold r in Hwf, Hpend, Hlen.
  apply (position_in_file r).
  - exact Hwf.
  - rewrite Hlen. apply Nat.leb_le. vm_compute. reflexivity.
  - reflexivity.
  - reflexivity.
Defined.

(** X9 on U+00E9 followed by a newline. *)
Lemma ReadRune_UnreadRune_file_witness :
  let r := Examples.plainReader "data.rdf" Examples.accented in
  let '(_, _, _, r1) := ReadRune r in
  let '(e, r2) := UnreadRune r1 in
  e = None
  /\ pending (rd r2) = pending (rd r)
  /\ wf (rd r2)
  /\ Offset r2 = Offset r /\ LineCount r2 = LineCount r.
Proof.
  intros r.
  destruct (scenarios.plainReader_wf "data.rdf" Examples.accented)
    as (Hwf & Hpend & _).
  fold r in Hwf, Hpend.
  apply (ReadRune_UnreadRune_file r).
  - exact Hwf.
  - rewrite Hpend. discriminate.
Defined.

End filePosition.

(** ** Construction: what the sniffer sees *)

Module sniffing.

Unset Implicit Arguments.

Import chunk.
Import Inv.

Lemma append_nil_r (s : string) : (s ++ "")%string = s.
Proof. induction s as [|c s IH]; simpl; [reflexivity | now rewrite IH]. Qed.

Lemma append_assoc (s1 s2 s3 : string) :
  ((s1 ++ s2) ++ s3)%string = (s1 ++ (s2 ++ s3))%string.
Proof. induction s1 as [|c s1 IH]; simpl; [reflexivity | now rewrite IH]. Qed.

Lemma string_of_list_ascii_app (a b : list ascii) :
  string_of_list_ascii (a ++ b)
  = (string_of_list_ascii a ++ string_of_list_ascii b)%string.
Proof. induction a as [|c a IH]; simpl; [reflexivity | now rewrite IH]. Qed.

Lemma ext_scan_suffix (l : list ascii) (suffix : string) :
  exists base : string,
    (string_of_list_ascii (rev l) ++ suffix)%string
    = (base ++ filepath.ext_scan l suffix)%string.
Proof.
  revert suffix. induction l as [|c l IH]; intros suffix.
  - exists suffix. simpl. now rewrite append_nil_r.
  - cbn [rev filepath.ext_scan].
    rewrite string_of_list_ascii_app, append_assoc. cbn [string_of_list_ascii].
    change (String c "" ++ suffix)%string with (String c suffix).
    destruct (filepath.IsPathSeparator c).
    + eexists. now rewrite append_nil_r.
    + destruct (Ascii.eqb c "."); [eexists; reflexivity | apply IH].
Qed.

(** The extension is the end of the path. *)
Lemma Ext_suffix (path : string) :
  exists base : string, path = (base ++ filepath.Ext path)%string.
Proof.
  unfold filepath.Ext.
  destruct (ext_scan_suffix (rev (list_ascii_of_string path)) "")
    as (base & Hbase).
  rewrite rev_involutive, string_of_list_ascii_of_string, append_nil_r
    in Hbase.
  now exists base.
Qed.

(** [Peek(n)] over a file returns the first [n] pending bytes, or all of
    them when there are fewer. *)
Lemma Peek_head (b : bufio.Reader os.File) (n : nat) :
  wf b -> n <= length (bufio.buf b) ->
  fst (fst (bufio.Peek b n)) = firstn n (pending b).
Proof.
  intros Hwf Hn. unfold bufio.Peek.
  assert (Hwf0 : wf (bufio.with_last b (-1) (-1))) by exact Hwf.
  destruct (fileReads.peek_fill_file
              (S (length (bufio.buf (bufio.with_last b (-1) (-1))))) n Hwf0)
    as (H1 & H2 & H3).
  pose proof (bufioFacts.peek_fill_done n (bufio.with_last b (-1) (-1))
                (bufioFacts.room_bound _)) as Hdone.
  set (bp := bufio.peek_fill _ n _) in *. clearbody bp.
  change (pending (bufio.with_last b (-1) (-1))) with (pending b) in H2.
  change (bufio.buf (bufio.with_last b (-1) (-1))) with (bufio.buf b) in H3.
  rewrite <- H2. rewrite <- H3 in Hn. clear H2 H3 Hwf Hwf0 b.
  destruct H1 as (Hrw & Hwl & Hpos & He).
  rewrite (proj2 (Nat.ltb_ge _ _) Hn).
  unfold pending.
  assert (Hsl : length (slice (bufio.buf bp) (bufio.r bp) (bufio.w bp))
                = bufio.w bp - bufio.r bp) by (apply slice_length; lia).
  destruct (bufio.w bp - bufio.r bp <? n) eqn:Havail; cbn [fst].
  - apply Nat.ltb_lt in Havail.
    replace (bufio.r bp + (bufio.w bp - bufio.r bp)) with (bufio.w bp) by lia.
    unfold bufio.peekWanted, bufio.Buffered in Hdone.
    rewrite !andb_false_iff, !Nat.ltb_ge in Hdone.
    destruct Hdone as [[Hd|Hd]|Hd]; try lia.
    destruct He as [He|[_ Hun]]; [rewrite He in Hd; discriminate|].
    rewrite Hun, app_nil_r. symmetry. apply firstn_all2. lia.
  - apply Nat.ltb_ge in Havail.
    rewrite (slice_split (bufio.buf bp) (i:=bufio.r bp) (j:=bufio.r bp + n)
               (k:=bufio.w bp)) by lia.
    assert (Hpre : length (slice (bufio.buf bp) (bufio.r bp) (bufio.r bp + n))
                   = n) by (rewrite slice_length by lia; lia).
    rewrite <- app_assoc. rewrite <- Hpre at 2. now rewrite firstn_exact.
Qed.

(** A name that does not end in [.gz] does not have that extension. *)
Lemma not_gz (name : string) :
  (forall base : string, name <> (base ++ ".gz")%string) ->
  String.eqb (filepath.Ext name) ".gz" = false.
Proof.
  intros Hname. apply String.eqb_neq. intros Heq.
  destruct (Ext_suffix name) as (base & Hbase).
  rewrite Heq in Hbase. now apply (Hname base).
Qed.

(** The sniffing peek of [newReader]: it returns the head of the file and
    leaves the whole file pending. *)
Lemma peeked_file (f : os.File) :
  sniffedBytes f = firstn 512 (os.unread f)
  /\ wf (peeked f) /\ pending (peeked f) = os.unread f.
Proof.
  destruct (fileReads.NewReader_file f) as [Hwf0 Hp0].
  destruct (fileReads.Peek_file 512 Hwf0) as (Hwf & Hpend & _).
  split; [|split; [exact Hwf | unfold peeked; now rewrite Hpend]].
  unfold sniffedBytes. rewrite Peek_head, Hp0; [reflexivity | exact Hwf0 |].
  rewrite fileReads.NewReader_buf_length. apply Nat.leb_le. reflexivity.
Qed.

Section Sniffer.

Variable DetectContentType : list byte -> string.
Variable GzReader : Type.
Context `{IoReader GzReader}.
Variable gzip_NewReader : gzipInput -> GzReader + error.

(** X10. When the name of the file does not end in [.gz], the content
    decides: the sniffer is asked about the first 512 bytes of the file
    (all of it when it is shorter), and sniffing consumes nothing.  With
    the gzip type, [gzip.NewReader] gets a buffered reader that has the
    whole file pending; otherwise that buffered reader becomes the plain
    reader, which starts at the first byte with both counters at zero. *)
Theorem newReader_by_content (f : os.File) :
  (forall base : string, os.Name f <> (base ++ ".gz")%string) ->
  exists b : bufio.Reader os.File,
    wf b /\ pending b = os.unread f
    /\ newReader DetectContentType gzip_NewReader f
       = if String.eqb (DetectContentType (firstn 512 (os.unread f)))
                       gzipType
         then match gzip_NewReader (Sniffed b) with
              | inr e => Fatal (FatalNoTrace e)
              | inl gzr =>
                  Gunzip (fresh (os.Name f) (bufio.NewReader gzr) true)
                         [CloseFile; CloseGzip]
              end
         else Plain (mkReader b 0 0 false (os.Name f) 0 0) [CloseFile].
Proof.
  intros Hname.
  destruct (peeked_file f) as (Hhead & Hwf & Hpend).
  exists (peeked f).
  split; [exact Hwf|]. split; [exact Hpend|].
  now rewrite construction.newReader_cases, (not_gz _ Hname), Hhead.
Qed.

(** X11. [NewReader] on a source of plain text: standard input (the
    name ["-"]), whatever it holds, or an existing file whose name does
    not end in [.gz]; the sniffer does not see gzip in the first 512
    bytes.  The reader comes with the cleanup that closes the file, has
    the whole content pending, both counters at zero, no decompression,
    and the name of the file, [/dev/stdin] for standard input. *)
Theorem NewReader_plain_source (fs : string -> option (list byte))
  (stdin : list byte) (file : string) (content : list byte) :
  (file = "-"%string /\ content = stdin)
  \/ (file <> "-"%string /\ fs file = Some content
      /\ forall base : string, file <> (base ++ ".gz")%string) ->
  DetectContentType (firstn 512 content) <> gzipType ->
  exists r : Reader os.File,
    NewReader DetectContentType gzip_NewReader fs stdin file
    = Plain r [CloseFile]
    /\ wf (rd r) /\ pending (rd r) = content
    /\ Offset r = 0%Z /\ LineCount r = 0%Z
    /\ compressed r = false
    /\ filename r = if String.eqb file "-" then "/dev/stdin"%string else file.
Proof.
  intros Hsrc Htyp. apply String.eqb_neq in Htyp.
  assert (Hopen : exists f : os.File,
             NewReader DetectContentType gzip_NewReader fs stdin file
             = newReader DetectContentType gzip_NewReader f
             /\ os.unread f = content
             /\ os.Name f
                = (if String.eqb file "-" then "/dev/stdin"%string else file)
             /\ String.eqb (filepath.Ext (os.Name f)) ".gz" = false).
  { unfold NewReader.
    destruct Hsrc as [[-> ->]|(Hfile & Hfs & Hname)].
    - exists (os.mkFile "/dev/stdin" stdin). auto.
    - apply String.eqb_neq in Hfile. rewrite Hfile, Hfs.
      exists (os.mkFile file content). cbn [os.Name os.unread].
      split; [reflexivity|]. split; [reflexivity|]. split; [reflexivity|].
      now apply not_gz. }
  destruct Hopen as (f & -> & Hcontent & Hname & Hext).
  destruct (peeked_file f) as (Hhead & Hwf & Hpend).
  rewrite Hcontent in Hhead, Hpend.
  exists (fresh (os.Name f) (peeked f) false).
  rewrite construction.newReader_cases, Hext, Hhead, Htyp.
  unfold fresh, Offset, LineCount.
  cbn [rd offset line compressed filename].
  conjuncts; auto.
Qed.

End Sniffer.

(** X10 on the three lines in [data.rdf]. *)
Lemma newReader_by_content_witness :
  (forall base : string,
      os.Name Examples.threeLinesFile <> (base ++ ".gz")%string)
  /\ exists b : bufio.Reader os.File,
       wf b /\ pending b = Examples.threeLines
       /\ Standin.newReader Examples.threeLinesFile
          = Plain (mkReader b 0 0 false "data.rdf" 0 0) [CloseFile].
Proof.
  assert (Hname : forall base : string,
             os.Name Examples.threeLinesFile <> (base ++ ".gz")%string).
  { intros base Heq. apply (f_equal filepath.Ext) in Heq.
    rewrite construction.Ext_gz in Heq. vm_compute in Heq. discriminate. }
  split; [exact Hname|].
  destruct (newReader_by_content Standin.DetectContentType
              Standin.GzReader Standin.gzip_NewReader
              Examples.threeLinesFile Hname) as (b & Hwf & Hpend & Hnew).
  exists b. split; [exact Hwf|]. split; [exact Hpend|]. exact Hnew.
Defined.

(** X11 on "hello\nworld" coming from standard input. *)
Lemma NewReader_plain_source_witness :
  Standin.DetectContentType (firstn 512 Examples.helloWorld) <> gzipType
  /\ exists r : Reader os.File,
       NewReader Standin.DetectContentType Standin.gzip_NewReader
                 (fun _ => None) Examples.helloWorld "-"
       = Plain r [CloseFile]
       /\ wf (rd r) /\ pending (rd r) = Examples.helloWorld
       /\ Offset r = 0%Z /\ LineCount r = 0%Z
       /\ compressed r = false
       /\ filename r = "/dev/stdin"%string.
Proof.
  assert (Htyp : Standin.DetectContentType (firstn 512 Examples.helloWorld)
                 <> gzipType)
    by (vm_compute; discriminate).
  split; [exact Htyp|].
  exact (NewReader_plain_source Standin.DetectContentType Standin.GzReader
           Standin.gzip_NewReader (fun _ => None) Examples.helloWorld "-"
           Examples.helloWorld (or_introl (conj eq_refl eq_refl)) Htyp).
Defined.

End sniffing.

(** ** Any lawful source: runes, and the end of reading *)

Module anySource.

Unset Implicit Arguments.

Import Inv.

(** A decoded rune is at most [UTFMax] bytes wide. *)
Lemma DecodeRune_width (p : list byte) :
  snd (utf8.DecodeRune p) <= utf8.UTFMax.
Proof.
  unfold utf8.DecodeRune, utf8.UTFMax.
  destruct p as [|p0 [|b1 [|b2 [|b3 rest]]]];
    repeat match goal with
      | |- context [let '(_, _) := ?x in _] => destruct x
      | |- context [if ?c then _ else _] => destruct c
      end; simpl; lia.
Qed.

Section Buffered.

Import bufio.

Context {Src : Type} {io : IoReader Src} {laws : IoReaderLaws Src}.

Implicit Type b : Reader Src.

Lemma readRune_fill_bounds (fuel : nat) b :
  inBounds b -> inBounds (readRune_fill fuel b).
Proof.
  revert b. induction fuel as [|fuel IH]; intros b Hb; simpl;
    destruct (runeWanted b); auto.
  apply IH. now apply bufioBounds.fill_bounds.
Qed.

(** [ReadRune] returns a rune or an error, not both. *)
Lemma ReadRune_outcome b :
  inBounds b ->
  let '(c, size, e, b') := ReadRune b in
  inBounds b'
  /\ match e with
     | Some _ => c = 0%Z /\ size = 0
     | None => 1 <= size <= utf8.UTFMax
     end.
Proof.
  intros Hb. unfold ReadRune.
  pose proof (readRune_fill_bounds (S (length (buf b))) b Hb) as Hbx.
  pose proof (bufioFacts.readRune_fill_done b (bufioFacts.room_bound b))
    as Hdone.
  set (bx := readRune_fill (S (length (buf b))) b) in *. clearbody bx.
  cbn [with_last r w buf rd err lastByte lastRuneSize].
  destruct Hbx as (Hrw & Hwl & Hpos & He).
  destruct (r bx =? w bx) eqn:Hrx.
  - apply Nat.eqb_eq in Hrx. split.
    + unfold inBounds. cbn [with_err with_last r w buf rd err].
      conjuncts; auto. discriminate.
    + unfold runeWanted, Buffered, utf8.UTFMax in Hdone.
      rewrite slice_nil in Hdone by lia.
      cbn [utf8.FullRune negb] in Hdone.
      rewrite !andb_false_iff, !Nat.ltb_ge in Hdone.
      destruct (err bx); [auto|].
      destruct Hdone as [[[H4|Hfull]|Herr]|Hlen]; try lia; discriminate.
  - apply Nat.eqb_neq in Hrx.
    assert (Hsl : length (slice (buf bx) (r bx) (w bx)) = w bx - r bx)
      by (apply slice_length; lia).
    set (p0 := nth (r bx) (buf bx) x00).
    assert (Hsize :
      1 <= snd (if (utf8.byteZ p0 <? utf8.RuneSelf)%Z
                then (utf8.byteZ p0, 1)
                else utf8.DecodeRune (slice (buf bx) (r bx) (w bx)))
      /\ snd (if (utf8.byteZ p0 <? utf8.RuneSelf)%Z
              then (utf8.byteZ p0, 1)
              else utf8.DecodeRune (slice (buf bx) (r bx) (w bx)))
         <= w bx - r bx
      /\ snd (if (utf8.byteZ p0 <? utf8.RuneSelf)%Z
              then (utf8.byteZ p0, 1)
              else utf8.DecodeRune (slice (buf bx) (r bx) (w bx)))
         <= utf8.UTFMax).
    { destruct (utf8.byteZ p0 <? utf8.RuneSelf)%Z;
        [unfold utf8.UTFMax; simpl; lia|].
      assert (Hne : slice (buf bx) (r bx) (w bx) <> [])
        by (intros Hnil; rewrite Hnil in Hsl; simpl in Hsl; lia).
      destruct (fileInvariant.DecodeRune_size _ Hne) as [H1 H2].
      rewrite Hsl in H2.
      split; [exact H1|]. split; [exact H2 | apply DecodeRune_width]. }
    destruct (if (utf8.byteZ p0 <? utf8.RuneSelf)%Z
              then (utf8.byteZ p0, 1)
              else utf8.DecodeRune (slice (buf bx) (r bx) (w bx)))
      as [c size].
    cbn [snd] in Hsize. destruct Hsize as (Hs1 & Hs2 & Hs3).
    split; [|lia].
    unfold inBounds. cbn [r w buf rd err]. conjuncts; auto; lia.
Qed.

Lemma collect_bounds (fuel : nat) (delim : byte) (full : list byte) b
  str e b' :
  inBounds b ->
  collect fuel delim full b = Some (str, e, b') ->
  inBounds b' /\ budget b' + length str <= budget b + length full.
Proof.
  revert full b. induction fuel as [|fuel IH]; intros full b Hb; simpl.
  all: destruct (ReadSlice b delim) as [[frag e1] b1] eqn:HRS.
  all: destruct (bufioBounds.ReadSlice_bounds _ _ _ _ _ Hb HRS)
         as (Hb1 & _ & Hbud & _).
  all: destruct e1 as [[| | | | |msg]|]; try discriminate.
  all: try (intros Hres; injection Hres as <- <- <-;
            rewrite length_app; split; [exact Hb1 | lia]).
  intros Hres. destruct (IH _ _ Hb1 Hres) as [Hb' Hbud'].
  rewrite length_app in Hbud'. split; [exact Hb' | lia].
Qed.

Lemma ReadString_bounds (delim : byte) b str e b' :
  inBounds b ->
  ReadString b delim = (str, e, b') ->
  inBounds b' /\ budget b' + length str <= budget b.
Proof.
  intros Hb. unfold ReadString.
  destruct (collect (Buffered b + limit (rd b)) delim [] b)
    as [[[str1 e1] b1]|] eqn:Hc.
  - intros Hres. injection Hres as <- <- <-.
    destruct (collect_bounds _ _ _ _ _ _ _ Hb Hc) as [Hb1 Hbud].
    simpl in Hbud. split; [exact Hb1 | lia].
  - exfalso. revert Hc. now apply bufioBounds.ReadString_returns.
Qed.

End Buffered.

Section Chunk.

Import chunk.
Import Calls.

Context {Src : Type} {io : IoReader Src} {laws : IoReaderLaws Src}.

Implicit Type r : Reader Src.

(** X12. [ReadRune] returns a rune or an error, never both, whatever
    the source: with an error the rune and its width are zero and
    [LineCount()] stays; without one the width is between one and
    [utf8.UTFMax] bytes. *)
Theorem ReadRune_rune_or_error r :
  inBounds (rd r) ->
  let '(c, size, e, r') := ReadRune r in
  inBounds (rd r')
  /\ match e with
     | Some _ => c = 0%Z /\ size = 0 /\ LineCount r' = LineCount r
     | None => 1 <= size <= utf8.UTFMax
     end.
Proof.
  intros Hb. unfold ReadRune.
  pose proof (ReadRune_outcome (rd r) Hb) as Hout.
  destruct (bufio.ReadRune (rd r)) as [[[c size] e] b'].
  cbn [rd]. destruct Hout as [Hb' Hout]. split; [exact Hb'|].
  destruct e as [e|]; [|exact Hout].
  destruct Hout as [-> ->]. auto.
Qed.

Lemma lines_end (k : nat) (delim : byte) r :
  budget (rd r) <= k -> inBounds (rd r) ->
  exists n : nat,
    n <= budget (rd r)
    /\ (forall i : nat, i < n ->
          snd (fst (ReadString (afterReadString i delim r) delim)) = None)
    /\ snd (fst (ReadString (afterReadString n delim r) delim)) <> None.
Proof.
  revert r. induction k as [|k IH]; intros r Hk Hb.
  all: destruct (ReadString r delim) as [[str e] r1] eqn:HRS.
  all: pose proof HRS as Hbufio; unfold ReadString in Hbufio.
  all: destruct (bufio.ReadString (rd r) delim) as [[str0 e0] b1] eqn:HBS.
  all: injection Hbufio as <- <- <-.
  all: destruct (ReadString_bounds _ _ _ _ _ Hb HBS) as [Hb1 Hbud].
  all: pose proof (bufioLines.ReadString_shape _ _ _ _ _ Hb HBS) as Hshape.
  all: destruct e0 as [e0|];
         [exists 0; split; [lia|]; split; [intros i Hi; lia|];
          cbn [afterReadString]; rewrite HRS; discriminate|].
  all: destruct Hshape as (pre & -> & _); rewrite length_app in Hbud;
         simpl in Hbud.
  - lia.
  - set (r1 := mkReader b1 _ _ _ _ _ _) in *.
    assert (Hk1 : budget (rd r1) <= k)
      by (change (rd r1) with b1; lia).
    destruct (IH r1 Hk1 Hb1) as (n & Hn & Hbefore & Hat).
    exists (S n). change (rd r1) with b1 in Hn. split; [lia|].
    cbn [afterReadString]. rewrite HRS. cbn [snd].
    split; [|exact Hat].
    intros [|i] Hi; [cbn [afterReadString]; now rewrite HRS|].
    cbn [afterReadString]. rewrite HRS. cbn [snd]. apply Hbefore. lia.
Qed.

(** X13. Reading line by line ends, whatever the source: some call of
    [ReadString] returns an error, all calls before it return none, and
    their number is at most the number of bytes the reader can still
    hand out. *)
Theorem reading_lines_ends r (delim : byte) :
  inBounds (rd r) ->
  exists n : nat,
    n <= budget (rd r)
    /\ (forall i : nat, i < n ->
          snd (fst (ReadString (afterReadString i delim r) delim)) = None)
    /\ snd (fst (ReadString (afterReadString n delim r) delim)) <> None.
Proof.
  intros Hb. now apply (lines_end (budget (rd r))).
Qed.

End Chunk.

(** X12 on U+00E9 followed by a newline. *)
Lemma ReadRune_rune_or_error_witness :
  let r := Examples.plainReader "data.rdf" Examples.accented in
  inBounds (chunk.rd r)
  /\ let '(c, size, e, r') := chunk.ReadRune r in
     inBounds (chunk.rd r')
     /\ match e with
        | Some _ =>
            c = 0%Z /\ size = 0 /\ chunk.LineCount r' = chunk.LineCount r
        | None => 1 <= size <= utf8.UTFMax
        end.
Proof.
  intros r.
  assert (Hb : inBounds (chunk.rd r))
    by (apply chunkLines.wf_inBounds, scenarios.plainReader_wf).
  split; [exact Hb|].
  exact (ReadRune_rune_or_error r Hb).
Defined.

(** X13 on "hello\nworld". *)
Lemma reading_lines_ends_witness :
  let r := Examples.plainReader "data.rdf" Examples.helloWorld in
  inBounds (chunk.rd r)
  /\ exists n : nat,
       n <= budget (chunk.rd r)
       /\ (forall i : nat, i < n ->
             snd (fst (chunk.ReadString
                         (Calls.afterReadString i newline r) newline))
             = None)
       /\ snd (fst (chunk.ReadString
                      (Calls.afterReadString n newline r) newline))
          <> None.
Proof.
  intros r.
  assert (Hb : inBounds (chunk.rd r))
    by (apply chunkLines.wf_inBounds, scenarios.plainReader_wf).
  split; [exact Hb|].
  exact (reading_lines_ends r newline Hb).
Defined.

End anySource.
